(** * The streaming frame decoder of [radar_data_processor.py]

    A shallow embedding of [RadarDataProcessor.process_frame] and of the
    state it works on, followed by the properties of the decoder.

    Conventions of the embedding.
    - The names [byteBuffer], [byteBufferLength], [count_entered],
      [count_exit] and [temp] that [process_frame] reads and writes are the
      fields of [State]; their initial values are the ones [__init__] gives
      to the attributes of the same purpose.
    - A [uint8] is a [byte]; the buffer is a [list byte].  Integers computed
      by [np.matmul] are 64-bit and stay far below [2^63], so they are
      modelled by [Z] without wrap-around.
    - A [float32] is kept as its 32 bits (the little-endian reading of the
      four bytes that [.view(dtype=np.float32)] reinterprets) and decoded to
      an exact rational when it is compared.
    - An exception is the [Raise] result of the monad [M]; the state reached
      when it is raised is kept, as the Python globals keep theirs.
    - [time.time()] and the [pandas] frame built from [targetObj] are left
      out: [out] is the [targetObj] it is built from. *)

From Stdlib Require Import ZArith List Lia Bool QArith.
From Stdlib Require Import Strings.Byte.
From stdpp Require Import gmap.
Import ListNotations.

Open Scope Z_scope.

(** ** Python and NumPy primitives *)

Definition len {A} (a : list A) : Z := Z.of_nat (length a).

(** The bound of a slice: a negative bound counts from the end, and both
    bounds are clipped to the sequence. *)
Definition norm_index (n i : Z) : Z :=
  if i <? 0 then Z.max 0 (i + n) else Z.min i n.

(** [a[lo:hi]]. *)
Definition slice {A} (a : list A) (lo hi : Z) : list A :=
  let n := len a in
  let lo' := norm_index n lo in
  let hi' := norm_index n hi in
  firstn (Z.to_nat (hi' - lo')) (skipn (Z.to_nat lo') a).

Inductive exn := KeyError | ValueError | IndexError.

Inductive res (A : Type) :=
| Ok (a : A)
| Raise (e : exn).
Arguments Ok {A} a.
Arguments Raise {A} e.

(** [a[lo:hi] = src] on a one-dimensional array: the shapes must agree,
    except that a source of one element is broadcast. *)
Definition assign_slice (a : list byte) (lo hi : Z) (src : list byte)
  : res (list byte) :=
  let n := len a in
  let lo' := norm_index n lo in
  let hi' := Z.max lo' (norm_index n hi) in
  let k := Z.to_nat (hi' - lo') in
  if Nat.eqb (length src) k then
    Ok (firstn (Z.to_nat lo') a ++ src ++ skipn (Z.to_nat hi') a)
  else if Nat.eqb (length src) 1 then
    Ok (firstn (Z.to_nat lo') a ++ repeat (hd x00 src) k ++ skipn (Z.to_nat hi') a)
  else Raise ValueError.

Definition byte_val (b : byte) : Z := Z.of_N (Byte.to_N b).

Fixpoint dot (v : list byte) (w : list Z) : Z :=
  match v, w with
  | b :: v', c :: w' => byte_val b * c + dot v' w'
  | _, _ => 0
  end.

(** [np.matmul(v, w)] of two vectors. *)
Definition matmul (v : list byte) (w : list Z) : res Z :=
  if Nat.eqb (length v) (length w) then Ok (dot v w) else Raise ValueError.

Definition word32 : list Z := [1; 2 ^ 8; 2 ^ 16; 2 ^ 24].
Definition word16 : list Z := [1; 2 ^ 8].

(** [v.view(dtype=np.float32)] stored into one array element: [v] must hold
    exactly four bytes.  The result is the bit pattern of the float. *)
Definition view_float32 (v : list byte) : res Z :=
  if Nat.eqb (length v) 4 then Ok (dot v word32) else Raise ValueError.

(** [np.where(a == b)[0]], the indices counted from [i]. *)
Fixpoint where_eq_from (i : Z) (a : list byte) (b : byte) : list Z :=
  match a with
  | [] => []
  | x :: a' =>
      if Byte.eqb x b then i :: where_eq_from (i + 1) a' b
      else where_eq_from (i + 1) a' b
  end.

Definition where_eq (a : list byte) (b : byte) : list Z := where_eq_from 0 a b.

Fixpoint list_eqb (u v : list byte) : bool :=
  match u, v with
  | [], [] => true
  | x :: u', y :: v' => Byte.eqb x y && list_eqb u' v'
  | _, _ => false
  end.

(** [np.where(m)[0]] of a boolean array, the indices counted from [i]. *)
Fixpoint where_true_from (i : Z) (m : list bool) : list Z :=
  match m with
  | [] => []
  | b :: m' =>
      if b then i :: where_true_from (i + 1) m' else where_true_from (i + 1) m'
  end.

Definition where_true (m : list bool) : list Z := where_true_from 0 m.

(** [np.diff] of a boolean array: [a[1:] != a[:-1]]. *)
Fixpoint diff_bool (m : list bool) : list bool :=
  match m with
  | a :: (b :: _) as m' => xorb b a :: diff_bool m'
  | _ => []
  end.

(** ** Single-precision floats *)

Inductive f32 :=
| NaN
| Inf (neg : bool)
| Fin (q : Q).

(** The value of the IEEE-754 binary32 with bit pattern [b]. *)
Definition f32_of_bits (b : Z) : f32 :=
  let neg := Z.testbit b 31 in
  let e := Z.land (Z.shiftr b 23) 255 in
  let m := Z.land b (2 ^ 23 - 1) in
  if e =? 255 then (if m =? 0 then Inf neg else NaN)
  else
    let mant := if e =? 0 then m else 2 ^ 23 + m in
    let ex := (if e =? 0 then 1 else e) - 150 in
    let s := if neg then - mant else mant in
    Fin (if 0 <=? ex then Qmake (s * 2 ^ ex) 1
         else Qmake s (Z.to_pos (2 ^ (- ex)))).

(** [x <= y] and [x < y] on floats; a comparison with NaN is false. *)
Definition f32_le (x y : f32) : bool :=
  match x, y with
  | NaN, _ | _, NaN => false
  | Inf true, _ => true
  | _, Inf false => true
  | Inf false, _ => false
  | _, Inf true => false
  | Fin p, Fin q => Qle_bool p q
  end.

Definition f32_lt (x y : f32) : bool :=
  match x, y with
  | NaN, _ | _, NaN => false
  | _, _ => negb (f32_le y x)
  end.

(** [np.sign]. *)
Definition np_sign (x : f32) : f32 :=
  match x with
  | NaN => NaN
  | Inf true => Fin (-1 # 1)
  | Inf false => Fin (1 # 1)
  | Fin q =>
      if Qle_bool q 0 then (if Qle_bool 0 q then Fin 0 else Fin (-1 # 1))
      else Fin (1 # 1)
  end.

(** [-0.5 <= x <= 0.5] for the float with bits [x]. *)
Definition in_band (x : Z) : bool :=
  f32_le (Fin (-1 # 2)) (f32_of_bits x) && f32_le (f32_of_bits x) (Fin (1 # 2)).

(** [np.sign(x) >= 0]. *)
Definition sign_ge0 (x : Z) : bool :=
  f32_le (Fin 0) (np_sign (f32_of_bits x)).

(** [x < 0]. *)
Definition is_neg (x : Z) : bool :=
  f32_lt (f32_of_bits x) (Fin 0).

(** [np.where(np.diff(np.sign(h) >= 0))[0]]. *)
Definition zero_crossing_site (h : list Z) : list Z :=
  where_true (diff_bool (map sign_ge0 h)).

(** ** The state of the processor *)

Record State := mkState {
  byteBuffer : list byte;
  byteBufferLength : Z;
  count_entered : Z;
  count_exit : Z;
  temp : gmap Z (list Z)
}.

Definition maxBufferSize : Z := 2 ^ 15.
Definition tlvHeaderLengthInBytes : Z := 8.
Definition pointLengthInBytes : Z := 16.
Definition targetLengthInBytes : Z := 68.
Definition MMWDEMO_UART_MSG_POINT_CLOUD_2D : Z := 6.
Definition MMWDEMO_UART_MSG_TARGET_LIST_2D : Z := 7.
Definition MMWDEMO_UART_MSG_TARGET_INDEX_2D : Z := 8.
Definition magicWord : list byte := [x02; x01; x04; x03; x06; x05; x08; x07].

(** [np.zeros(n, dtype='uint8')]. *)
Definition zeros (n : nat) : list byte := repeat x00 n.

(** [__init__]. *)
Definition init : State :=
  {| byteBuffer := zeros (Z.to_nat (2 ^ 15));
     byteBufferLength := 0;
     count_entered := 0;
     count_exit := 0;
     temp := list_to_map (map (fun i => (i, [])) [0; 1; 2; 3; 4; 5; 6]) |}.

Definition set_byteBuffer (b : list byte) (s : State) : State :=
  mkState b (byteBufferLength s) (count_entered s) (count_exit s) (temp s).
Definition set_byteBufferLength (n : Z) (s : State) : State :=
  mkState (byteBuffer s) n (count_entered s) (count_exit s) (temp s).
Definition set_count_entered (n : Z) (s : State) : State :=
  mkState (byteBuffer s) (byteBufferLength s) n (count_exit s) (temp s).
Definition set_count_exit (n : Z) (s : State) : State :=
  mkState (byteBuffer s) (byteBufferLength s) (count_entered s) n (temp s).
Definition set_temp (t : gmap Z (list Z)) (s : State) : State :=
  mkState (byteBuffer s) (byteBufferLength s) (count_entered s) (count_exit s) t.

(** ** A state monad with exceptions *)

Definition M (A : Type) : Type := State -> res A * State.

Definition ret {A} (a : A) : M A := fun s => (Ok a, s).
Definition raise {A} (e : exn) : M A := fun s => (Raise e, s).
Definition bind {A B} (m : M A) (f : A -> M B) : M B :=
  fun s =>
    match m s with
    | (Ok a, s') => f a s'
    | (Raise e, s') => (Raise e, s')
    end.
Definition lift {A} (r : res A) : M A := fun s => (r, s).
Definition gets {A} (f : State -> A) : M A := fun s => (Ok (f s), s).
Definition modify (f : State -> State) : M unit := fun s => (Ok tt, f s).
(** [try: m  except: pass], the value [d] standing for what the locals hold
    when [m] is abandoned. *)
Definition try_pass {A} (m : M A) (d : A) : M A :=
  fun s =>
    match m s with
    | (Ok a, s') => (Ok a, s')
    | (Raise _, s') => (Ok d, s')
    end.

Notation "x <- m ;; k" := (bind m (fun x => k))
  (at level 100, m at next level, right associativity).
Notation "m ;;; k" := (bind m (fun _ => k))
  (at level 100, right associativity).

(** ** Decoded records *)

(** One point of a point-cloud record: four floats. *)
Record Point := mkPoint {
  p_range : Z; p_azimuth : Z; p_doppler : Z; p_snr : Z
}.

(** One target of a target-list record: the id, six floats, the nine
    entries of the error covariance matrix in row-major order, the gain. *)
Record Target := mkTarget {
  t_id : Z;
  t_posX : Z; t_posY : Z; t_velX : Z; t_velY : Z; t_accX : Z; t_accY : Z;
  t_EC : list Z;
  t_G : Z
}.

Record PointObj := mkPointObj {
  numObj : Z;
  range : list Z; azimuth : list Z; doppler : list Z; snr : list Z
}.

Record TargetObj := mkTargetObj {
  to_frameNumber : Z;
  target_ID : list Z;
  posX : list Z; posY : list Z; velX : list Z; velY : list Z;
  Num_Targets : Z;
  Ppl_entered : Z;
  Ppl_exited : Z
}.

(** The local variables of [process_frame] that the loop over the records
    carries from one iteration to the next. *)
Record Locals := mkLocals {
  idX : Z;
  tlv_length : Z;
  dataOK : bool;
  targetDetected : bool;
  out : option TargetObj;
  targetObj : option TargetObj;
  pointObj : option PointObj
}.

(** What [process_frame] returns. *)
Record Result := mkResult {
  r_dataOK : bool;
  r_targetDetected : bool;
  r_frameNumber : Z;
  r_out : option TargetObj;
  r_targetObj : option TargetObj;
  r_pointObj : option PointObj
}.

(** ** [process_frame] *)

(** [np.matmul(byteBuffer[i:i + 4], word)] and its 16-bit variant. *)
Definition read_u32 (i : Z) : M Z :=
  buf <- gets byteBuffer ;;
  lift (matmul (slice buf i (i + 4)) word32).

Definition read_u16 (i : Z) : M Z :=
  buf <- gets byteBuffer ;;
  lift (matmul (slice buf i (i + 2)) word16).

(** [byteBuffer[i:i + 4].view(dtype=np.float32)]. *)
Definition read_f32 (i : Z) : M Z :=
  buf <- gets byteBuffer ;;
  lift (view_float32 (slice buf i (i + 4))).

(** Lines 114-116: the chunk is stored only if it leaves the buffer short
    of full. *)
Definition append (byteVec : list byte) : M unit :=
  let byteCount := len byteVec in
  n <- gets byteBufferLength ;;
  if n + byteCount <? maxBufferSize then
    buf <- gets byteBuffer ;;
    buf' <- lift (assign_slice buf n (n + byteCount) (slice byteVec 0 byteCount)) ;;
    modify (set_byteBuffer buf') ;;;
    modify (set_byteBufferLength (n + byteCount))
  else ret tt.

(** Lines 136-139 and 334-337: the bytes from [k] up to the logical length
    move to the front, the rest of the array is zeroed, and the logical
    length drops by [k]. *)
Definition shift_out (k : Z) : M unit :=
  n <- gets byteBufferLength ;;
  buf <- gets byteBuffer ;;
  buf1 <- lift (assign_slice buf 0 (n - k) (slice buf k n)) ;;
  modify (set_byteBuffer buf1) ;;;
  buf2 <- lift (assign_slice buf1 (n - k) (len buf1)
                  (zeros (length (slice buf1 (n - k) (len buf1))))) ;;
  modify (set_byteBuffer buf2) ;;;
  modify (set_byteBufferLength (n - k)).

(** Lines 142-143 and 340-341. *)
Definition clamp_length : M unit :=
  n <- gets byteBufferLength ;;
  if n <? 0 then modify (set_byteBufferLength 0) else ret tt.

(** Line 152. *)
Definition readyForDecode (n totalPacketLen : Z) : bool :=
  (totalPacketLen <=? n) && negb (n =? 0).

Section Decoder.

(** [a == b] on arrays whose shapes cannot be broadcast answers [False]
    (with a warning) before NumPy 1.25 and raises [ValueError] from 1.25 on.
    The development holds for both. *)
Variable strict_shapes : bool.

(** [np.all(check == magic)]. *)
Definition all_eq (check magic : list byte) : res bool :=
  if Nat.eqb (length check) (length magic) then Ok (list_eqb check magic)
  else if Nat.eqb (length check) 1 then
    Ok (forallb (Byte.eqb (hd x00 check)) magic)
  else if strict_shapes then Raise ValueError
  else Ok false.

(** Lines 125-129: the locations that start a whole magic word. *)
Fixpoint confirm_starts (buf : list byte) (possibleLocs : list Z)
  : res (list Z) :=
  match possibleLocs with
  | [] => Ok []
  | loc :: locs =>
      match all_eq (slice buf loc (loc + 8)) magicWord with
      | Raise e => Raise e
      | Ok b =>
          match confirm_starts buf locs with
          | Raise e => Raise e
          | Ok startIdx => Ok (if b then loc :: startIdx else startIdx)
          end
      end
  end.

(** Lines 119-153; the value is [magicOK]. *)
Definition sync : M bool :=
  n <- gets byteBufferLength ;;
  if 16 <? n then
    buf <- gets byteBuffer ;;
    let possibleLocs := where_eq buf (hd x00 magicWord) in
    startIdx <- lift (confirm_starts buf possibleLocs) ;;
    match startIdx with
    | [] => ret false
    | s0 :: _ =>
        (if (0 <? s0) && (s0 <? n) then shift_out s0 else ret tt) ;;;
        clamp_length ;;;
        totalPacketLen <- read_u32 20 ;;
        n' <- gets byteBufferLength ;;
        ret (readyForDecode n' totalPacketLen)
    end
  else ret false.

(** Lines 203-210: the sub-header of a record.  When a read fails the
    exception is dropped and the locals keep what they held. *)
Definition read_tlv_header (l : Locals) : M (Z * Z * Z) :=
  fun s =>
    match read_u32 (idX l) s with
    | (Raise _, s') => (Ok (0, tlv_length l, idX l), s')
    | (Ok tlv_type, s') =>
        match read_u32 (idX l + 4) s' with
        | (Raise _, s'') => (Ok (tlv_type, tlv_length l, idX l + 4), s'')
        | (Ok len', s'') => (Ok (tlv_type, len', idX l + 8), s'')
        end
    end.

(** Lines 226-235. *)
Fixpoint read_points (n : nat) (i : Z) : M (list Point * Z) :=
  match n with
  | O => ret ([], i)
  | S n' =>
      r <- read_f32 i ;;
      a <- read_f32 (i + 4) ;;
      d <- read_f32 (i + 8) ;;
      q <- read_f32 (i + 12) ;;
      rest <- read_points n' (i + 16) ;;
      ret (mkPoint r a d q :: fst rest, snd rest)
  end.

(** Lines 279-296: the covariance matrix, entry after entry. *)
Fixpoint read_floats (n : nat) (i : Z) : M (list Z) :=
  match n with
  | O => ret []
  | S n' =>
      x <- read_f32 i ;;
      rest <- read_floats n' (i + 4) ;;
      ret (x :: rest)
  end.

(** Lines 263-298. *)
Fixpoint read_targets (n : nat) (i : Z) : M (list Target * Z) :=
  match n with
  | O => ret ([], i)
  | S n' =>
      id <- read_u32 i ;;
      px <- read_f32 (i + 4) ;;
      py <- read_f32 (i + 8) ;;
      vx <- read_f32 (i + 12) ;;
      vy <- read_f32 (i + 16) ;;
      ax <- read_f32 (i + 20) ;;
      ay <- read_f32 (i + 24) ;;
      ec <- read_floats 9 (i + 28) ;;
      g <- read_f32 (i + 64) ;;
      rest <- read_targets n' (i + 68) ;;
      ret (mkTarget id px py vx vy ax ay ec g :: fst rest, snd rest)
  end.

(** Lines 302-315: the loop over the targets of one list; [ts] holds the
    pairs [(targetId[i], posX[i])] still to visit. *)
Fixpoint track (frameNumber : Z) (ts : list (Z * Z)) : M unit :=
  match ts with
  | [] => ret tt
  | (id, x) :: rest =>
      if in_band x then
        t <- gets temp ;;
        match t !! id with
        | None => raise KeyError
        | Some h =>
            let h' := h ++ [x] in
            modify (set_temp (<[id := h']> t)) ;;;
            if frameNumber mod 20 =? 0 then
              match zero_crossing_site h' with
              | [] => track frameNumber rest
              | k :: _ =>
                  match nth_error h' (Z.to_nat k) with
                  | None => raise IndexError
                  | Some v =>
                      if is_neg v then
                        e <- gets count_entered ;;
                        modify (set_count_entered (e + 1)) ;;;
                        t' <- gets temp ;;
                        modify (set_temp (<[id := []]> t'))
                      else
                        e <- gets count_exit ;;
                        modify (set_count_exit (e + 1)) ;;;
                        t' <- gets temp ;;
                        modify (set_temp (<[id := []]> t'))
                  end
              end
            else track frameNumber rest
        end
      else track frameNumber rest
  end.

(** [np.zeros(n)] refuses a negative size. *)
Definition check_size (n : Z) : M unit :=
  if n <? 0 then raise ValueError else ret tt.

(** Lines 197-329: one iteration of the loop over the records. *)
Definition tlv_step (frameNumber : Z) (l : Locals) : M Locals :=
  hdr <- read_tlv_header l ;;
  let '(tlv_type, tlv_len, i) := hdr in
  if tlv_type =? MMWDEMO_UART_MSG_POINT_CLOUD_2D then
    let numInputPoints := (tlv_len - tlvHeaderLengthInBytes) / pointLengthInBytes in
    check_size numInputPoints ;;;
    r <- read_points (Z.to_nat numInputPoints) i ;;
    let pts := fst r in
    ret (mkLocals (snd r) tlv_len true (targetDetected l) (out l) (targetObj l)
           (Some (mkPointObj numInputPoints (map p_range pts) (map p_azimuth pts)
                    (map p_doppler pts) (map p_snr pts))))
  else if tlv_type =? MMWDEMO_UART_MSG_TARGET_LIST_2D then
    let numTargetPoints := (tlv_len - tlvHeaderLengthInBytes) / targetLengthInBytes in
    check_size numTargetPoints ;;;
    r <- read_targets (Z.to_nat numTargetPoints) i ;;
    let tgs := fst r in
    track frameNumber (map (fun t => (t_id t, t_posX t)) tgs) ;;;
    ce <- gets count_entered ;;
    cx <- gets count_exit ;;
    let obj := mkTargetObj frameNumber (map t_id tgs) (map t_posX tgs)
                 (map t_posY tgs) (map t_velX tgs) (map t_velY tgs)
                 (len tgs) ce cx in
    ret (mkLocals (snd r) tlv_len (dataOK l) true (Some obj) (Some obj) (pointObj l))
  else if tlv_type =? MMWDEMO_UART_MSG_TARGET_INDEX_2D then
    let numIndices := tlv_len - tlvHeaderLengthInBytes in
    ret (mkLocals (i + numIndices) tlv_len (dataOK l) (targetDetected l) (out l)
           (targetObj l) (pointObj l))
  else
    ret (mkLocals i tlv_len (dataOK l) (targetDetected l) (out l) (targetObj l)
           (pointObj l)).

(** Line 196: [for tlvIdx in range(numTLVs)]. *)
Fixpoint tlv_loop (n : nat) (frameNumber : Z) (l : Locals) : M Locals :=
  match n with
  | O => ret l
  | S n' => l' <- tlv_step frameNumber l ;; tlv_loop n' frameNumber l'
  end.

(** Lines 165-193: the fixed header; the fields the rest of the function
    uses are returned with the read position. *)
Definition read_header : M (Z * Z * Z * Z) :=
  _version <- read_u32 8 ;;
  _platform <- read_u32 12 ;;
  _timeStamp <- read_u32 16 ;;
  totalPacketLen <- read_u32 20 ;;
  frameNumber <- read_u32 24 ;;
  _subFrameNumber <- read_u32 28 ;;
  _chirpMargin <- read_u32 32 ;;
  _frameMargin <- read_u32 36 ;;
  _uartSentTime <- read_u32 40 ;;
  _trackProcessTime <- read_u32 44 ;;
  numTLVs <- read_u16 48 ;;
  _checksum <- read_u16 50 ;;
  ret (totalPacketLen, frameNumber, numTLVs, 52).

(** Lines 156-341: decoding once [magicOK] is set. *)
Definition decode : M Result :=
  h <- read_header ;;
  let '(totalPacketLen, frameNumber, numTLVs, i) := h in
  l <- tlv_loop (Z.to_nat numTLVs) frameNumber
         (mkLocals i 0 false false None None None) ;;
  (if 0 <? idX l then
     shift_out totalPacketLen ;;;
     clamp_length
   else ret tt) ;;;
  ret (mkResult (dataOK l) (targetDetected l) frameNumber (out l) (targetObj l)
         (pointObj l)).

(** [process_frame], given the bytes that [data_port.read] returned. *)
Definition process_frame (byteVec : list byte) : M Result :=
  append byteVec ;;;
  magicOK <- sync ;;
  if magicOK then decode
  else ret (mkResult false false 0 None None None).

(** The state after a sequence of calls, one per chunk read. *)
Fixpoint run (chunks : list (list byte)) (s : State) : State :=
  match chunks with
  | [] => s
  | c :: cs => run cs (snd (process_frame c s))
  end.

End Decoder.

(** ** Vocabulary of the properties *)

(** The integer that [read_u32] finds at offset [i] of an array. *)
Definition u32_at (buf : list byte) (i : Z) : Z := dot (slice buf i (i + 4)) word32.

(** The array has its full size, the logical length lies inside it, and
    every byte from the logical length on is zero. *)
Definition buffer_inv (s : State) : Prop :=
  len (byteBuffer s) = maxBufferSize /\
  0 <= byteBufferLength s <= maxBufferSize /\
  skipn (Z.to_nat (byteBufferLength s)) (byteBuffer s)
  = zeros (Z.to_nat (maxBufferSize - byteBufferLength s)).

(** What [sync] does to a buffer that has the invariant: with [starts] the
    confirmed locations, the state it leaves and its answer. *)
Definition after_sync (s : State) (starts : list Z) : State :=
  match starts with
  | [] => s
  | s0 :: _ =>
      if (0 <? s0) && (s0 <? byteBufferLength s) then
        mkState (slice (byteBuffer s) s0 (byteBufferLength s)
                 ++ zeros (Z.to_nat (maxBufferSize - (byteBufferLength s - s0))))
          (byteBufferLength s - s0) (count_entered s) (count_exit s) (temp s)
      else s
  end.

(** [p] is a prefix of [a]; [p] occurs somewhere in [a]. *)
Fixpoint has_prefix (p a : list byte) : bool :=
  match p, a with
  | [], _ => true
  | x :: p', y :: a' => Byte.eqb x y && has_prefix p' a'
  | _ :: _, [] => false
  end.

Fixpoint occurs (p a : list byte) : bool :=
  has_prefix p a ||
  match a with
  | [] => false
  | _ :: a' => occurs p a'
  end.

(** The history table has an entry for every id of [ids]. *)
Definition has_keys (ids : list Z) (s : State) : bool :=
  forallb (fun id => match temp s !! id with Some _ => true | None => false end) ids.

(** Every target of the list that lies in the band has an id below 7. *)
Definition ids_in_table (ts : list (Z * Z)) : bool :=
  forallb (fun t => negb (in_band (snd t)) || ((0 <=? fst t) && (fst t <? 7))) ts.

(** [m] keeps [P]: from a state in [P], whatever [m] answers, the state it
    leaves is in [P]. *)
Definition preserves {A} (P : State -> Prop) (m : M A) : Prop :=
  forall s, P s -> P (snd (m s)).

(** Both counters of [s'] are at least those of [s]. *)
Definition counters_le (s s' : State) : Prop :=
  count_entered s <= count_entered s' /\ count_exit s <= count_exit s'.

(** ** Frames for the examples *)

Definition byte_of_Z (z : Z) : byte :=
  match Byte.of_N (Z.to_N (z mod 256)) with
  | Some b => b
  | None => x00
  end.

Definition u32le (z : Z) : list byte :=
  [byte_of_Z z; byte_of_Z (z / 2 ^ 8); byte_of_Z (z / 2 ^ 16); byte_of_Z (z / 2 ^ 24)].

Definition u16le (z : Z) : list byte := [byte_of_Z z; byte_of_Z (z / 2 ^ 8)].

(** The 52 bytes of a frame header. *)
Definition header (totalPacketLen frameNumber numTLVs : Z) : list byte :=
  magicWord ++ u32le 1 ++ u32le 2 ++ u32le 3 ++ u32le totalPacketLen
  ++ u32le frameNumber ++ u32le 0 ++ u32le 0 ++ u32le 0 ++ u32le 0 ++ u32le 0
  ++ u16le numTLVs ++ u16le 0.

(** The 68 bytes of a target at rest with the given id and [posX]. *)
Definition target_bytes (id x : Z) : list byte :=
  u32le id ++ u32le x ++ concat (repeat (u32le 0) 15).

(** The 16 bytes of a point. *)
Definition point_bytes (r a d q : Z) : list byte :=
  u32le r ++ u32le a ++ u32le d ++ u32le q.

(** A frame holding one target list with one target. *)
Definition target_frame (frameNumber id x : Z) : list byte :=
  header 128 frameNumber 1 ++ u32le 7 ++ u32le 76 ++ target_bytes id x.

(** The bits of the floats [-0.3], [-0.1], [0.2], [1.0], [2.5]. *)
Definition f_m03 : Z := 3197737370.
Definition f_m01 : Z := 3184315597.
Definition f_02 : Z := 1045220557.
Definition f_1 : Z := 1065353216.
Definition f_25 : Z := 1075838976.

(** A chunk that fills the empty buffer to its last byte. *)
Definition full_chunk : list byte := repeat x01 (Z.to_nat 32768).

(** A header that declares a total packet length of 0. *)
Definition zero_length_frame : list byte := header 0 1 0.

(** A frame of two records of which only six bytes behind the header are
    there: the type 6 and the two low bytes of the length 8. *)
Definition truncated_frame : list byte := header 58 1 2 ++ u32le 6 ++ [x08; x00].

(** A frame of two records: one of the unknown type 9 with four bytes of
    payload, and a point cloud with one point. *)
Definition unknown_tlv_frame : list byte :=
  header 88 1 2
  ++ (u32le 9 ++ u32le 12 ++ [xaa; xbb; xcc; xdd])
  ++ (u32le 6 ++ u32le 24 ++ point_bytes f_1 0 0 f_25).

(** The same frame with the unknown record reduced to its sub-header. *)
Definition known_tlv_frame : list byte :=
  header 84 1 2
  ++ (u32le 9 ++ u32le 8)
  ++ (u32le 6 ++ u32le 24 ++ point_bytes f_1 0 0 f_25).

(** A frame with a point cloud whose declared length 30 leaves six bytes
    behind its one whole point, followed by a second point cloud. *)
Definition ragged_frame : list byte :=
  header 106 1 2
  ++ (u32le 6 ++ u32le 30 ++ point_bytes f_1 0 0 f_25 ++ [x01; x02; x03; x04; x05; x06])
  ++ (u32le 6 ++ u32le 24 ++ point_bytes f_25 0 0 f_1).

(** Some bytes without a magic word, the first bytes of one among them. *)
Definition garbage : list byte := [x05; x02; x01; x04; x03; x00; x07; x02; x01; x04].

(** A frame whose one target lies at [posX = 0.0] and has the id 7. *)
Definition bad_id_frame : list byte := target_frame 20 7 0.

(** A frame whose point cloud declares the length 0. *)
Definition short_length_frame : list byte := header 60 1 1 ++ u32le 6 ++ u32le 0.

(** The read position and the other locals before the first record. *)
Definition locals0 : Locals := mkLocals 52 0 false false None None None.

(** The state with [frame] alone at the front of the buffer. *)
Definition synced (s : State) (frame : list byte) : State :=
  mkState (frame ++ zeros (Z.to_nat (maxBufferSize - len frame))) (len frame)
    (count_entered s) (count_exit s) (temp s).

(** A state whose buffer holds 32767 bytes, none of them the first byte of
    the magic word: no chunk fits any more. *)
Definition stuffed : State :=
  mkState (repeat x01 (Z.to_nat 32767) ++ [x00]) 32767 0 0 (temp init).

(** ** Vocabulary of the further properties *)

(** What a call returns when no frame is decoded. *)
Definition no_data : Result := mkResult false false 0 None None None.

(** The flags of a result agree with the objects it carries. *)
Definition result_consistent (r : Result) : Prop :=
  (r_dataOK r = true <-> r_pointObj r <> None) /\
  (r_targetDetected r = true <-> r_targetObj r <> None) /\
  r_out r = r_targetObj r.

Definition locals_consistent (l : Locals) : Prop :=
  (dataOK l = true <-> pointObj l <> None) /\
  (targetDetected l = true <-> targetObj l <> None) /\
  out l = targetObj l.

(** Whenever [m] answers normally, its value is in [Q]. *)
Definition returns {A} (m : M A) (Q : A -> Prop) : Prop :=
  forall s, match fst (m s) with Ok a => Q a | Raise _ => True end.

(** The occupancy update of a sequence of frames that each hold the one
    target [id]: the pairs are the frame number and [posX]. *)
Fixpoint feed (id : Z) (frames : list (Z * Z)) : M unit :=
  match frames with
  | [] => ret tt
  | (frameNumber, x) :: rest => track frameNumber [(id, x)] ;;; feed id rest
  end.

(** All samples lie in the band and on the side [b] of zero. *)
Definition same_side (b : bool) (xs : list Z) : bool :=
  forallb (fun x => in_band x && Bool.eqb (sign_ge0 x) b) xs.

(** The bytes of a point, and a frame that holds one point cloud. *)
Definition enc_point (p : Point) : list byte :=
  point_bytes (p_range p) (p_azimuth p) (p_doppler p) (p_snr p).

Definition point_cloud_frame (frameNumber : Z) (pts : list Point) : list byte :=
  header (60 + 16 * len pts) frameNumber 1
  ++ u32le 6 ++ u32le (8 + 16 * len pts) ++ concat (map enc_point pts).

(** A value that fits 32 bits; a point whose four fields do. *)
Definition is_u32 (z : Z) : bool := (0 <=? z) && (z <? 2 ^ 32).

Definition point_ok (p : Point) : bool :=
  is_u32 (p_range p) && is_u32 (p_azimuth p) && is_u32 (p_doppler p)
  && is_u32 (p_snr p).

(** The bytes of a target, and a frame that holds one target list. *)
Definition enc_target (t : Target) : list byte :=
  u32le (t_id t) ++ u32le (t_posX t) ++ u32le (t_posY t) ++ u32le (t_velX t)
  ++ u32le (t_velY t) ++ u32le (t_accX t) ++ u32le (t_accY t)
  ++ concat (map u32le (t_EC t)) ++ u32le (t_G t).

Definition target_list_frame (frameNumber : Z) (tgs : list Target) : list byte :=
  header (60 + 68 * len tgs) frameNumber 1
  ++ u32le 7 ++ u32le (8 + 68 * len tgs) ++ concat (map enc_target tgs).

(** A target whose id and floats fit 32 bits and whose error covariance
    has its nine entries. *)
Definition target_ok (t : Target) : bool :=
  is_u32 (t_id t) && is_u32 (t_posX t) && is_u32 (t_posY t)
  && is_u32 (t_velX t) && is_u32 (t_velY t) && is_u32 (t_accX t)
  && is_u32 (t_accY t) && (len (t_EC t) =? 9) && forallb is_u32 (t_EC t)
  && is_u32 (t_G t).

(** No target of the list lies in the band [-0.5 <= posX <= 0.5]. *)
Definition out_of_band (tgs : list Target) : bool :=
  forallb (fun t => negb (in_band (t_posX t))) tgs.

(** A frame that holds a target-index record with the bytes [idx] and,
    behind it, one point cloud. *)
Definition index_points_frame (frameNumber : Z) (idx : list byte)
    (pts : list Point) : list byte :=
  header (68 + len idx + 16 * len pts) frameNumber 2
  ++ u32le 8 ++ u32le (8 + len idx) ++ idx
  ++ u32le 6 ++ u32le (8 + 16 * len pts) ++ concat (map enc_point pts).

(** ** Well-formed frames *)









(** ** [parse_config_file] *)

(** Lines 54-56: [num_adc_samples_round_to2 = 1] and then
    [while num_adc_samples > num_adc_samples_round_to2:
       num_adc_samples_round_to2 *= 2], with [fuel] bounding the number of
    tests of the loop condition. *)
Fixpoint round_loop (fuel : nat) (num_adc_samples num_adc_samples_round_to2 : Z)
    : option Z :=
  match fuel with
  | O => None
  | S fuel' =>
      if num_adc_samples >? num_adc_samples_round_to2
      then round_loop fuel' num_adc_samples (num_adc_samples_round_to2 * 2)
      else Some num_adc_samples_round_to2
  end.

Definition round_to2 (fuel : nat) (num_adc_samples : Z) : option Z :=
  round_loop fuel num_adc_samples 1.

(** * Properties *)

(** ** Slices within bounds *)

Lemma len_nonneg {A} (a : list A) : 0 <= len a.
Proof. unfold len. lia. Qed.

Lemma len_app {A} (a b : list A) : len (a ++ b) = len a + len b.
Proof. unfold len. rewrite length_app. lia. Qed.

Lemma norm_index_in n i : 0 <= i <= n -> norm_index n i = i.
Proof.
  intros H. unfold norm_index.
  destruct (Z.ltb_spec i 0); lia.
Qed.

Lemma slice_in {A} (a : list A) lo hi :
  0 <= lo <= hi -> hi <= len a ->
  slice a lo hi = firstn (Z.to_nat (hi - lo)) (skipn (Z.to_nat lo) a).
Proof.
  intros H1 H2. unfold slice.
  rewrite !norm_index_in by lia. reflexivity.
Qed.

Lemma length_slice_in {A} (a : list A) lo hi :
  0 <= lo <= hi -> hi <= len a -> length (slice a lo hi) = Z.to_nat (hi - lo).
Proof.
  intros H1 H2. rewrite slice_in by assumption.
  rewrite length_firstn, length_skipn. unfold len in H2. lia.
Qed.

Lemma slice_all {A} (a : list A) : slice a 0 (len a) = a.
Proof.
  rewrite slice_in by (pose proof (len_nonneg a); lia).
  rewrite Z.sub_0_r. unfold len. rewrite Nat2Z.id.
  change (Z.to_nat 0) with 0%nat. rewrite skipn_O. apply firstn_all.
Qed.

Lemma assign_slice_in (a : list byte) lo hi src :
  0 <= lo <= hi -> hi <= len a -> len src = hi - lo ->
  assign_slice a lo hi src
  = Ok (firstn (Z.to_nat lo) a ++ src ++ skipn (Z.to_nat hi) a).
Proof.
  intros H1 H2 H3. unfold assign_slice.
  rewrite !norm_index_in by lia.
  rewrite Z.max_r by lia.
  replace (length src =? Z.to_nat (hi - lo))%nat with true; [reflexivity|].
  symmetry. apply Nat.eqb_eq. unfold len in H3. lia.
Qed.

(** ** Rules for [preserves] *)

Ltac unfold_monad :=
  cbv [bind gets modify raise ret lift try_pass] in *; cbn [fst snd] in *.

Lemma preserves_ret {A} P (a : A) : preserves P (ret a).
Proof. intros s H. exact H. Qed.

Lemma preserves_raise {A} P e : preserves P (@raise A e).
Proof. intros s H. exact H. Qed.

Lemma preserves_lift {A} P (r : res A) : preserves P (lift r).
Proof. intros s H. exact H. Qed.

Lemma preserves_gets {A} P (f : State -> A) : preserves P (gets f).
Proof. intros s H. exact H. Qed.

Lemma preserves_modify P g :
  (forall s, P s -> P (g s)) -> preserves P (modify g).
Proof. intros Hg s H. apply Hg, H. Qed.

Lemma preserves_bind {A B} P (m : M A) (f : A -> M B) :
  preserves P m -> (forall a, preserves P (f a)) -> preserves P (bind m f).
Proof.
  intros Hm Hf s H. unfold bind.
  specialize (Hm s H). destruct (m s) as [[a|e] s1]; cbn [snd] in *.
  - apply Hf, Hm.
  - exact Hm.
Qed.

Lemma preserves_gets_bind {A B} P (f : State -> A) (k : A -> M B) :
  (forall s, P s -> P (snd (k (f s) s))) -> preserves P (bind (gets f) k).
Proof. intros Hk s H. unfold bind, gets. apply Hk, H. Qed.

Lemma preserves_try_pass {A} P (m : M A) d :
  preserves P m -> preserves P (try_pass m d).
Proof.
  intros Hm s H. unfold try_pass. specialize (Hm s H).
  destruct (m s) as [[a|e] s1]; exact Hm.
Qed.

Create HintDb pres.

#[local] Hint Resolve preserves_ret preserves_raise preserves_lift
  preserves_gets : pres.

(** The readers leave the state as it is. *)
Lemma read_u32_state i s : snd (read_u32 i s) = s.
Proof.
  unfold read_u32. unfold_monad. reflexivity.
Qed.

Lemma read_u16_state i s : snd (read_u16 i s) = s.
Proof.
  unfold read_u16. unfold_monad. reflexivity.
Qed.

Lemma read_f32_state i s : snd (read_f32 i s) = s.
Proof.
  unfold read_f32. unfold_monad. reflexivity.
Qed.

Lemma preserves_of_state {A} P (m : M A) :
  (forall s, snd (m s) = s) -> preserves P m.
Proof. intros Hm s H. rewrite Hm. exact H. Qed.

Lemma preserves_read_u32 P i : preserves P (read_u32 i).
Proof. apply preserves_of_state, read_u32_state. Qed.

Lemma preserves_read_u16 P i : preserves P (read_u16 i).
Proof. apply preserves_of_state, read_u16_state. Qed.

Lemma preserves_read_f32 P i : preserves P (read_f32 i).
Proof. apply preserves_of_state, read_f32_state. Qed.

#[local] Hint Resolve preserves_read_u32 preserves_read_u16
  preserves_read_f32 : pres.

Lemma preserves_read_tlv_header P l : preserves P (read_tlv_header l).
Proof.
  intros s H. unfold read_tlv_header.
  pose proof (read_u32_state (idX l) s) as E1.
  destruct (read_u32 (idX l) s) as [[t|e] s1]; cbn [snd] in *; subst s1.
  - pose proof (read_u32_state (idX l + 4) s) as E2.
    destruct (read_u32 (idX l + 4) s) as [[n|e] s2]; cbn [snd] in *; subst s2;
      exact H.
  - exact H.
Qed.

Lemma preserves_read_points P n : forall i, preserves P (read_points n i).
Proof.
  induction n as [|n IH]; intros i; cbn [read_points].
  - auto with pres.
  - repeat (apply preserves_bind; [auto with pres | intros ?]).
    auto with pres.
Qed.

Lemma preserves_read_floats P n : forall i, preserves P (read_floats n i).
Proof.
  induction n as [|n IH]; intros i; cbn [read_floats].
  - auto with pres.
  - repeat (apply preserves_bind; [auto with pres | intros ?]).
    auto with pres.
Qed.

Lemma preserves_read_targets P n : forall i, preserves P (read_targets n i).
Proof.
  induction n as [|n IH]; intros i; cbn [read_targets].
  - auto with pres.
  - repeat (apply preserves_bind;
            [auto using preserves_read_floats with pres | intros ?]).
    auto with pres.
Qed.

Lemma preserves_check_size P n : preserves P (check_size n).
Proof. unfold check_size. destruct (n <? 0); auto with pres. Qed.

#[local] Hint Resolve preserves_read_tlv_header preserves_read_points
  preserves_read_floats preserves_read_targets preserves_check_size : pres.

(** ** The counters never decrease *)

Lemma counters_le_refl s : counters_le s s.
Proof. unfold counters_le. lia. Qed.

Lemma counters_le_trans s1 s2 s3 :
  counters_le s1 s2 -> counters_le s2 s3 -> counters_le s1 s3.
Proof. unfold counters_le. lia. Qed.

Lemma track_counters s0 frameNumber ts :
  preserves (counters_le s0) (track frameNumber ts).
Proof.
  induction ts as [|[id x] rest IH]; cbn [track].
  - auto with pres.
  - destruct (in_band x); [|exact IH].
    apply preserves_gets_bind. intros s H.
    destruct (temp s !! id) as [h|]; [|exact H].
    unfold bind at 1. unfold modify at 1.
    assert (H1 : counters_le s0 (set_temp (<[id:=h ++ [x]]> (temp s)) s))
      by exact H.
    revert H1. generalize (set_temp (<[id:=h ++ [x]]> (temp s)) s). intros s1 H1.
    destruct (frameNumber mod 20 =? 0); [|apply IH, H1].
    destruct (zero_crossing_site (h ++ [x])) as [|k ?]; [apply IH, H1|].
    destruct (nth_error (h ++ [x]) (Z.to_nat k)) as [v|]; [|exact H1].
    destruct (is_neg v); unfold_monad;
      unfold counters_le in *; cbn; lia.
Qed.

Ltac pres_step :=
  match goal with
  | |- preserves _ (bind _ _) => apply preserves_bind; [|intros ?]
  | |- preserves _ (modify _) => apply preserves_modify
  | |- preserves _ (if ?c then _ else _) => destruct c
  | |- preserves _ (match ?x with _ => _ end) => destruct x
  | |- preserves _ _ => solve [auto with pres]
  end.

Section Counters.

Variable strict_shapes : bool.
Variable s0 : State.

Lemma counters_set_byteBuffer b s :
  counters_le s0 s -> counters_le s0 (set_byteBuffer b s).
Proof. exact (fun H => H). Qed.

Lemma counters_set_byteBufferLength n s :
  counters_le s0 s -> counters_le s0 (set_byteBufferLength n s).
Proof. exact (fun H => H). Qed.

Lemma append_counters c : preserves (counters_le s0) (append c).
Proof.
  unfold append. repeat pres_step;
    auto using counters_set_byteBuffer, counters_set_byteBufferLength.
Qed.

Lemma shift_out_counters k : preserves (counters_le s0) (shift_out k).
Proof.
  unfold shift_out. repeat pres_step;
    auto using counters_set_byteBuffer, counters_set_byteBufferLength.
Qed.

Lemma clamp_length_counters : preserves (counters_le s0) clamp_length.
Proof.
  unfold clamp_length. repeat pres_step;
    auto using counters_set_byteBufferLength.
Qed.

Lemma sync_counters : preserves (counters_le s0) (sync strict_shapes).
Proof.
  unfold sync. repeat pres_step;
    auto using shift_out_counters, clamp_length_counters.
Qed.

Lemma tlv_step_counters frameNumber l : preserves (counters_le s0) (tlv_step frameNumber l).
Proof.
  unfold tlv_step. repeat pres_step. apply track_counters.
Qed.

Lemma tlv_loop_counters n frameNumber :
  forall l, preserves (counters_le s0) (tlv_loop n frameNumber l).
Proof.
  induction n as [|n IH]; intros l; cbn [tlv_loop].
  - auto with pres.
  - apply preserves_bind; [apply tlv_step_counters | intros l'; apply IH].
Qed.

Lemma decode_counters : preserves (counters_le s0) decode.
Proof.
  unfold decode, read_header. repeat pres_step;
    auto using tlv_loop_counters, shift_out_counters, clamp_length_counters.
Qed.

Lemma process_frame_counters c : preserves (counters_le s0) (process_frame strict_shapes c).
Proof.
  unfold process_frame. repeat pres_step;
    auto using append_counters, sync_counters, decode_counters.
Qed.

End Counters.

Lemma run_counters strict_shapes chunks :
  forall s, counters_le s (run strict_shapes chunks s).
Proof.
  induction chunks as [|c cs IH]; intros s; cbn [run].
  - apply counters_le_refl.
  - eapply counters_le_trans; [|apply IH].
    apply process_frame_counters, counters_le_refl.
Qed.

(** C9. Whatever bytes a call of [process_frame] receives and however it
    ends (a result or an exception), each of the two occupancy counters is
    afterwards at least what it was before; hence the same holds from the
    start to the end of every sequence of calls. *)
Theorem counters_never_decrease (strict_shapes : bool)
    (chunks : list (list byte)) (s : State) :
  (forall c,
      count_entered s <= count_entered (snd (process_frame strict_shapes c s)) /\
      count_exit s <= count_exit (snd (process_frame strict_shapes c s))) /\
  count_entered s <= count_entered (run strict_shapes chunks s) /\
  count_exit s <= count_exit (run strict_shapes chunks s).
Proof.
  split.
  - intros c. apply (process_frame_counters strict_shapes s c s).
    apply counters_le_refl.
  - apply (run_counters strict_shapes chunks s).
Qed.

(** ** The buffer: append, shift, and the zero tail *)

Lemma length_zeros n : length (zeros n) = n.
Proof. apply repeat_length. Qed.

Lemma skipn_zeros n m : skipn n (zeros m) = zeros (m - n).
Proof.
  revert m. induction n as [|n IH]; intros m.
  - rewrite Nat.sub_0_r. reflexivity.
  - destruct m as [|m]; [reflexivity|]. cbn [zeros repeat skipn]. apply IH.
Qed.

Lemma skipn_app_exact {A} (a b : list A) n :
  length a = n -> skipn n (a ++ b) = b.
Proof. intros <-. apply drop_app_length. Qed.

Lemma firstn_app_exact {A} (a b : list A) n :
  length a = n -> firstn n (a ++ b) = a.
Proof. intros <-. apply take_app_length. Qed.

Lemma buffer_inv_nth s :
  buffer_inv s ->
  forall i, byteBufferLength s <= Z.of_nat i -> nth i (byteBuffer s) x00 = x00.
Proof.
  intros (Hlen & Hn & Htail) i Hi.
  replace i with (Z.to_nat (byteBufferLength s)
                  + (i - Z.to_nat (byteBufferLength s)))%nat by lia.
  rewrite <- nth_skipn, Htail. apply nth_repeat.
Qed.

Lemma append_accept chunk s :
  len (byteBuffer s) = maxBufferSize -> 0 <= byteBufferLength s ->
  byteBufferLength s + len chunk < maxBufferSize ->
  append chunk s
  = (Ok tt,
     mkState (firstn (Z.to_nat (byteBufferLength s)) (byteBuffer s) ++ chunk
              ++ skipn (Z.to_nat (byteBufferLength s + len chunk)) (byteBuffer s))
       (byteBufferLength s + len chunk) (count_entered s) (count_exit s) (temp s)).
Proof.
  intros Hlen H0 Hroom. unfold append. unfold_monad.
  destruct (Z.ltb_spec (byteBufferLength s + len chunk) maxBufferSize); [|lia].
  rewrite slice_all.
  pose proof (len_nonneg chunk).
  rewrite assign_slice_in by lia.
  reflexivity.
Qed.

Lemma append_reject chunk s :
  maxBufferSize <= byteBufferLength s + len chunk -> append chunk s = (Ok tt, s).
Proof.
  intros Hfull. unfold append. unfold_monad.
  destruct (Z.ltb_spec (byteBufferLength s + len chunk) maxBufferSize); [lia|].
  reflexivity.
Qed.

Lemma append_inv chunk s : buffer_inv s -> buffer_inv (snd (append chunk s)).
Proof.
  intros Hinv. pose proof Hinv as (Hlen & Hn & Htail).
  destruct (Z.lt_ge_cases (byteBufferLength s + len chunk) maxBufferSize) as [Hr|Hr].
  - rewrite append_accept by lia. cbn [snd].
    pose proof (len_nonneg chunk) as Hc.
    assert (Hl : length (firstn (Z.to_nat (byteBufferLength s)) (byteBuffer s) ++ chunk)
                 = Z.to_nat (byteBufferLength s + len chunk)).
    { rewrite length_app, length_firstn. unfold len in *. lia. }
    unfold buffer_inv. cbn [byteBuffer byteBufferLength].
    split; [|split; [lia|]].
    + unfold len in *. rewrite !length_app, length_firstn, length_skipn. lia.
    + rewrite app_assoc, (skipn_app_exact _ _ _ Hl).
      replace (Z.to_nat (byteBufferLength s + len chunk))
        with (Z.to_nat (byteBufferLength s) + Z.to_nat (len chunk))%nat by lia.
      rewrite Nat.add_comm, <- skipn_skipn, Htail, skipn_zeros.
      f_equal. lia.
  - rewrite append_reject by lia. exact Hinv.
Qed.

Lemma shift_out_ok k s :
  buffer_inv s -> 0 <= k <= byteBufferLength s ->
  shift_out k s
  = (Ok tt,
     mkState (slice (byteBuffer s) k (byteBufferLength s)
              ++ zeros (Z.to_nat (maxBufferSize - (byteBufferLength s - k))))
       (byteBufferLength s - k) (count_entered s) (count_exit s) (temp s)).
Proof.
  intros (Hlen & Hn & Htail) Hk. unfold shift_out. unfold_monad.
  set (n := byteBufferLength s) in *. set (buf := byteBuffer s) in *.
  assert (Hs : length (slice buf k n) = Z.to_nat (n - k))
    by (apply length_slice_in; lia).
  rewrite assign_slice_in by (unfold len in *; lia).
  change (Z.to_nat 0) with 0%nat. rewrite firstn_O.
  cbn [byteBuffer byteBufferLength set_byteBuffer app].
  set (buf1 := slice buf k n ++ skipn (Z.to_nat (n - k)) buf).
  assert (Hlen1 : len buf1 = maxBufferSize).
  { unfold buf1, len in *. rewrite length_app, length_skipn. lia. }
  rewrite length_slice_in by lia.
  rewrite assign_slice_in by (unfold len in *; rewrite ?length_zeros; lia).
  cbn [byteBuffer byteBufferLength set_byteBuffer set_byteBufferLength
       count_entered count_exit temp].
  f_equal. f_equal.
  unfold buf1 at 1. rewrite (firstn_app_exact _ _ _ Hs).
  rewrite skipn_all2 by (unfold len; lia).
  rewrite app_nil_r, Hlen1. reflexivity.
Qed.

Lemma shift_out_inv k s :
  buffer_inv s -> 0 <= k <= byteBufferLength s ->
  buffer_inv (snd (shift_out k s)).
Proof.
  intros Hinv Hk. rewrite shift_out_ok by assumption.
  destruct Hinv as (Hlen & Hn & Htail). cbn [snd].
  assert (Hs : length (slice (byteBuffer s) k (byteBufferLength s))
               = Z.to_nat (byteBufferLength s - k))
    by (apply length_slice_in; lia).
  unfold buffer_inv. cbn [byteBuffer byteBufferLength].
  split; [|split; [lia|]].
  - unfold len. rewrite length_app, length_zeros, Hs. lia.
  - apply skipn_app_exact, Hs.
Qed.

Lemma clamp_length_id s : 0 <= byteBufferLength s -> clamp_length s = (Ok tt, s).
Proof.
  intros H. unfold clamp_length. unfold_monad.
  destruct (Z.ltb_spec (byteBufferLength s) 0); [lia|reflexivity].
Qed.

(** ** Reads inside and outside the array *)

Lemma length_slice_nonneg {A} (a : list A) lo hi :
  0 <= lo -> 0 <= hi ->
  length (slice a lo hi) = Z.to_nat (Z.min hi (len a) - Z.min lo (len a)).
Proof.
  intros Hlo Hhi. unfold slice, norm_index.
  destruct (Z.ltb_spec lo 0); [lia|]. destruct (Z.ltb_spec hi 0); [lia|].
  rewrite length_firstn, length_skipn. unfold len. lia.
Qed.

Lemma read_u32_ok i s :
  0 <= i -> i + 4 <= len (byteBuffer s) ->
  read_u32 i s = (Ok (u32_at (byteBuffer s) i), s).
Proof.
  intros H0 H1. unfold read_u32, u32_at, matmul. unfold_monad.
  rewrite length_slice_in by lia.
  replace (Z.to_nat (i + 4 - i)) with 4%nat by lia. reflexivity.
Qed.

Lemma read_u32_past i s :
  0 <= i -> len (byteBuffer s) < i + 4 ->
  read_u32 i s = (Raise ValueError, s).
Proof.
  intros H0 H1. unfold read_u32, matmul. unfold_monad.
  rewrite length_slice_nonneg by lia.
  replace (Nat.eqb _ (length word32)) with false; [reflexivity|].
  symmetry. apply Nat.eqb_neq. cbn [word32 length]. lia.
Qed.

Lemma read_u16_ok i s :
  0 <= i -> i + 2 <= len (byteBuffer s) ->
  read_u16 i s = (Ok (dot (slice (byteBuffer s) i (i + 2)) word16), s).
Proof.
  intros H0 H1. unfold read_u16, matmul. unfold_monad.
  rewrite length_slice_in by lia.
  replace (Z.to_nat (i + 2 - i)) with 2%nat by lia. reflexivity.
Qed.

Lemma read_f32_ok i s :
  0 <= i -> i + 4 <= len (byteBuffer s) ->
  read_f32 i s = (Ok (u32_at (byteBuffer s) i), s).
Proof.
  intros H0 H1. unfold read_f32, u32_at, view_float32. unfold_monad.
  rewrite length_slice_in by lia.
  replace (Z.to_nat (i + 4 - i)) with 4%nat by lia. reflexivity.
Qed.

Lemma byte_val_nonneg b : 0 <= byte_val b.
Proof. unfold byte_val. lia. Qed.

Lemma dot_nonneg v w : Forall (fun c => 0 <= c) w -> 0 <= dot v w.
Proof.
  revert w. induction v as [|b v IH]; intros [|c w] Hw; cbn [dot]; try lia.
  inversion Hw; subst. specialize (IH w ltac:(assumption)).
  pose proof (byte_val_nonneg b). nia.
Qed.

Lemma u32_at_nonneg buf i : 0 <= u32_at buf i.
Proof.
  unfold u32_at. apply dot_nonneg. unfold word32.
  repeat constructor; lia.
Qed.

Lemma read_header_ok s :
  len (byteBuffer s) = maxBufferSize ->
  read_header s
  = (Ok (u32_at (byteBuffer s) 20, u32_at (byteBuffer s) 24,
         dot (slice (byteBuffer s) 48 50) word16, 52), s).
Proof.
  intros Hlen. unfold read_header.
  assert (Hc : maxBufferSize = 32768) by reflexivity.
  unfold bind.
  repeat (rewrite read_u32_ok by lia).
  rewrite (read_u16_ok 48), (read_u16_ok 50) by lia.
  reflexivity.
Qed.

(** ** The search for the magic word *)

Lemma list_eqb_eq u v : list_eqb u v = true -> u = v.
Proof.
  revert v. induction u as [|x u IH]; intros [|y v] H; cbn [list_eqb] in H;
    try discriminate; [reflexivity|].
  apply andb_true_iff in H as [Hx Hu].
  apply byte_dec_bl in Hx. subst. f_equal. apply IH, Hu.
Qed.

Lemma list_eqb_refl u : list_eqb u u = true.
Proof.
  induction u as [|x u IH]; [reflexivity|]. cbn [list_eqb].
  rewrite (byte_dec_lb (eq_refl x)), IH. reflexivity.
Qed.

Lemma where_eq_from_bounds a b : forall i loc,
  In loc (where_eq_from i a b) -> i <= loc < i + len a.
Proof.
  induction a as [|x a IH]; intros i loc H; cbn [where_eq_from] in H.
  - destruct H.
  - assert (Hl : len (x :: a) = 1 + len a) by (unfold len; cbn [length]; lia).
    destruct (Byte.eqb x b).
    + destruct H as [<-|H]; [pose proof (len_nonneg a); lia|].
      apply IH in H. lia.
    + apply IH in H. lia.
Qed.

Lemma all_eq_true strict_shapes check :
  all_eq strict_shapes check magicWord = Ok true -> check = magicWord.
Proof.
  unfold all_eq. intros H.
  destruct (Nat.eqb (length check) (length magicWord)).
  - apply list_eqb_eq. congruence.
  - destruct (Nat.eqb (length check) 1).
    + exfalso. injection H as H. cbn [forallb magicWord] in H.
      apply andb_true_iff in H as [H1 H].
      apply andb_true_iff in H as [H2 _].
      apply byte_dec_bl in H1, H2. congruence.
    + destruct strict_shapes; discriminate.
Qed.

Lemma confirm_starts_In strict_shapes buf : forall locs starts loc,
  confirm_starts strict_shapes buf locs = Ok starts -> In loc starts ->
  In loc locs /\ slice buf loc (loc + 8) = magicWord.
Proof.
  induction locs as [|l locs IH]; intros starts loc H Hin;
    cbn [confirm_starts] in H.
  - injection H as <-. destruct Hin.
  - destruct (all_eq strict_shapes (slice buf l (l + 8)) magicWord) as [b|e] eqn:Hb;
      [|discriminate].
    destruct (confirm_starts strict_shapes buf locs) as [r|e]; [|discriminate].
    injection H as <-.
    destruct b.
    + destruct Hin as [<-|Hin].
      * split; [left; reflexivity | eapply all_eq_true, Hb].
      * destruct (IH r loc eq_refl Hin). split; [right|]; assumption.
    + destruct (IH r loc eq_refl Hin). split; [right|]; assumption.
Qed.

(** A magic word found at [loc] lies below the logical length: its last
    byte is not zero. *)
Lemma magic_inside s loc :
  buffer_inv s -> 0 <= loc ->
  slice (byteBuffer s) loc (loc + 8) = magicWord ->
  loc + 8 <= byteBufferLength s.
Proof.
  intros Hinv Hloc Hm. pose proof Hinv as (Hlen & Hn & _).
  assert (Hl : length (slice (byteBuffer s) loc (loc + 8)) = 8%nat)
    by (rewrite Hm; reflexivity).
  rewrite length_slice_nonneg in Hl by lia.
  assert (Hin : loc + 8 <= len (byteBuffer s)) by lia.
  rewrite slice_in in Hm by lia.
  replace (Z.to_nat (loc + 8 - loc)) with 8%nat in Hm by lia.
  assert (H7 : nth (Z.to_nat loc + 7) (byteBuffer s) x00 = x07).
  { rewrite <- nth_skipn.
    change x07 with (nth 7 magicWord x00). rewrite <- Hm.
    rewrite nth_firstn. reflexivity. }
  destruct (Z.lt_ge_cases (loc + 7) (byteBufferLength s)) as [?|Hge]; [lia|].
  rewrite (buffer_inv_nth s Hinv) in H7 by lia. discriminate.
Qed.

Lemma starts_inside strict_shapes s starts loc :
  buffer_inv s ->
  confirm_starts strict_shapes (byteBuffer s)
    (where_eq (byteBuffer s) (hd x00 magicWord)) = Ok starts ->
  In loc starts ->
  0 <= loc /\ loc + 8 <= byteBufferLength s.
Proof.
  intros Hinv Hc Hin.
  destruct (confirm_starts_In _ _ _ _ _ Hc Hin) as [Hloc Hm].
  apply where_eq_from_bounds in Hloc.
  split; [lia|]. apply magic_inside; [assumption | lia | assumption].
Qed.

(** ** The invariant through a call *)

Lemma readyForDecode_true n total :
  readyForDecode n total = true <-> total <= n /\ n <> 0.
Proof.
  unfold readyForDecode. rewrite andb_true_iff, negb_true_iff.
  rewrite Z.leb_le, Z.eqb_neq. reflexivity.
Qed.

Lemma after_sync_inv s starts :
  buffer_inv s ->
  (forall loc, In loc starts -> 0 <= loc /\ loc + 8 <= byteBufferLength s) ->
  buffer_inv (after_sync s starts).
Proof.
  intros Hinv Hst. destruct starts as [|s0 rest]; cbn [after_sync]; [assumption|].
  destruct ((0 <? s0) && (s0 <? byteBufferLength s)) eqn:Hc; [|assumption].
  apply andb_true_iff in Hc as [H1 H2].
  apply Z.ltb_lt in H1, H2.
  pose proof (shift_out_inv s0 s Hinv ltac:(lia)) as H.
  rewrite shift_out_ok in H by (assumption || lia). exact H.
Qed.

Lemma sync_ok strict_shapes s starts :
  buffer_inv s ->
  confirm_starts strict_shapes (byteBuffer s)
    (where_eq (byteBuffer s) (hd x00 magicWord)) = Ok starts ->
  sync strict_shapes s
  = (Ok ((16 <? byteBufferLength s)
         && match starts with
            | [] => false
            | _ :: _ =>
                let s' := after_sync s starts in
                readyForDecode (byteBufferLength s') (u32_at (byteBuffer s') 20)
            end),
     if 16 <? byteBufferLength s then after_sync s starts else s).
Proof.
  intros Hinv Hc. unfold sync. unfold_monad.
  destruct (16 <? byteBufferLength s) eqn:H16; [|reflexivity].
  rewrite Hc. cbn [andb].
  destruct starts as [|s0 rest]; [reflexivity|].
  assert (Hinv' : buffer_inv (after_sync s (s0 :: rest))).
  { apply after_sync_inv; [assumption|].
    intros loc Hin. eapply starts_inside; eassumption. }
  cbn [after_sync] in *.
  destruct ((0 <? s0) && (s0 <? byteBufferLength s)) eqn:Hcond.
  - apply andb_true_iff in Hcond as [H1 H2].
    apply Z.ltb_lt in H1, H2.
    rewrite shift_out_ok by (assumption || lia).
    destruct Hinv' as (Hlen' & Hn' & _).
    rewrite clamp_length_id by (cbn [byteBufferLength] in *; lia).
    rewrite read_u32_ok by (rewrite ?Hlen'; unfold maxBufferSize; cbn; lia).
    reflexivity.
  - destruct Hinv as (Hlen' & Hn' & _).
    rewrite clamp_length_id by lia.
    rewrite read_u32_ok by (rewrite ?Hlen'; unfold maxBufferSize; cbn; lia).
    reflexivity.
Qed.

Lemma sync_raise strict_shapes s e :
  confirm_starts strict_shapes (byteBuffer s)
    (where_eq (byteBuffer s) (hd x00 magicWord)) = Raise e ->
  sync strict_shapes s
  = if 16 <? byteBufferLength s then (Raise e, s) else (Ok false, s).
Proof.
  intros Hc. unfold sync. unfold_monad.
  destruct (16 <? byteBufferLength s); [|reflexivity].
  rewrite Hc. reflexivity.
Qed.

Lemma sync_inv strict_shapes s :
  buffer_inv s ->
  buffer_inv (snd (sync strict_shapes s)) /\
  (fst (sync strict_shapes s) = Ok true ->
   let s' := snd (sync strict_shapes s) in
   u32_at (byteBuffer s') 20 <= byteBufferLength s').
Proof.
  intros Hinv.
  destruct (confirm_starts strict_shapes (byteBuffer s)
              (where_eq (byteBuffer s) (hd x00 magicWord))) as [starts|e] eqn:Hc.
  - rewrite (sync_ok _ _ _ Hinv Hc). cbn [fst snd].
    assert (Hinv' : buffer_inv (after_sync s starts)).
    { apply after_sync_inv; [assumption|].
      intros loc Hin. eapply starts_inside; eassumption. }
    destruct (16 <? byteBufferLength s); cbn [andb].
    + split; [assumption|]. destruct starts as [|s0 rest]; [discriminate|].
      intros H. injection H as H. apply readyForDecode_true in H. apply H.
    + split; [assumption | discriminate].
  - rewrite (sync_raise _ _ _ Hc).
    destruct (16 <? byteBufferLength s); cbn [fst snd];
      (split; [assumption | discriminate]).
Qed.

(** The loop over the records touches neither the buffer nor its length. *)
Section Frame.

Variable P : State -> Prop.
Hypothesis P_temp : forall t s, P s -> P (set_temp t s).
Hypothesis P_entered : forall n s, P s -> P (set_count_entered n s).
Hypothesis P_exit : forall n s, P s -> P (set_count_exit n s).

Lemma track_frame frameNumber ts : preserves P (track frameNumber ts).
Proof.
  induction ts as [|[id x] rest IH]; cbn [track].
  - auto with pres.
  - repeat pres_step; auto.
Qed.

Lemma tlv_step_frame frameNumber l : preserves P (tlv_step frameNumber l).
Proof.
  unfold tlv_step. repeat pres_step. apply track_frame.
Qed.

Lemma tlv_loop_frame n frameNumber :
  forall l, preserves P (tlv_loop n frameNumber l).
Proof.
  induction n as [|n IH]; intros l; cbn [tlv_loop].
  - auto with pres.
  - apply preserves_bind; [apply tlv_step_frame | intros l'; apply IH].
Qed.

End Frame.

Lemma tlv_loop_buffer n frameNumber l s :
  let s' := snd (tlv_loop n frameNumber l s) in
  byteBuffer s' = byteBuffer s /\ byteBufferLength s' = byteBufferLength s.
Proof.
  apply (tlv_loop_frame
           (fun s' => byteBuffer s' = byteBuffer s /\
                      byteBufferLength s' = byteBufferLength s));
    auto.
Qed.

Lemma buffer_inv_ext s s' :
  byteBuffer s' = byteBuffer s -> byteBufferLength s' = byteBufferLength s ->
  buffer_inv s -> buffer_inv s'.
Proof. unfold buffer_inv. intros -> ->. exact (fun H => H). Qed.

Lemma decode_inv s :
  buffer_inv s -> u32_at (byteBuffer s) 20 <= byteBufferLength s ->
  buffer_inv (snd (decode s)).
Proof.
  intros Hinv Htot. pose proof Hinv as (Hlen & Hn & _).
  unfold decode. unfold bind at 1. rewrite read_header_ok by assumption.
  unfold bind at 1.
  pose proof (tlv_loop_buffer
                (Z.to_nat (dot (slice (byteBuffer s) 48 50) word16))
                (u32_at (byteBuffer s) 24)
                (mkLocals 52 0 false false None None None) s) as [Hb Hl].
  cbv zeta in Hb, Hl.
  destruct (tlv_loop _ _ _ s) as [[l|e] s1]; cbn [snd] in *.
  - assert (Hinv1 : buffer_inv s1) by (eapply buffer_inv_ext; eassumption).
    unfold_monad.
    destruct (0 <? idX l).
    + pose proof (u32_at_nonneg (byteBuffer s) 20).
      pose proof (shift_out_inv (u32_at (byteBuffer s) 20) s1 Hinv1
                    ltac:(rewrite Hl; lia)) as Hinv2.
      rewrite shift_out_ok in * by (assumption || rewrite Hl; lia).
      cbn [snd] in Hinv2.
      rewrite clamp_length_id by (cbn [byteBufferLength]; lia).
      exact Hinv2.
    + exact Hinv1.
  - eapply buffer_inv_ext; eassumption.
Qed.

Lemma process_frame_inv strict_shapes chunk s :
  buffer_inv s -> buffer_inv (snd (process_frame strict_shapes chunk s)).
Proof.
  intros Hinv. unfold process_frame. unfold bind.
  pose proof (append_inv chunk s Hinv) as H1.
  destruct (append chunk s) as [[[]|e] s1]; cbn [snd] in H1; [|assumption].
  destruct (sync_inv strict_shapes s1 H1) as [H2 H3].
  destruct (sync strict_shapes s1) as [[b|e] s2]; cbn [fst snd] in *;
    [|assumption].
  destruct b; [|assumption].
  apply decode_inv; [assumption | apply H3; reflexivity].
Qed.

Lemma buffer_inv_init : buffer_inv init.
Proof.
  unfold buffer_inv, init. cbn [byteBuffer byteBufferLength].
  split; [|split].
  - unfold len. rewrite length_zeros, Z2Nat.id by lia. reflexivity.
  - unfold maxBufferSize. lia.
  - change (Z.to_nat 0) with 0%nat. rewrite skipn_O.
    rewrite Z.sub_0_r. reflexivity.
Qed.

Lemma run_inv strict_shapes chunks :
  forall s, buffer_inv s -> buffer_inv (run strict_shapes chunks s).
Proof.
  induction chunks as [|c cs IH]; intros s H; cbn [run]; [assumption|].
  apply IH, process_frame_inv, H.
Qed.

(** C10. The array of [__init__] is all zero with logical length 0, and from
    every state in which all bytes at or beyond the logical length are zero,
    the append, the shift that discards leading garbage or a decoded frame,
    a whole call of [process_frame] and every sequence of calls lead to such
    a state again.  In such a state every location that the search over the
    whole array confirms as the start of a magic word holds its eight bytes
    below the logical length. *)
Theorem zero_tail_invariant (strict_shapes : bool) (s : State) :
  buffer_inv s ->
  buffer_inv init /\
  (forall i, byteBufferLength s <= Z.of_nat i -> nth i (byteBuffer s) x00 = x00) /\
  (forall chunk, buffer_inv (snd (append chunk s))) /\
  (forall k, 0 <= k <= byteBufferLength s -> buffer_inv (snd (shift_out k s))) /\
  (forall chunk, buffer_inv (snd (process_frame strict_shapes chunk s))) /\
  (forall chunks, buffer_inv (run strict_shapes chunks s)) /\
  (forall starts loc,
      confirm_starts strict_shapes (byteBuffer s)
        (where_eq (byteBuffer s) (hd x00 magicWord)) = Ok starts ->
      In loc starts ->
      0 <= loc /\ loc + 8 <= byteBufferLength s).
Proof.
  intros Hinv.
  split; [apply buffer_inv_init|].
  split; [apply buffer_inv_nth, Hinv|].
  split; [intros chunk; apply append_inv, Hinv|].
  split; [intros k Hk; apply shift_out_inv; assumption|].
  split; [intros chunk; apply process_frame_inv, Hinv|].
  split; [intros chunks; apply run_inv, Hinv|].
  intros starts loc Hc Hin. eapply starts_inside; eassumption.
Qed.

Lemma zero_tail_invariant_witness :
  buffer_inv init /\
  buffer_inv (snd (process_frame false (target_frame 20 3 f_02) init)).
Proof.
  assert (H : buffer_inv init).
  { unfold buffer_inv, init. cbn [byteBuffer byteBufferLength].
    split; [|split].
    - unfold len. rewrite length_zeros, Z2Nat.id by lia. reflexivity.
    - unfold maxBufferSize. lia.
    - change (Z.to_nat 0) with 0%nat. rewrite skipn_O.
      rewrite Z.sub_0_r. reflexivity. }
  split; [exact H|].
  destruct (zero_tail_invariant false init H) as (_ & _ & _ & _ & Hp & _).
  exact (Hp (target_frame 20 3 f_02)).
Defined.

(** ** Appending a chunk *)

(** C6 (as the code has it). A chunk is stored exactly when the logical
    length plus the length of the chunk is strictly below 32768: it then
    lands right behind the buffered bytes and the logical length grows by
    its length.  Otherwise, also when the chunk would fill the array to the
    last byte, the call of [append] leaves the whole state as it was. *)
Theorem append_needs_room (chunk : list byte) (s : State) :
  buffer_inv s ->
  (byteBufferLength s + len chunk < maxBufferSize ->
   append chunk s
   = (Ok tt,
      mkState
        (firstn (Z.to_nat (byteBufferLength s)) (byteBuffer s) ++ chunk
         ++ zeros (Z.to_nat (maxBufferSize - (byteBufferLength s + len chunk))))
        (byteBufferLength s + len chunk)
        (count_entered s) (count_exit s) (temp s))) /\
  (maxBufferSize <= byteBufferLength s + len chunk ->
   append chunk s = (Ok tt, s)).
Proof.
  intros (Hlen & Hn & Htail). split.
  - intros Hroom. rewrite append_accept by lia.
    do 4 f_equal.
    pose proof (len_nonneg chunk).
    replace (Z.to_nat (byteBufferLength s + len chunk))
      with (Z.to_nat (len chunk) + Z.to_nat (byteBufferLength s))%nat by lia.
    rewrite <- skipn_skipn, Htail, skipn_zeros. f_equal. lia.
  - apply append_reject.
Qed.

Lemma append_needs_room_witness :
  buffer_inv init /\
  byteBufferLength (snd (append [x02; x01] init)) = 2.
Proof.
  assert (H : buffer_inv init).
  { unfold buffer_inv, init. cbn [byteBuffer byteBufferLength].
    split; [|split].
    - unfold len. rewrite length_zeros, Z2Nat.id by lia. reflexivity.
    - unfold maxBufferSize. lia.
    - change (Z.to_nat 0) with 0%nat. rewrite skipn_O.
      rewrite Z.sub_0_r. reflexivity. }
  split; [exact H|].
  assert (Hroom : byteBufferLength init + len [x02; x01] < maxBufferSize)
    by (vm_compute; reflexivity).
  rewrite (proj1 (append_needs_room [x02; x01] init H) Hroom).
  reflexivity.
Defined.

(** C6, the claim as stated, fails: a chunk of 32768 bytes offered to the
    empty buffer does not exceed the capacity, and it is dropped. *)
Lemma append_exact_fit_dropped :
  byteBufferLength init + len full_chunk <= 32768 /\
  append full_chunk init = (Ok tt, init).
Proof.
  assert (Hl : len full_chunk = 32768).
  { unfold len, full_chunk. rewrite repeat_length. lia. }
  split.
  - rewrite Hl. cbn [init byteBufferLength]. lia.
  - apply append_reject. rewrite Hl. cbn [init byteBufferLength].
    unfold maxBufferSize. lia.
Qed.

(** ** When a frame is decoded *)

Lemma after_sync_length s starts :
  0 < byteBufferLength s -> 0 < byteBufferLength (after_sync s starts).
Proof.
  intros H. destruct starts as [|s0 rest]; cbn [after_sync]; [assumption|].
  destruct ((0 <? s0) && (s0 <? byteBufferLength s)) eqn:Hc; [|assumption].
  apply andb_true_iff in Hc as [H1 H2]. apply Z.ltb_lt in H1, H2.
  cbn [byteBufferLength]. lia.
Qed.

(** C3 (as the code has it). The test of line 152 holds exactly when the
    buffered length is at least the declared total packet length and the
    buffered length, not the declared length, differs from 0.  A call
    reaches the decoding exactly when more than 16 bytes are buffered, the
    search confirms at least one magic word and, after the bytes before the
    first one are discarded, the buffered length is at least the declared
    total packet length; a declared length of 0 does not keep a frame from
    being decoded. *)
Theorem ready_condition (strict_shapes : bool) (s : State) (starts : list Z) :
  buffer_inv s ->
  confirm_starts strict_shapes (byteBuffer s)
    (where_eq (byteBuffer s) (hd x00 magicWord)) = Ok starts ->
  (forall n total, readyForDecode n total = true <-> total <= n /\ n <> 0) /\
  exists magicOK s',
    sync strict_shapes s = (Ok magicOK, s') /\
    (magicOK = true <->
     16 < byteBufferLength s /\ starts <> [] /\
     u32_at (byteBuffer s') 20 <= byteBufferLength s') /\
    (16 < byteBufferLength s -> starts <> [] ->
     u32_at (byteBuffer s') 20 = 0 -> magicOK = true).
Proof.
  intros Hinv Hc. split; [exact readyForDecode_true|].
  rewrite (sync_ok _ _ _ Hinv Hc).
  eexists _, _. split; [reflexivity|].
  destruct (Z.ltb_spec 16 (byteBufferLength s)) as [H16|H16]; cbn [andb].
  - pose proof (after_sync_length s starts ltac:(lia)) as Hpos.
    destruct starts as [|s0 rest].
    + split; [|intros _ Hne; destruct Hne; reflexivity].
      split; [discriminate | intros (_ & Hne & _); destruct Hne; reflexivity].
    + cbv zeta. rewrite readyForDecode_true. split.
      * split; [intros [Ht _]; repeat split; [assumption|discriminate|assumption]|].
        intros (_ & _ & Ht). split; [assumption | lia].
      * intros _ _ Ht. rewrite Ht. lia.
  - split; [|lia]. split; [discriminate | lia].
Qed.

Lemma ready_condition_witness :
  let s := snd (append (target_frame 20 3 f_02) init) in
  buffer_inv s /\
  exists magicOK s', sync false s = (Ok magicOK, s').
Proof.
  assert (H : buffer_inv init).
  { unfold buffer_inv, init. cbn [byteBuffer byteBufferLength].
    split; [|split].
    - unfold len. rewrite length_zeros, Z2Nat.id by lia. reflexivity.
    - unfold maxBufferSize. lia.
    - change (Z.to_nat 0) with 0%nat. rewrite skipn_O.
      rewrite Z.sub_0_r. reflexivity. }
  apply (append_inv (target_frame 20 3 f_02)) in H.
  cbv zeta. split; [exact H|].
  assert (Hc : confirm_starts false
                 (byteBuffer (snd (append (target_frame 20 3 f_02) init)))
                 (where_eq (byteBuffer (snd (append (target_frame 20 3 f_02) init)))
                    (hd x00 magicWord)) = Ok [0])
    by (vm_compute; reflexivity).
  destruct (ready_condition false _ [0] H Hc) as (_ & b & s' & Hs & _).
  exists b, s'. exact Hs.
Defined.

(** C3, the claim as stated, fails: with the 52 bytes of a header that
    declares a total packet length of 0 in the buffer, the frame is taken as
    ready. *)
Lemma zero_length_frame_ready :
  byteBufferLength (snd (append zero_length_frame init)) = 52 /\
  u32_at (byteBuffer (snd (append zero_length_frame init))) 20 = 0 /\
  fst (sync false (snd (append zero_length_frame init))) = Ok true /\
  fst (sync true (snd (append zero_length_frame init))) = Ok true.
Proof. vm_compute. repeat split; reflexivity. Qed.

(** ** The sub-header of a record *)

Lemma read_tlv_header_in l s :
  len (byteBuffer s) = maxBufferSize -> 0 <= idX l ->
  idX l + 8 <= maxBufferSize ->
  read_tlv_header l s
  = (Ok (u32_at (byteBuffer s) (idX l), u32_at (byteBuffer s) (idX l + 4),
         idX l + 8), s).
Proof.
  intros Hlen H0 H8. unfold read_tlv_header.
  rewrite !read_u32_ok by lia. reflexivity.
Qed.

Lemma read_tlv_header_half l s :
  len (byteBuffer s) = maxBufferSize -> 0 <= idX l ->
  idX l + 4 <= maxBufferSize < idX l + 8 ->
  read_tlv_header l s
  = (Ok (u32_at (byteBuffer s) (idX l), tlv_length l, idX l + 4), s).
Proof.
  intros Hlen H0 H8. unfold read_tlv_header.
  rewrite read_u32_ok by lia. rewrite read_u32_past by lia. reflexivity.
Qed.

Lemma read_tlv_header_past l s :
  len (byteBuffer s) = maxBufferSize -> 0 <= idX l ->
  maxBufferSize < idX l + 4 ->
  read_tlv_header l s = (Ok (0, tlv_length l, idX l), s).
Proof.
  intros Hlen H0 H8. unfold read_tlv_header.
  rewrite read_u32_past by lia. reflexivity.
Qed.

Lemma firstn_zeros n m : (n <= m)%nat -> firstn n (zeros m) = zeros n.
Proof.
  revert m. induction n as [|n IH]; intros m H; [reflexivity|].
  destruct m as [|m]; [lia|]. cbn [zeros repeat firstn]. f_equal.
  apply IH. lia.
Qed.

(** Beyond the logical length a read finds the zero fill. *)
Lemma u32_at_tail s i :
  buffer_inv s -> byteBufferLength s <= i -> i + 4 <= maxBufferSize ->
  u32_at (byteBuffer s) i = 0.
Proof.
  intros (Hlen & Hn & Htail) Hi H4. unfold u32_at.
  rewrite slice_in by lia.
  replace (Z.to_nat i)
    with (Z.to_nat (i - byteBufferLength s) + Z.to_nat (byteBufferLength s))%nat
    by lia.
  rewrite <- skipn_skipn, Htail, skipn_zeros, firstn_zeros by lia.
  replace (Z.to_nat (i + 4 - i)) with 4%nat by lia. reflexivity.
Qed.

(** A record of a type that is none of 6, 7, 8: the read position stays
    right behind the sub-header. *)
Lemma tlv_step_other frameNumber l s tlv_type tlv_len i :
  read_tlv_header l s = (Ok (tlv_type, tlv_len, i), s) ->
  tlv_type <> 6 -> tlv_type <> 7 -> tlv_type <> 8 ->
  tlv_step frameNumber l s
  = (Ok (mkLocals i tlv_len (dataOK l) (targetDetected l) (out l)
           (targetObj l) (pointObj l)), s).
Proof.
  intros Hh H6 H7 H8. unfold tlv_step. unfold bind at 1. rewrite Hh.
  unfold MMWDEMO_UART_MSG_POINT_CLOUD_2D, MMWDEMO_UART_MSG_TARGET_LIST_2D,
    MMWDEMO_UART_MSG_TARGET_INDEX_2D.
  destruct (Z.eqb_spec tlv_type 6); [contradiction|].
  destruct (Z.eqb_spec tlv_type 7); [contradiction|].
  destruct (Z.eqb_spec tlv_type 8); [contradiction|].
  reflexivity.
Qed.

(** C2 (as the code has it). The read of a sub-header never ends the
    decoding of a frame and never looks at the logical length.  With eight
    bytes of the array at the read position the type and the length are what
    the array holds there, and they are both 0, read from the zero fill,
    when the buffered bytes ended at or before the read position; the
    iteration then goes on behind the sub-header.  With four to seven bytes
    of the array left the type is read and the length keeps the value of the
    iteration before; with fewer the type is 0 and the read position stays.
    In each case the read answers normally. *)
Theorem tlv_header_never_truncated (frameNumber : Z) (l : Locals) (s : State) :
  buffer_inv s -> 0 <= idX l ->
  (idX l + 8 <= maxBufferSize ->
   read_tlv_header l s
   = (Ok (u32_at (byteBuffer s) (idX l), u32_at (byteBuffer s) (idX l + 4),
          idX l + 8), s)) /\
  (idX l + 8 <= maxBufferSize -> byteBufferLength s <= idX l ->
   read_tlv_header l s = (Ok (0, 0, idX l + 8), s) /\
   tlv_step frameNumber l s
   = (Ok (mkLocals (idX l + 8) 0 (dataOK l) (targetDetected l) (out l)
            (targetObj l) (pointObj l)), s)) /\
  (idX l + 4 <= maxBufferSize < idX l + 8 ->
   read_tlv_header l s
   = (Ok (u32_at (byteBuffer s) (idX l), tlv_length l, idX l + 4), s)) /\
  (maxBufferSize < idX l + 4 ->
   read_tlv_header l s = (Ok (0, tlv_length l, idX l), s)).
Proof.
  intros Hinv H0. pose proof Hinv as (Hlen & Hn & _).
  split; [intros; apply read_tlv_header_in; assumption|].
  split; [|split; intros;
             [apply read_tlv_header_half | apply read_tlv_header_past];
             assumption].
  intros H8 Hend.
  assert (Hh : read_tlv_header l s = (Ok (0, 0, idX l + 8), s)).
  { rewrite read_tlv_header_in by assumption.
    rewrite !(u32_at_tail s) by (assumption || lia). reflexivity. }
  split; [exact Hh|].
  apply tlv_step_other with (tlv_type := 0); [exact Hh | lia..].
Qed.

Lemma tlv_header_never_truncated_witness :
  buffer_inv init /\
  read_tlv_header (mkLocals 52 0 false false None None None) init
  = (Ok (0, 0, 60), init).
Proof.
  assert (H : buffer_inv init).
  { unfold buffer_inv, init. cbn [byteBuffer byteBufferLength].
    split; [|split].
    - unfold len. rewrite length_zeros, Z2Nat.id by lia. reflexivity.
    - unfold maxBufferSize. lia.
    - change (Z.to_nat 0) with 0%nat. rewrite skipn_O.
      rewrite Z.sub_0_r. reflexivity. }
  split; [exact H|].
  assert (H0 : 0 <= idX (mkLocals 52 0 false false None None None))
    by (cbn [idX]; lia).
  destruct (tlv_header_never_truncated 0 _ init H H0) as (_ & Hz & _).
  apply Hz.
  - cbn [idX]. unfold maxBufferSize. lia.
  - cbn [idX init byteBufferLength]. lia.
Defined.

(** C2, the claim as stated, fails: a frame of two records is buffered up to
    six bytes behind its header, so that fewer than eight bytes remain where
    the first sub-header is read.  The decoding is not abandoned: the two
    missing bytes of the length are taken from the zero fill, the record is
    decoded as a point cloud without points, the second record is read from
    the zero fill as well, and the frame is consumed. *)
Lemma truncated_header_decoded :
  len truncated_frame - 52 < 8 /\
  match process_frame false truncated_frame init with
  | (Ok r, s') =>
      r_dataOK r = true /\
      r_pointObj r = Some (mkPointObj 0 [] [] [] []) /\
      byteBufferLength s' = 0
  | (Raise _, _) => False
  end /\
  match process_frame true truncated_frame init with
  | (Ok r, s') =>
      r_dataOK r = true /\
      r_pointObj r = Some (mkPointObj 0 [] [] [] []) /\
      byteBufferLength s' = 0
  | (Raise _, _) => False
  end.
Proof. vm_compute. repeat split; reflexivity. Qed.

(** ** Records of an unknown type *)

(** C1. The frame [unknown_tlv_frame] holds a record of the unknown type 9
    with declared length 12 and, behind its four bytes of payload, a point
    cloud with one point.  The iteration on the unknown record leaves the
    read position at 60, right behind the sub-header, and not at 64: the
    next sub-header is read from the payload, and the point cloud is never
    decoded.  The same frame without the four bytes of payload is decoded
    with its point. *)
Theorem unknown_record_desynchronizes :
  match tlv_step 1 (mkLocals 52 0 false false None None None)
          (snd (append unknown_tlv_frame init)) with
  | (Ok l, _) => idX l = 60 /\ tlv_length l = 12
  | (Raise _, _) => False
  end /\
  match process_frame false unknown_tlv_frame init with
  | (Ok r, s') => r_dataOK r = false /\ r_pointObj r = None
  | (Raise _, _) => False
  end /\
  match process_frame false known_tlv_frame init with
  | (Ok r, s') =>
      r_dataOK r = true /\
      r_pointObj r = Some (mkPointObj 1 [f_1] [0] [0] [f_25])
  | (Raise _, _) => False
  end.
Proof. vm_compute. repeat split; reflexivity. Qed.

(** ** The read position behind a record *)

Lemma read_points_ok n : forall i s,
  0 <= i -> i + 16 * Z.of_nat n <= len (byteBuffer s) ->
  exists pts,
    read_points n i s = (Ok (pts, i + 16 * Z.of_nat n), s) /\ length pts = n.
Proof.
  induction n as [|n IH]; intros i s H0 H1; cbn [read_points].
  - exists []. unfold ret. split; [|reflexivity].
    do 3 f_equal. lia.
  - unfold bind.
    rewrite (read_f32_ok i), (read_f32_ok (i + 4)), (read_f32_ok (i + 8)),
      (read_f32_ok (i + 12)) by lia.
    destruct (IH (i + 16) s ltac:(lia) ltac:(lia)) as (pts & Hp & Hl).
    rewrite Hp. eexists. unfold ret. cbn [fst snd]. split.
    + do 3 f_equal. lia.
    + cbn [length]. rewrite Hl. reflexivity.
Qed.

Lemma read_floats_ok n : forall i s,
  0 <= i -> i + 4 * Z.of_nat n <= len (byteBuffer s) ->
  exists xs, read_floats n i s = (Ok xs, s).
Proof.
  induction n as [|n IH]; intros i s H0 H1; cbn [read_floats].
  - exists []. reflexivity.
  - unfold bind. rewrite (read_f32_ok i) by lia.
    destruct (IH (i + 4) s ltac:(lia) ltac:(lia)) as (xs & Hx).
    rewrite Hx. eexists. reflexivity.
Qed.

Lemma read_targets_ok n : forall i s,
  0 <= i -> i + 68 * Z.of_nat n <= len (byteBuffer s) ->
  exists tgs,
    read_targets n i s = (Ok (tgs, i + 68 * Z.of_nat n), s) /\ length tgs = n.
Proof.
  induction n as [|n IH]; intros i s H0 H1; cbn [read_targets].
  - exists []. unfold ret. split; [|reflexivity].
    do 3 f_equal. lia.
  - unfold bind.
    rewrite (read_u32_ok i) by lia.
    rewrite (read_f32_ok (i + 4)), (read_f32_ok (i + 8)),
      (read_f32_ok (i + 12)), (read_f32_ok (i + 16)), (read_f32_ok (i + 20)),
      (read_f32_ok (i + 24)) by lia.
    destruct (read_floats_ok 9 (i + 28) s ltac:(lia) ltac:(lia)) as (ec & Hec).
    rewrite Hec.
    rewrite (read_f32_ok (i + 64)) by lia.
    destruct (IH (i + 68) s ltac:(lia) ltac:(lia)) as (tgs & Hp & Hl).
    rewrite Hp. eexists. unfold ret. cbn [fst snd]. split.
    + do 3 f_equal. lia.
    + cbn [length]. rewrite Hl. reflexivity.
Qed.

(** ** The occupancy update *)

Lemma where_true_from_bounds m : forall i k,
  In k (where_true_from i m) -> i <= k < i + len m.
Proof.
  induction m as [|b m IH]; intros i k H; cbn [where_true_from] in H.
  - destruct H.
  - assert (Hl : len (b :: m) = 1 + len m) by (unfold len; cbn [length]; lia).
    pose proof (len_nonneg m).
    destruct b.
    + destruct H as [<-|H]; [lia|]. apply IH in H. lia.
    + apply IH in H. lia.
Qed.

Lemma length_diff_bool m : length (diff_bool m) = (length m - 1)%nat.
Proof.
  induction m as [|a [|b m] IH]; [reflexivity..|].
  cbn [diff_bool length] in *. lia.
Qed.

Lemma nth_diff_bool m : forall j,
  (S j < length m)%nat ->
  nth j (diff_bool m) false = xorb (nth (S j) m false) (nth j m false).
Proof.
  induction m as [|a [|b m] IH]; intros j Hj; cbn [length] in Hj; try lia.
  destruct j as [|j]; [reflexivity|].
  change (diff_bool (a :: b :: m)) with (xorb b a :: diff_bool (b :: m)).
  cbn [nth]. rewrite IH by (cbn [length]; lia). reflexivity.
Qed.

Lemma where_true_from_hd m : forall i k ks,
  where_true_from i m = k :: ks ->
  i <= k /\
  nth (Z.to_nat (k - i)) m false = true /\
  forall j, (j < Z.to_nat (k - i))%nat -> nth j m false = false.
Proof.
  induction m as [|b m IH]; intros i k ks H; cbn [where_true_from] in H;
    [discriminate|].
  destruct b.
  - injection H as <- _. rewrite Z.sub_diag. cbn.
    split; [lia|]. split; [reflexivity|]. intros j Hj. lia.
  - destruct (IH _ _ _ H) as (Hk & Hn & Hlt).
    split; [lia|].
    replace (Z.to_nat (k - i)) with (S (Z.to_nat (k - (i + 1)))) by lia.
    split; [exact Hn|].
    intros [|j] Hj; [reflexivity|]. cbn [nth]. apply Hlt. lia.
Qed.

(** The first index that [zero_crossing_site] reports is the first place
    where two neighbours of the history differ in [np.sign(.) >= 0]; the
    history has a sample there. *)
Lemma zero_crossing_first h k ks :
  zero_crossing_site h = k :: ks ->
  0 <= k /\ (S (Z.to_nat k) < length h)%nat /\
  nth (S (Z.to_nat k)) (map sign_ge0 h) false
  <> nth (Z.to_nat k) (map sign_ge0 h) false /\
  forall j, (j < Z.to_nat k)%nat ->
    nth (S j) (map sign_ge0 h) false = nth j (map sign_ge0 h) false.
Proof.
  intros H. unfold zero_crossing_site, where_true in H.
  assert (Hin : In k (where_true_from 0 (diff_bool (map sign_ge0 h))))
    by (rewrite H; left; reflexivity).
  apply where_true_from_bounds in Hin.
  unfold len in Hin. rewrite length_diff_bool, length_map in Hin.
  destruct (where_true_from_hd _ _ _ _ H) as (Hk & Hn & Hlt).
  rewrite Z.sub_0_r in *.
  split; [lia|]. split; [lia|].
  rewrite nth_diff_bool in Hn by (rewrite length_map; lia).
  split.
  - intros E. rewrite E, xorb_nilpotent in Hn. discriminate.
  - intros j Hj. specialize (Hlt j Hj).
    rewrite nth_diff_bool in Hlt by (rewrite length_map; lia).
    apply xorb_eq in Hlt. exact Hlt.
Qed.

Lemma zero_crossing_sample h k ks :
  zero_crossing_site h = k :: ks ->
  exists v, nth_error h (Z.to_nat k) = Some v.
Proof.
  intros H. destruct (zero_crossing_first _ _ _ H) as (_ & Hl & _).
  destruct (nth_error h (Z.to_nat k)) as [v|] eqn:E; [eauto|].
  apply nth_error_None in E. lia.
Qed.

Lemma track_skip frameNumber id x rest s :
  in_band x = false ->
  track frameNumber ((id, x) :: rest) s = track frameNumber rest s.
Proof. intros H. cbn [track]. rewrite H. reflexivity. Qed.

Lemma track_missing frameNumber id x rest s :
  in_band x = true -> temp s !! id = None ->
  track frameNumber ((id, x) :: rest) s = (Raise KeyError, s).
Proof.
  intros Hb Hk. cbn [track]. rewrite Hb. unfold_monad. rewrite Hk. reflexivity.
Qed.

Lemma track_store frameNumber id x rest s h :
  in_band x = true -> temp s !! id = Some h ->
  frameNumber mod 20 <> 0 \/ zero_crossing_site (h ++ [x]) = [] ->
  track frameNumber ((id, x) :: rest) s
  = track frameNumber rest (set_temp (<[id := h ++ [x]]> (temp s)) s).
Proof.
  intros Hb Hk Hno. cbn [track]. rewrite Hb. unfold_monad. rewrite Hk.
  destruct (Z.eqb_spec (frameNumber mod 20) 0) as [E|E]; [|reflexivity].
  destruct Hno as [Hno|Hno]; [contradiction|]. rewrite Hno. reflexivity.
Qed.

Lemma track_cross frameNumber id x rest s h k ks v :
  in_band x = true -> temp s !! id = Some h ->
  frameNumber mod 20 = 0 ->
  zero_crossing_site (h ++ [x]) = k :: ks ->
  nth_error (h ++ [x]) (Z.to_nat k) = Some v ->
  track frameNumber ((id, x) :: rest) s
  = (Ok tt,
     if is_neg v then
       mkState (byteBuffer s) (byteBufferLength s) (count_entered s + 1)
         (count_exit s) (<[id := []]> (<[id := h ++ [x]]> (temp s)))
     else
       mkState (byteBuffer s) (byteBufferLength s) (count_entered s)
         (count_exit s + 1) (<[id := []]> (<[id := h ++ [x]]> (temp s)))).
Proof.
  intros Hb Hk Hf Hz Hv. cbn [track]. rewrite Hb. unfold_monad. rewrite Hk.
  rewrite Hf. cbn [Z.eqb]. rewrite Hz, Hv.
  destruct (is_neg v); reflexivity.
Qed.

Lemma has_keys_set_temp ids s id h :
  has_keys ids s = true ->
  has_keys ids (set_temp (<[id := h]> (temp s)) s) = true.
Proof.
  unfold has_keys. rewrite !forallb_forall. intros H j Hj.
  specialize (H j Hj). cbn [temp set_temp].
  destruct (decide (id = j)) as [->|Hne].
  - rewrite lookup_insert_eq. reflexivity.
  - rewrite lookup_insert_ne by assumption. exact H.
Qed.

Lemma has_keys_lookup ids s id :
  has_keys ids s = true -> In id ids -> exists h, temp s !! id = Some h.
Proof.
  unfold has_keys. rewrite forallb_forall. intros H Hin.
  specialize (H id Hin). destruct (temp s !! id) as [h|]; [eauto|discriminate].
Qed.

Lemma in_table id : 0 <= id < 7 -> In id [0; 1; 2; 3; 4; 5; 6].
Proof. intros H. cbn [In]. lia. Qed.

Lemma track_ok frameNumber ts : forall s,
  has_keys [0; 1; 2; 3; 4; 5; 6] s = true ->
  ids_in_table ts = true ->
  exists s',
    track frameNumber ts s = (Ok tt, s') /\
    has_keys [0; 1; 2; 3; 4; 5; 6] s' = true.
Proof.
  induction ts as [|[id x] rest IH]; intros s Hk Hids.
  - exists s. split; [reflexivity | assumption].
  - cbn [ids_in_table forallb fst snd] in Hids.
    apply andb_true_iff in Hids as [Hid Hrest].
    destruct (in_band x) eqn:Hb.
    + cbn [negb orb] in Hid. apply andb_true_iff in Hid as [H0 H7].
      apply Z.leb_le in H0. apply Z.ltb_lt in H7.
      destruct (has_keys_lookup _ s id Hk (in_table id ltac:(lia))) as [h Hh].
      pose proof (has_keys_set_temp _ s id (h ++ [x]) Hk) as Hk1.
      destruct (Z.eq_dec (frameNumber mod 20) 0) as [Hf|Hf].
      * destruct (zero_crossing_site (h ++ [x])) as [|k ks] eqn:Hz.
        -- rewrite (track_store _ _ _ _ _ h) by auto. apply IH; assumption.
        -- destruct (zero_crossing_sample _ _ _ Hz) as [v Hv].
           rewrite (track_cross _ _ _ _ _ h k ks v) by assumption.
           eexists. split; [reflexivity|].
           pose proof (has_keys_set_temp _ _ id [] Hk1) as Hk2.
           destruct (is_neg v); exact Hk2.
      * rewrite (track_store _ _ _ _ _ h) by auto. apply IH; assumption.
    + rewrite track_skip by assumption. apply IH; assumption.
Qed.

(** The update ends normally or with [KeyError], never otherwise. *)
Lemma track_outcome frameNumber ts : forall s,
  fst (track frameNumber ts s) = Ok tt \/
  fst (track frameNumber ts s) = Raise KeyError.
Proof.
  induction ts as [|[id x] rest IH]; intros s.
  - left. reflexivity.
  - destruct (in_band x) eqn:Hb.
    + destruct (temp s !! id) as [h|] eqn:Hh.
      * destruct (Z.eq_dec (frameNumber mod 20) 0) as [Hf|Hf].
        -- destruct (zero_crossing_site (h ++ [x])) as [|k ks] eqn:Hz.
           ++ rewrite (track_store _ _ _ _ _ h) by auto. apply IH.
           ++ destruct (zero_crossing_sample _ _ _ Hz) as [v Hv].
              rewrite (track_cross _ _ _ _ _ h k ks v) by assumption.
              left. reflexivity.
        -- rewrite (track_store _ _ _ _ _ h) by auto. apply IH.
      * rewrite track_missing by assumption. right. reflexivity.
    + rewrite track_skip by assumption. apply IH.
Qed.

(** C4 (as the code has it). The occupancy update of a decoded target list
    ends normally when every target of the list that lies in the band has
    an id from 0 to 6, the keys of the history table, and the table keeps
    these keys.  At a target in the band whose id is not a key of the table
    it raises [KeyError], which nothing catches.  It ends in no other
    way. *)
Theorem track_raises_on_unknown_id (frameNumber : Z) (ts : list (Z * Z))
    (s : State) :
  has_keys [0; 1; 2; 3; 4; 5; 6] s = true ->
  (ids_in_table ts = true ->
   exists s',
     track frameNumber ts s = (Ok tt, s') /\
     has_keys [0; 1; 2; 3; 4; 5; 6] s' = true) /\
  (forall id x rest,
      in_band x = true -> temp s !! id = None ->
      track frameNumber ((id, x) :: rest) s = (Raise KeyError, s)) /\
  (fst (track frameNumber ts s) = Ok tt \/
   fst (track frameNumber ts s) = Raise KeyError).
Proof.
  intros Hk. split; [|split].
  - intros Hids. apply track_ok; assumption.
  - intros id x rest Hb Hn. apply track_missing; assumption.
  - apply track_outcome.
Qed.

Lemma track_raises_on_unknown_id_witness :
  has_keys [0; 1; 2; 3; 4; 5; 6] init = true /\
  exists s', track 20 [(3, f_02); (9, f_1)] init = (Ok tt, s').
Proof.
  assert (Hk : has_keys [0; 1; 2; 3; 4; 5; 6] init = true)
    by (vm_compute; reflexivity).
  split; [exact Hk|].
  destruct (track_raises_on_unknown_id 20 [(3, f_02); (9, f_1)] init Hk)
    as (Hok & _).
  destruct Hok as (s' & Hs & _); [vm_compute; reflexivity|].
  exists s'. exact Hs.
Defined.

(** C4, the claim as stated, fails: a frame whose target list holds one
    target at [posX = 0.0] with the id 7 makes [process_frame] raise
    [KeyError], and the frame stays in the buffer; a point cloud that
    declares the length 0 makes it raise [ValueError]. *)
Lemma key_error_propagates :
  in_band 0 = true /\
  fst (process_frame false bad_id_frame init) = Raise KeyError /\
  fst (process_frame true bad_id_frame init) = Raise KeyError /\
  byteBufferLength (snd (process_frame false bad_id_frame init)) = 128 /\
  fst (process_frame false short_length_frame init) = Raise ValueError.
Proof. vm_compute. repeat split; reflexivity. Qed.

(** ** Crossings *)








(** ** The read position behind a known record *)

Lemma tlv_step_points frameNumber l s :
  len (byteBuffer s) = maxBufferSize -> 0 <= idX l ->
  idX l + 8 <= maxBufferSize ->
  u32_at (byteBuffer s) (idX l) = 6 ->
  8 <= u32_at (byteBuffer s) (idX l + 4) ->
  idX l + 8 + 16 * ((u32_at (byteBuffer s) (idX l + 4) - 8) / 16)
  <= maxBufferSize ->
  exists l',
    tlv_step frameNumber l s = (Ok l', s) /\
    idX l' = idX l + 8 + 16 * ((u32_at (byteBuffer s) (idX l + 4) - 8) / 16) /\
    dataOK l' = true.
Proof.
  intros Hlen H0 H8 Hty Hl Hfit.
  set (n := u32_at (byteBuffer s) (idX l + 4)) in *.
  assert (Hq : 0 <= (n - 8) / 16) by (apply Z.div_pos; lia).
  unfold tlv_step. unfold bind at 1.
  rewrite read_tlv_header_in by assumption. rewrite Hty. fold n.
  change (6 =? MMWDEMO_UART_MSG_POINT_CLOUD_2D) with true. cbv iota.
  unfold tlvHeaderLengthInBytes, pointLengthInBytes.
  unfold bind at 1. unfold check_size.
  destruct (Z.ltb_spec ((n - 8) / 16) 0); [lia|]. unfold ret at 1.
  destruct (read_points_ok (Z.to_nat ((n - 8) / 16)) (idX l + 8) s)
    as (pts & Hp & _); [lia | rewrite Z2Nat.id by lia; lia |].
  unfold bind. rewrite Hp. unfold ret. cbn [fst snd].
  eexists. split; [reflexivity|]. cbn [idX dataOK].
  rewrite Z2Nat.id by lia. split; reflexivity.
Qed.

Lemma tlv_step_targets frameNumber l s :
  len (byteBuffer s) = maxBufferSize -> 0 <= idX l ->
  idX l + 8 <= maxBufferSize ->
  u32_at (byteBuffer s) (idX l) = 7 ->
  8 <= u32_at (byteBuffer s) (idX l + 4) ->
  idX l + 8 + 68 * ((u32_at (byteBuffer s) (idX l + 4) - 8) / 68)
  <= maxBufferSize ->
  (exists l' s',
      tlv_step frameNumber l s = (Ok l', s') /\
      idX l' = idX l + 8 + 68 * ((u32_at (byteBuffer s) (idX l + 4) - 8) / 68) /\
      targetDetected l' = true) \/
  (exists s', tlv_step frameNumber l s = (Raise KeyError, s')).
Proof.
  intros Hlen H0 H8 Hty Hl Hfit.
  set (n := u32_at (byteBuffer s) (idX l + 4)) in *.
  assert (Hq : 0 <= (n - 8) / 68) by (apply Z.div_pos; lia).
  destruct (tlv_step frameNumber l s) as [r s'] eqn:E.
  revert E. unfold tlv_step. unfold bind at 1.
  rewrite read_tlv_header_in by assumption. rewrite Hty. fold n.
  change (7 =? MMWDEMO_UART_MSG_POINT_CLOUD_2D) with false.
  change (7 =? MMWDEMO_UART_MSG_TARGET_LIST_2D) with true. cbv iota.
  unfold tlvHeaderLengthInBytes, targetLengthInBytes.
  unfold bind at 1. unfold check_size.
  destruct (Z.ltb_spec ((n - 8) / 68) 0); [lia|]. unfold ret at 1.
  destruct (read_targets_ok (Z.to_nat ((n - 8) / 68)) (idX l + 8) s)
    as (tgs & Hp & _); [lia | rewrite Z2Nat.id by lia; lia |].
  unfold bind at 1. rewrite Hp. cbn [fst snd].
  unfold bind at 1.
  pose proof (track_outcome frameNumber
                (map (fun t => (t_id t, t_posX t)) tgs) s) as Ho.
  destruct (track frameNumber (map (fun t => (t_id t, t_posX t)) tgs) s)
    as [[[]|e] s1]; cbn [fst] in Ho.
  - unfold_monad. intros E. injection E as <- <-.
    left. eexists _, _. split; [reflexivity|].
    cbn [idX targetDetected]. rewrite Z2Nat.id by lia. split; reflexivity.
  - destruct Ho as [Ho|Ho]; [discriminate|]. injection Ho as ->.
    intros E. injection E as <- <-.
    right. eexists. reflexivity.
Qed.

Lemma tlv_step_indices frameNumber l s :
  len (byteBuffer s) = maxBufferSize -> 0 <= idX l ->
  idX l + 8 <= maxBufferSize ->
  u32_at (byteBuffer s) (idX l) = 8 ->
  exists l',
    tlv_step frameNumber l s = (Ok l', s) /\
    idX l' = idX l + u32_at (byteBuffer s) (idX l + 4).
Proof.
  intros Hlen H0 H8 Hty.
  unfold tlv_step. unfold bind at 1.
  rewrite read_tlv_header_in by assumption. rewrite Hty.
  change (8 =? MMWDEMO_UART_MSG_POINT_CLOUD_2D) with false.
  change (8 =? MMWDEMO_UART_MSG_TARGET_LIST_2D) with false.
  change (8 =? MMWDEMO_UART_MSG_TARGET_INDEX_2D) with true. cbv iota.
  unfold ret, tlvHeaderLengthInBytes.
  eexists. split; [reflexivity|]. cbn [idX]. lia.
Qed.

Lemma whole_elements n e :
  0 < e -> (8 + e * ((n - 8) / e) = n <-> (n - 8) mod e = 0).
Proof.
  intros He. pose proof (Z.div_mod (n - 8) e ltac:(lia)). lia.
Qed.

(** C7 (as the code has it). Let a record with a sub-header inside the array
    declare a length of at least 8 and let its elements lie inside the
    array.  A point cloud moves the read position by [8 + 16 M], where
    [M = (length - 8) / 16] rounded down is the number of points decoded; a
    target list, when its occupancy update does not raise [KeyError], moves
    it by [8 + 68 K] with [K = (length - 8) / 68] rounded down.  Either
    distance is the declared length exactly when the declared length less 8
    is a multiple of the element size.  A target index moves the read
    position by its declared length. *)
Theorem record_cursor (frameNumber : Z) (l : Locals) (s : State) :
  len (byteBuffer s) = maxBufferSize -> 0 <= idX l ->
  idX l + 8 <= maxBufferSize ->
  8 <= u32_at (byteBuffer s) (idX l + 4) ->
  (u32_at (byteBuffer s) (idX l) = 6 ->
   idX l + 8 + 16 * ((u32_at (byteBuffer s) (idX l + 4) - 8) / 16)
   <= maxBufferSize ->
   exists l',
     tlv_step frameNumber l s = (Ok l', s) /\
     idX l' = idX l + 8 + 16 * ((u32_at (byteBuffer s) (idX l + 4) - 8) / 16) /\
     (idX l' = idX l + u32_at (byteBuffer s) (idX l + 4) <->
      (u32_at (byteBuffer s) (idX l + 4) - 8) mod 16 = 0)) /\
  (u32_at (byteBuffer s) (idX l) = 7 ->
   idX l + 8 + 68 * ((u32_at (byteBuffer s) (idX l + 4) - 8) / 68)
   <= maxBufferSize ->
   (exists l' s',
       tlv_step frameNumber l s = (Ok l', s') /\
       idX l' = idX l + 8 + 68 * ((u32_at (byteBuffer s) (idX l + 4) - 8) / 68) /\
       (idX l' = idX l + u32_at (byteBuffer s) (idX l + 4) <->
        (u32_at (byteBuffer s) (idX l + 4) - 8) mod 68 = 0)) \/
   (exists s', tlv_step frameNumber l s = (Raise KeyError, s'))) /\
  (u32_at (byteBuffer s) (idX l) = 8 ->
   exists l',
     tlv_step frameNumber l s = (Ok l', s) /\
     idX l' = idX l + u32_at (byteBuffer s) (idX l + 4)).
Proof.
  intros Hlen H0 H8 Hl. split; [|split].
  - intros Hty Hfit.
    destruct (tlv_step_points frameNumber l s) as (l' & Hs & Hi & _);
      try assumption.
    exists l'. split; [exact Hs|]. split; [exact Hi|].
    rewrite Hi.
    pose proof (whole_elements (u32_at (byteBuffer s) (idX l + 4)) 16
                  ltac:(lia)). lia.
  - intros Hty Hfit.
    destruct (tlv_step_targets frameNumber l s)
      as [(l' & s' & Hs & Hi & _)|Hr]; try assumption.
    + left. exists l', s'. split; [exact Hs|]. split; [exact Hi|].
      rewrite Hi.
      pose proof (whole_elements (u32_at (byteBuffer s) (idX l + 4)) 68
                    ltac:(lia)). lia.
    + right. exact Hr.
  - intros Hty. apply tlv_step_indices; assumption.
Qed.

Lemma record_cursor_witness :
  len (byteBuffer (snd (append known_tlv_frame init))) = maxBufferSize /\
  exists l',
    tlv_step 1 (mkLocals 60 8 false false None None None)
      (snd (append known_tlv_frame init))
    = (Ok l', snd (append known_tlv_frame init)) /\
    idX l' = 84.
Proof.
  assert (Hlen : len (byteBuffer (snd (append known_tlv_frame init)))
                 = maxBufferSize) by (vm_compute; reflexivity).
  split; [exact Hlen|].
  assert (H0 : 0 <= idX (mkLocals 60 8 false false None None None))
    by (cbn [idX]; lia).
  assert (H8 : idX (mkLocals 60 8 false false None None None) + 8
               <= maxBufferSize) by (vm_compute; discriminate).
  assert (Hl : 8 <= u32_at (byteBuffer (snd (append known_tlv_frame init)))
                      (idX (mkLocals 60 8 false false None None None) + 4))
    by (vm_compute; discriminate).
  destruct (record_cursor 1 _ _ Hlen H0 H8 Hl) as (Hp & _).
  destruct Hp as (l' & Hs & Hi & _).
  - vm_compute. reflexivity.
  - vm_compute. discriminate.
  - exists l'. split; [exact Hs|]. rewrite Hi. vm_compute. reflexivity.
Defined.

(** C7, the claim as stated, fails: the first record of [ragged_frame] is a
    point cloud that declares the length 30.  One point is decoded and the
    read position moves by 24 to 76, not by the declared 30 to 82; the
    sub-header of the second point cloud is then read six bytes early, and
    the frame is returned with the first point cloud only. *)
Lemma ragged_record_misaligns :
  u32_at (byteBuffer (snd (append ragged_frame init))) 52 = 6 /\
  u32_at (byteBuffer (snd (append ragged_frame init))) 56 = 30 /\
  match tlv_step 1 locals0 (snd (append ragged_frame init)) with
  | (Ok l, _) => idX l = 76
  | (Raise _, _) => False
  end /\
  match process_frame false ragged_frame init with
  | (Ok r, _) => r_pointObj r = Some (mkPointObj 1 [f_1] [0] [0] [f_25])
  | (Raise _, _) => False
  end.
Proof. vm_compute. repeat split; reflexivity. Qed.

(** ** Garbage before a frame *)

Lemma where_eq_from_app a b x : forall i,
  where_eq_from i (a ++ b) x
  = where_eq_from i a x ++ where_eq_from (i + len a) b x.
Proof.
  induction a as [|y a IH]; intros i; cbn [app where_eq_from].
  - f_equal. unfold len. cbn [length]. lia.
  - rewrite IH.
    replace (i + 1 + len a) with (i + len (y :: a))
      by (unfold len; cbn [length]; lia).
    destruct (Byte.eqb y x); reflexivity.
Qed.

Lemma where_eq_from_zeros n : forall i, where_eq_from i (zeros n) x02 = [].
Proof.
  induction n as [|n IH]; intros i; [reflexivity|].
  cbn [zeros repeat where_eq_from].
  change (Byte.eqb x00 x02) with false. apply IH.
Qed.

Lemma confirm_starts_app strict_shapes buf l1 l2 r1 :
  confirm_starts strict_shapes buf l1 = Ok r1 ->
  confirm_starts strict_shapes buf (l1 ++ l2)
  = match confirm_starts strict_shapes buf l2 with
    | Ok r2 => Ok (r1 ++ r2)
    | Raise e => Raise e
    end.
Proof.
  revert r1. induction l1 as [|loc l1 IH]; intros r1 H;
    cbn [confirm_starts app] in *.
  - injection H as <-.
    destruct (confirm_starts strict_shapes buf l2); reflexivity.
  - destruct (all_eq strict_shapes (slice buf loc (loc + 8)) magicWord) as [b|e];
      [|discriminate].
    destruct (confirm_starts strict_shapes buf l1) as [r|e]; [|discriminate].
    injection H as <-. rewrite (IH r eq_refl).
    destruct (confirm_starts strict_shapes buf l2); [|reflexivity].
    destruct b; reflexivity.
Qed.

Lemma all_eq_whole strict_shapes buf loc :
  0 <= loc -> loc + 8 <= len buf ->
  all_eq strict_shapes (slice buf loc (loc + 8)) magicWord
  = Ok (list_eqb (firstn 8 (skipn (Z.to_nat loc) buf)) magicWord).
Proof.
  intros H0 H8. unfold all_eq.
  rewrite length_slice_in by lia.
  replace (Z.to_nat (loc + 8 - loc)) with 8%nat by lia.
  cbn [magicWord length Nat.eqb].
  rewrite slice_in by lia.
  replace (Z.to_nat (loc + 8 - loc)) with 8%nat by lia. reflexivity.
Qed.

(** Without the strict comparison of shapes the confirmation never
    raises. *)
Lemma all_eq_lenient check : exists b, all_eq false check magicWord = Ok b.
Proof.
  unfold all_eq.
  destruct (Nat.eqb (length check) (length magicWord)); [eauto|].
  destruct (Nat.eqb (length check) 1); eauto.
Qed.

Lemma confirm_starts_total strict_shapes buf locs :
  (strict_shapes = true ->
   forall loc, In loc locs -> 0 <= loc /\ loc + 8 <= len buf) ->
  exists r, confirm_starts strict_shapes buf locs = Ok r.
Proof.
  induction locs as [|loc locs IH]; intros H; cbn [confirm_starts].
  - eauto.
  - destruct IH as [r Hr].
    { intros Hs l Hl. apply (H Hs). right. exact Hl. }
    rewrite Hr.
    destruct strict_shapes.
    + destruct (H eq_refl loc ltac:(left; reflexivity)) as [H0 H8].
      rewrite all_eq_whole by assumption. eauto.
    + destruct (all_eq_lenient (slice buf loc (loc + 8))) as [b Hb].
      rewrite Hb. eauto.
Qed.

Lemma confirm_starts_none strict_shapes buf locs :
  (forall loc, In loc locs ->
     0 <= loc /\ loc + 8 <= len buf /\
     firstn 8 (skipn (Z.to_nat loc) buf) <> magicWord) ->
  confirm_starts strict_shapes buf locs = Ok [].
Proof.
  induction locs as [|loc locs IH]; intros H; cbn [confirm_starts].
  - reflexivity.
  - rewrite IH by (intros l Hl; apply H; right; exact Hl).
    destruct (H loc ltac:(left; reflexivity)) as (H0 & H8 & Hne).
    rewrite all_eq_whole by assumption.
    destruct (list_eqb _ magicWord) eqn:E; [|reflexivity].
    apply list_eqb_eq in E. contradiction.
Qed.

Lemma has_prefix_app p a : has_prefix p a = true -> exists r, a = p ++ r.
Proof.
  revert a. induction p as [|x p IH]; intros a H.
  - exists a. reflexivity.
  - destruct a as [|y a]; cbn [has_prefix] in H; [discriminate|].
    apply andb_true_iff in H as [Hx Hp].
    apply byte_dec_bl in Hx. subst y.
    destruct (IH a Hp) as [r ->]. exists r. reflexivity.
Qed.

Lemma has_prefix_refl p r : has_prefix p (p ++ r) = true.
Proof.
  induction p as [|x p IH]; [reflexivity|]. cbn [app has_prefix].
  rewrite (byte_dec_lb (eq_refl x)), IH. reflexivity.
Qed.

Lemma occurs_skipn p a : forall n,
  occurs p a = false -> has_prefix p (skipn n a) = false \/ skipn n a = [].
Proof.
  induction a as [|y a IH]; intros n H.
  - right. destruct n; reflexivity.
  - destruct n as [|n].
    + left. cbn [skipn]. cbn [occurs] in H.
      apply orb_false_iff in H as [H _]. exact H.
    + cbn [skipn]. apply IH.
      cbn [occurs] in H. apply orb_false_iff in H as [_ H]. exact H.
Qed.

(** The magic word has no proper overlap with itself: a match that starts
    in the garbage cannot run into the magic word behind it. *)
Lemma no_straddle g r :
  g <> [] -> has_prefix magicWord g = false ->
  firstn 8 (g ++ magicWord ++ r) <> magicWord.
Proof.
  intros Hne Hnp H. unfold magicWord in H.
  destruct g as [|a1 g]; [congruence|].
  destruct g as [|a2 g]; [cbn [app firstn] in H; congruence|].
  destruct g as [|a3 g]; [cbn [app firstn] in H; congruence|].
  destruct g as [|a4 g]; [cbn [app firstn] in H; congruence|].
  destruct g as [|a5 g]; [cbn [app firstn] in H; congruence|].
  destruct g as [|a6 g]; [cbn [app firstn] in H; congruence|].
  destruct g as [|a7 g]; [cbn [app firstn] in H; congruence|].
  destruct g as [|a8 g]; [cbn [app firstn] in H; congruence|].
  cbn [app firstn] in H.
  injection H as -> -> -> -> -> -> -> ->.
  change (x02 :: x01 :: x04 :: x03 :: x06 :: x05 :: x08 :: x07 :: g)
    with (magicWord ++ g) in Hnp.
  rewrite has_prefix_refl in Hnp. discriminate.
Qed.

Lemma garbage_no_match g r loc :
  occurs magicWord g = false -> 0 <= loc < len g ->
  firstn 8 (skipn (Z.to_nat loc) (g ++ magicWord ++ r)) <> magicWord.
Proof.
  intros Ho Hloc. unfold len in Hloc.
  rewrite skipn_app.
  replace (Z.to_nat loc - length g)%nat with 0%nat by lia.
  rewrite skipn_O.
  apply no_straddle.
  - intros E. apply (f_equal (@length byte)) in E.
    rewrite length_skipn in E. cbn [length] in E. lia.
  - destruct (occurs_skipn magicWord g (Z.to_nat loc) Ho) as [H|H];
      [exact H|].
    apply (f_equal (@length byte)) in H.
    rewrite length_skipn in H. cbn [length] in H. lia.
Qed.

(** The search in a buffer that holds garbage without a magic word and,
    behind it, bytes that start with one: the first confirmed location is
    the end of the garbage. *)
Lemma confirm_after_garbage strict_shapes g r n :
  occurs magicWord g = false ->
  len g + 8 + len r + Z.of_nat n = maxBufferSize ->
  (strict_shapes = true -> (7 <= n)%nat) ->
  exists rest,
    confirm_starts strict_shapes (g ++ (magicWord ++ r) ++ zeros n)
      (where_eq (g ++ (magicWord ++ r) ++ zeros n) (hd x00 magicWord))
    = Ok (len g :: rest).
Proof.
  intros Ho Hsize Hstrict.
  set (buf := g ++ (magicWord ++ r) ++ zeros n).
  assert (Hbuf : len buf = maxBufferSize).
  { unfold buf. rewrite !len_app. unfold len at 2 4.
    rewrite length_zeros. cbn [magicWord length]. lia. }
  pose proof (len_nonneg g) as Hg. pose proof (len_nonneg r) as Hr.
  unfold where_eq. cbn [hd magicWord].
  unfold buf at 2. rewrite where_eq_from_app.
  change (magicWord ++ r) with (x02 :: (tl magicWord ++ r)).
  cbn [app where_eq_from]. change (Byte.eqb x02 x02) with true. cbv iota.
  rewrite (confirm_starts_app _ _ _ _ []).
  - cbn [confirm_starts].
    rewrite all_eq_whole by lia.
    replace (firstn 8 (skipn (Z.to_nat (0 + len g)) buf)) with magicWord.
    + rewrite list_eqb_refl.
      destruct (confirm_starts_total strict_shapes buf
                  (where_eq_from (0 + len g + 1)
                     ((tl magicWord ++ r) ++ zeros n) x02)) as [rest Hrest].
      { intros Hs loc Hin. specialize (Hstrict Hs).
        rewrite where_eq_from_app, where_eq_from_zeros, app_nil_r in Hin.
        apply where_eq_from_bounds in Hin.
        rewrite len_app in Hin. unfold len in Hin at 3.
        cbn [magicWord tl length] in Hin. lia. }
      rewrite Hrest. exists rest. reflexivity.
    + unfold buf. rewrite Z.add_0_l.
      rewrite (skipn_app_exact g) by (unfold len; lia).
      rewrite <- app_assoc.
      rewrite (firstn_app_exact magicWord) by reflexivity. reflexivity.
  - apply confirm_starts_none. intros loc Hin.
    apply where_eq_from_bounds in Hin.
    split; [lia|]. split; [lia|].
    unfold buf. rewrite <- app_assoc.
    apply garbage_no_match; [assumption | lia].
Qed.

Lemma len_zeros n : len (zeros n) = Z.of_nat n.
Proof. unfold len. rewrite length_zeros. reflexivity. Qed.

Lemma synced_inv s chunk :
  len chunk <= maxBufferSize -> buffer_inv (synced s chunk).
Proof.
  intros H. pose proof (len_nonneg chunk) as Hc.
  unfold buffer_inv, synced. cbn [byteBuffer byteBufferLength].
  split; [|split; [lia|]].
  - rewrite len_app. unfold len at 2. rewrite length_zeros. lia.
  - apply skipn_app_exact. unfold len. lia.
Qed.

Lemma buffer_empty s :
  buffer_inv s -> byteBufferLength s = 0 ->
  byteBuffer s = zeros (Z.to_nat maxBufferSize).
Proof.
  intros (Hlen & Hn & Htail) H0. rewrite H0, Z.sub_0_r in Htail.
  rewrite <- Htail. reflexivity.
Qed.

Lemma append_empty chunk s :
  buffer_inv s -> byteBufferLength s = 0 -> len chunk < maxBufferSize ->
  append chunk s = (Ok tt, synced s chunk).
Proof.
  intros Hinv H0 Hc. pose proof Hinv as (Hlen & Hn & _).
  pose proof (len_nonneg chunk) as Hp.
  rewrite append_accept by lia.
  rewrite (buffer_empty s Hinv H0), H0, Z.add_0_l.
  rewrite firstn_O, skipn_zeros, app_nil_l. unfold synced.
  replace (Z.to_nat maxBufferSize - Z.to_nat (len chunk))%nat
    with (Z.to_nat (maxBufferSize - len chunk)) by lia.
  reflexivity.
Qed.

Lemma sync_after_garbage (strict_shapes : bool) (g f : list byte) (s : State) :
  occurs magicWord g = false ->
  has_prefix magicWord f = true ->
  16 < len f ->
  len g + len f < maxBufferSize - (if strict_shapes then 6 else 0) ->
  sync strict_shapes (synced s (g ++ f))
  = (Ok (readyForDecode (len f) (u32_at (byteBuffer (synced s f)) 20)),
     synced s f).
Proof.
  intros Ho Hp H16 Hfit.
  destruct (has_prefix_app _ _ Hp) as [r ->].
  pose proof (len_nonneg g) as Hg. pose proof (len_nonneg r) as Hr.
  set (f := magicWord ++ r) in *.
  assert (Hlf : len f = 8 + len r) by (unfold f; rewrite len_app; reflexivity).
  assert (Hfit' : len g + len f < maxBufferSize)
    by (destruct strict_shapes; lia).
  assert (Hinv : buffer_inv (synced s (g ++ f)))
    by (apply synced_inv; rewrite len_app; lia).
  destruct (confirm_after_garbage strict_shapes g r
              (Z.to_nat (maxBufferSize - len (g ++ f))) Ho) as [rest Hc].
  { rewrite len_app. lia. }
  { intros ->. rewrite len_app. lia. }
  fold f in Hc.
  assert (Hb : byteBuffer (synced s (g ++ f))
               = g ++ f ++ zeros (Z.to_nat (maxBufferSize - len (g ++ f))))
    by (unfold synced, byteBuffer; rewrite <- app_assoc; reflexivity).
  rewrite <- Hb in Hc.
  rewrite (sync_ok strict_shapes _ (len g :: rest) Hinv Hc).
  assert (Hl : byteBufferLength (synced s (g ++ f)) = len g + len f)
    by (unfold synced, byteBufferLength; apply len_app).
  rewrite Hl.
  destruct (Z.ltb_spec 16 (len g + len f)) as [_|?]; [|lia].
  rewrite andb_true_l.
  assert (Ha : after_sync (synced s (g ++ f)) (len g :: rest) = synced s f).
  { unfold after_sync. rewrite Hl.
    destruct (Z.ltb_spec 0 (len g)) as [Hpos|Hzero].
    - destruct (Z.ltb_spec (len g) (len g + len f)) as [_|?]; [|lia].
      rewrite andb_true_l.
      rewrite Hb.
      assert (Hs : slice (g ++ f ++ zeros (Z.to_nat (maxBufferSize - len (g ++ f))))
                     (len g) (len g + len f) = f).
      { rewrite slice_in.
        - rewrite (skipn_app_exact g) by (unfold len; lia).
          apply firstn_app_exact. unfold len. lia.
        - lia.
        - rewrite !len_app, len_zeros. lia. }
      rewrite Hs.
      replace (len g + len f - len g) with (len f) by lia.
      reflexivity.
    - assert (g = []) as ->.
      { destruct g; [reflexivity|].
        unfold len in Hzero. cbn [length] in Hzero. lia. }
      rewrite andb_false_l. rewrite app_nil_l. reflexivity. }
  rewrite Ha. reflexivity.
Qed.

Lemma process_frame_synced (strict_shapes : bool) (g f : list byte) (s : State) :
  buffer_inv s -> byteBufferLength s = 0 ->
  occurs magicWord g = false ->
  has_prefix magicWord f = true ->
  16 < len f ->
  len g + len f < maxBufferSize - (if strict_shapes then 6 else 0) ->
  process_frame strict_shapes (g ++ f) s
  = if readyForDecode (len f) (u32_at (byteBuffer (synced s f)) 20)
    then decode (synced s f)
    else (Ok (mkResult false false 0 None None None), synced s f).
Proof.
  intros Hinv H0 Ho Hp H16 Hfit.
  assert (Hfit' : len (g ++ f) < maxBufferSize)
    by (rewrite len_app; destruct strict_shapes; lia).
  unfold process_frame. unfold bind at 1.
  rewrite append_empty by assumption.
  unfold bind at 1.
  rewrite sync_after_garbage by assumption.
  destruct (readyForDecode _ _); reflexivity.
Qed.

(** * Further properties of the decoder *)

(** ** Rules for [returns] *)

Lemma returns_ret {A} (a : A) (Q : A -> Prop) : Q a -> returns (ret a) Q.
Proof. intros H s. exact H. Qed.

Lemma returns_raise {A} e (Q : A -> Prop) : returns (raise e) Q.
Proof. intros s. exact I. Qed.

Lemma returns_bind {A B} (m : M A) (f : A -> M B) (Q1 : A -> Prop)
    (Q : B -> Prop) :
  returns m Q1 -> (forall a, Q1 a -> returns (f a) Q) -> returns (bind m f) Q.
Proof.
  intros Hm Hf s. unfold bind. specialize (Hm s).
  destruct (m s) as [[a|e] s1]; cbn [fst] in *; [|exact I].
  apply Hf, Hm.
Qed.

Lemma returns_true {A} (m : M A) : returns m (fun _ => True).
Proof. intros s. destruct (fst (m s)); exact I. Qed.

Lemma returns_bind_any {A B} (m : M A) (f : A -> M B) (Q : B -> Prop) :
  (forall a, returns (f a) Q) -> returns (bind m f) Q.
Proof.
  intros Hf. apply (returns_bind m f (fun _ => True)); [apply returns_true|].
  intros a _. apply Hf.
Qed.

Ltac returns_step :=
  match goal with
  | |- returns (bind _ _) _ => apply returns_bind_any; intros ?
  | |- returns (if ?c then _ else _) _ => destruct c
  | |- returns (match ?x with _ => _ end) _ => destruct x
  | |- returns (raise _) _ => apply returns_raise
  | |- returns (ret _) _ => apply returns_ret
  end.

(** ** Flags and objects of a result *)

Lemma tlv_step_consistent frameNumber l :
  locals_consistent l -> returns (tlv_step frameNumber l) locals_consistent.
Proof.
  intros (Hd & Ht & Ho). unfold tlv_step.
  repeat returns_step; unfold locals_consistent;
    cbn [dataOK targetDetected out targetObj pointObj];
    (split; [|split]); try assumption; try reflexivity;
    split; intros; congruence.
Qed.

Lemma tlv_loop_consistent n frameNumber : forall l,
  locals_consistent l -> returns (tlv_loop n frameNumber l) locals_consistent.
Proof.
  induction n as [|n IH]; intros l Hl; cbn [tlv_loop].
  - apply returns_ret, Hl.
  - apply (returns_bind _ _ locals_consistent).
    + apply tlv_step_consistent, Hl.
    + intros l' Hl'. apply IH, Hl'.
Qed.

Lemma decode_consistent : returns decode result_consistent.
Proof.
  unfold decode. apply returns_bind_any. intros [[[total fn] n] i].
  apply (returns_bind _ _ locals_consistent).
  - apply tlv_loop_consistent. unfold locals_consistent.
    cbn [dataOK targetDetected out targetObj pointObj].
    repeat split; intros; congruence.
  - intros l (Hd & Ht & Ho). apply returns_bind_any. intros _.
    apply returns_ret. unfold result_consistent.
    cbn [r_dataOK r_targetDetected r_out r_targetObj r_pointObj].
    repeat split; try apply Hd; try apply Ht; exact Ho.
Qed.

(** X1. In every result that [process_frame] returns, [dataOK] is set
    exactly when a point object is returned, [targetDetected] exactly when
    a target object is returned, and [out] is built from that target
    object: the caller that reads [point_obj["range"]] under [data_ok] and
    [target_obj["posX"]] under [target_detected] finds them. *)
Theorem result_flags_match_objects (strict_shapes : bool) (chunk : list byte)
    (s : State) :
  match fst (process_frame strict_shapes chunk s) with
  | Ok r => result_consistent r
  | Raise _ => True
  end.
Proof.
  revert s. change (returns (process_frame strict_shapes chunk) result_consistent).
  unfold process_frame. apply returns_bind_any. intros _.
  apply returns_bind_any. intros [|].
  - apply decode_consistent.
  - apply returns_ret. unfold result_consistent. cbn.
    repeat split; intros; congruence.
Qed.

(** ** The read position through the records *)

Lemma read_points_cursor n : forall i s,
  match fst (read_points n i s) with
  | Ok r => snd r = i + 16 * Z.of_nat n
  | Raise _ => True
  end.
Proof.
  induction n as [|n IH]; intros i s; cbn [read_points].
  - unfold ret. cbn [fst snd]. lia.
  - unfold bind.
    destruct (read_f32 i s) as [[r|e] s1]; [|exact I].
    destruct (read_f32 (i + 4) s1) as [[a|e] s2]; [|exact I].
    destruct (read_f32 (i + 8) s2) as [[d|e] s3]; [|exact I].
    destruct (read_f32 (i + 12) s3) as [[q|e] s4]; [|exact I].
    specialize (IH (i + 16) s4).
    destruct (read_points n (i + 16) s4) as [[rest|e] s5]; [|exact I].
    unfold ret. cbn [fst snd] in *. lia.
Qed.

Lemma read_targets_cursor n : forall i s,
  match fst (read_targets n i s) with
  | Ok r => snd r = i + 68 * Z.of_nat n
  | Raise _ => True
  end.
Proof.
  induction n as [|n IH]; intros i s; cbn [read_targets].
  - unfold ret. cbn [fst snd]. lia.
  - unfold bind.
    destruct (read_u32 i s) as [[id|e] s0]; [|exact I].
    destruct (read_f32 (i + 4) s0) as [[px|e] s1]; [|exact I].
    destruct (read_f32 (i + 8) s1) as [[py|e] s2]; [|exact I].
    destruct (read_f32 (i + 12) s2) as [[vx|e] s3]; [|exact I].
    destruct (read_f32 (i + 16) s3) as [[vy|e] s4]; [|exact I].
    destruct (read_f32 (i + 20) s4) as [[ax|e] s5]; [|exact I].
    destruct (read_f32 (i + 24) s5) as [[ay|e] s6]; [|exact I].
    destruct (read_floats 9 (i + 28) s6) as [[ec|e] s7]; [|exact I].
    destruct (read_f32 (i + 64) s7) as [[g|e] s8]; [|exact I].
    specialize (IH (i + 68) s8).
    destruct (read_targets n (i + 68) s8) as [[rest|e] s9]; [|exact I].
    unfold ret. cbn [fst snd] in *. lia.
Qed.

(** The sub-header read, in each of its three cases. *)
Lemma read_tlv_header_cases l s :
  len (byteBuffer s) = maxBufferSize -> 0 <= idX l -> 0 <= tlv_length l ->
  exists ty ln i,
    read_tlv_header l s = (Ok (ty, ln, i), s) /\ 0 <= ln /\
    (i = idX l + 8 \/
     (i = idX l + 4 /\ maxBufferSize < idX l + 8) \/
     (i = idX l /\ ty = 0 /\ maxBufferSize < idX l + 4)).
Proof.
  intros Hlen H0 Hl.
  destruct (Z.le_gt_cases (idX l + 8) maxBufferSize) as [H8|H8].
  - rewrite read_tlv_header_in by assumption.
    eexists _, _, _. split; [reflexivity|].
    split; [apply u32_at_nonneg | left; reflexivity].
  - destruct (Z.le_gt_cases (idX l + 4) maxBufferSize) as [H4|H4].
    + rewrite read_tlv_header_half by (assumption || lia).
      eexists _, _, _. split; [reflexivity|].
      split; [assumption | right; left; split; [reflexivity | lia]].
    + rewrite read_tlv_header_past by (assumption || lia).
      eexists _, _, _. split; [reflexivity|].
      split; [assumption | right; right; repeat split; lia].
Qed.

Lemma tlv_step_cursor frameNumber l s :
  len (byteBuffer s) = maxBufferSize -> 52 <= idX l -> 0 <= tlv_length l ->
  match fst (tlv_step frameNumber l s) with
  | Ok l' => 52 <= idX l' /\ 0 <= tlv_length l'
  | Raise _ => True
  end.
Proof.
  intros Hlen H52 Hl.
  assert (Hcap : maxBufferSize = 32768) by reflexivity.
  destruct (read_tlv_header_cases l s Hlen ltac:(lia) Hl)
    as (ty & ln & i & Hh & Hln & Hi).
  unfold tlv_step. unfold bind at 1. rewrite Hh.
  unfold tlvHeaderLengthInBytes, pointLengthInBytes, targetLengthInBytes.
  destruct (ty =? MMWDEMO_UART_MSG_POINT_CLOUD_2D).
  { unfold bind at 1. unfold check_size.
    destruct (Z.ltb_spec ((ln - 8) / 16) 0) as [?|Hq]; [exact I|].
    unfold ret at 1. unfold bind at 1.
    pose proof (read_points_cursor (Z.to_nat ((ln - 8) / 16)) i s) as Hc.
    destruct (read_points (Z.to_nat ((ln - 8) / 16)) i s) as [[r|e] s1];
      [|exact I].
    unfold ret. cbn [fst snd idX tlv_length] in *. lia. }
  destruct (Z.eqb_spec ty MMWDEMO_UART_MSG_TARGET_LIST_2D) as [Hty|Hty].
  { unfold bind at 1. unfold check_size.
    destruct (Z.ltb_spec ((ln - 8) / 68) 0) as [?|Hq]; [exact I|].
    unfold ret at 1. unfold bind at 1.
    pose proof (read_targets_cursor (Z.to_nat ((ln - 8) / 68)) i s) as Hc.
    destruct (read_targets (Z.to_nat ((ln - 8) / 68)) i s) as [[r|e] s1];
      [|exact I].
    unfold bind at 1.
    destruct (track frameNumber _ s1) as [[[]|e] s2]; [|exact I].
    unfold_monad. cbn [fst snd idX tlv_length] in *. lia. }
  destruct (Z.eqb_spec ty MMWDEMO_UART_MSG_TARGET_INDEX_2D) as [Hty8|Hty8].
  { unfold ret. cbn [fst idX tlv_length].
    unfold MMWDEMO_UART_MSG_TARGET_INDEX_2D in Hty8. lia. }
  unfold ret. cbn [fst idX tlv_length]. lia.
Qed.

Lemma tlv_step_buffer frameNumber l s :
  byteBuffer (snd (tlv_step frameNumber l s)) = byteBuffer s /\
  byteBufferLength (snd (tlv_step frameNumber l s)) = byteBufferLength s.
Proof.
  apply (tlv_step_frame
           (fun s' => byteBuffer s' = byteBuffer s /\
                      byteBufferLength s' = byteBufferLength s));
    auto.
Qed.

Lemma tlv_loop_cursor n frameNumber : forall l s,
  len (byteBuffer s) = maxBufferSize -> 52 <= idX l -> 0 <= tlv_length l ->
  match fst (tlv_loop n frameNumber l s) with
  | Ok l' => 52 <= idX l'
  | Raise _ => True
  end.
Proof.
  induction n as [|n IH]; intros l s Hlen H52 Hl; cbn [tlv_loop].
  - exact H52.
  - unfold bind.
    pose proof (tlv_step_cursor frameNumber l s Hlen H52 Hl) as Hc.
    destruct (tlv_step_buffer frameNumber l s) as [Hb _].
    destruct (tlv_step frameNumber l s) as [[l'|e] s1]; cbn [fst snd] in *;
      [|exact I].
    apply IH; [rewrite Hb; exact Hlen | apply Hc | apply Hc].
Qed.

(** ** What the decoding does to the buffer *)

Lemma decode_effect s :
  buffer_inv s -> u32_at (byteBuffer s) 20 <= byteBufferLength s ->
  match decode s with
  | (Ok r, s') =>
      byteBuffer s'
      = slice (byteBuffer s) (u32_at (byteBuffer s) 20) (byteBufferLength s)
        ++ zeros (Z.to_nat (maxBufferSize
                            - (byteBufferLength s - u32_at (byteBuffer s) 20))) /\
      byteBufferLength s' = byteBufferLength s - u32_at (byteBuffer s) 20 /\
      r_frameNumber r = u32_at (byteBuffer s) 24
  | (Raise _, s') =>
      byteBuffer s' = byteBuffer s /\ byteBufferLength s' = byteBufferLength s
  end.
Proof.
  intros Hinv Htot. pose proof Hinv as (Hlen & Hn & _).
  unfold decode. unfold bind at 1. rewrite read_header_ok by assumption.
  unfold bind at 1.
  pose proof (tlv_loop_buffer
                (Z.to_nat (dot (slice (byteBuffer s) 48 50) word16))
                (u32_at (byteBuffer s) 24)
                (mkLocals 52 0 false false None None None) s) as [Hb Hl].
  pose proof (tlv_loop_cursor
                (Z.to_nat (dot (slice (byteBuffer s) 48 50) word16))
                (u32_at (byteBuffer s) 24)
                (mkLocals 52 0 false false None None None) s Hlen
                ltac:(cbn [idX]; lia) ltac:(cbn [tlv_length]; lia)) as Hc.
  cbv zeta in Hb, Hl.
  destruct (tlv_loop _ _ _ s) as [[l|e] s1]; cbn [fst snd] in *.
  - assert (Hinv1 : buffer_inv s1) by (eapply buffer_inv_ext; eassumption).
    pose proof (u32_at_nonneg (byteBuffer s) 20) as Hpos.
    unfold_monad.
    destruct (Z.ltb_spec 0 (idX l)) as [_|?]; [|lia].
    rewrite shift_out_ok by (assumption || rewrite Hl; lia).
    rewrite clamp_length_id by (cbn [byteBufferLength]; lia).
    cbn [snd byteBuffer byteBufferLength r_frameNumber].
    rewrite Hb, Hl. repeat split.
  - split; assumption.
Qed.

Lemma buffer_whole s :
  buffer_inv s ->
  slice (byteBuffer s) 0 (byteBufferLength s)
  ++ zeros (Z.to_nat (maxBufferSize - byteBufferLength s))
  = byteBuffer s.
Proof.
  intros (Hlen & Hn & Htail).
  rewrite slice_in by lia. rewrite Z.sub_0_r.
  change (Z.to_nat 0) with 0%nat. rewrite skipn_O, <- Htail.
  apply firstn_skipn.
Qed.

(** X2. Decoding a frame whose declared length lies within the buffered
    bytes: when it returns, exactly the declared number of bytes has left
    the front of the buffer, the bytes behind them have moved to offset 0
    with zeros after them, and the frame number returned is the one of the
    header; when it raises, the buffer and its length are as before, so the
    frame is still there. *)
Theorem decode_consumes_frame (s : State) :
  buffer_inv s -> u32_at (byteBuffer s) 20 <= byteBufferLength s ->
  match decode s with
  | (Ok r, s') =>
      byteBuffer s'
      = slice (byteBuffer s) (u32_at (byteBuffer s) 20) (byteBufferLength s)
        ++ zeros (Z.to_nat (maxBufferSize
                            - (byteBufferLength s - u32_at (byteBuffer s) 20))) /\
      byteBufferLength s' = byteBufferLength s - u32_at (byteBuffer s) 20 /\
      r_frameNumber r = u32_at (byteBuffer s) 24
  | (Raise _, s') =>
      byteBuffer s' = byteBuffer s /\ byteBufferLength s' = byteBufferLength s
  end.
Proof. apply decode_effect. Qed.

Lemma decode_consumes_frame_witness :
  buffer_inv (snd (append (target_frame 20 3 f_02) init)) /\
  match decode (snd (append (target_frame 20 3 f_02) init)) with
  | (Ok r, s') => byteBufferLength s' = 0 /\ r_frameNumber r = 20
  | (Raise _, s') => byteBufferLength s' = 128
  end.
Proof.
  assert (H : buffer_inv init).
  { unfold buffer_inv, init. cbn [byteBuffer byteBufferLength].
    split; [|split].
    - unfold len. rewrite length_zeros, Z2Nat.id by lia. reflexivity.
    - unfold maxBufferSize. lia.
    - change (Z.to_nat 0) with 0%nat. rewrite skipn_O.
      rewrite Z.sub_0_r. reflexivity. }
  apply (append_inv (target_frame 20 3 f_02)) in H.
  split; [exact H|].
  assert (Ht : u32_at (byteBuffer (snd (append (target_frame 20 3 f_02) init))) 20
               <= byteBufferLength (snd (append (target_frame 20 3 f_02) init)))
    by (vm_compute; discriminate).
  pose proof (decode_consumes_frame _ H Ht) as Hd.
  destruct (decode (snd (append (target_frame 20 3 f_02) init)))
    as [[r|e] s'].
  - destruct Hd as (_ & Hl & Hf). rewrite Hl, Hf.
    split; vm_compute; reflexivity.
  - destruct Hd as (_ & Hl). rewrite Hl. vm_compute. reflexivity.
Defined.

(** ** Calls that decode nothing, and chunks that arrive in pieces *)

Lemma append_fst chunk s : buffer_inv s -> fst (append chunk s) = Ok tt.
Proof.
  intros (Hlen & Hn & _).
  destruct (Z.lt_ge_cases (byteBufferLength s + len chunk) maxBufferSize).
  - rewrite append_accept by lia. reflexivity.
  - rewrite append_reject by lia. reflexivity.
Qed.

Lemma append_synced c1 c2 s :
  len c1 + len c2 < maxBufferSize ->
  append c2 (synced s c1) = (Ok tt, synced s (c1 ++ c2)).
Proof.
  intros Hfit.
  pose proof (len_nonneg c1) as H1. pose proof (len_nonneg c2) as H2.
  destruct (synced_inv s c1 ltac:(lia)) as (Hlen & _ & _).
  rewrite append_accept by (unfold synced, byteBufferLength; assumption || lia).
  unfold synced. unfold byteBuffer, byteBufferLength, count_entered,
    count_exit, temp.
  rewrite (firstn_app_exact c1) by (unfold len; lia).
  replace (Z.to_nat (len c1 + len c2))
    with (Z.to_nat (len c2) + Z.to_nat (len c1))%nat by lia.
  rewrite <- skipn_skipn.
  rewrite (skipn_app_exact c1) by (unfold len; lia).
  rewrite skipn_zeros, len_app, app_assoc.
  replace (Z.to_nat (maxBufferSize - len c1) - Z.to_nat (len c2))%nat
    with (Z.to_nat (maxBufferSize - (len c1 + len c2))) by lia.
  reflexivity.
Qed.

Lemma after_sync_le s starts :
  byteBufferLength (after_sync s starts) <= byteBufferLength s.
Proof.
  destruct starts as [|s0 rest]; cbn [after_sync]; [lia|].
  destruct ((0 <? s0) && (s0 <? byteBufferLength s)) eqn:Hc; [|lia].
  apply andb_true_iff in Hc as [H1 _]. apply Z.ltb_lt in H1.
  cbn [byteBufferLength]. lia.
Qed.

Lemma sync_shrinks strict_shapes s :
  buffer_inv s ->
  byteBufferLength (snd (sync strict_shapes s)) <= byteBufferLength s.
Proof.
  intros Hinv.
  destruct (confirm_starts strict_shapes (byteBuffer s)
              (where_eq (byteBuffer s) (hd x00 magicWord))) as [starts|e] eqn:Hc.
  - rewrite (sync_ok _ _ _ Hinv Hc). cbn [snd].
    destruct (16 <? byteBufferLength s); [apply after_sync_le | lia].
  - rewrite (sync_raise _ _ _ Hc).
    destruct (16 <? byteBufferLength s); cbn [snd]; lia.
Qed.

Lemma decode_shrinks s :
  buffer_inv s -> u32_at (byteBuffer s) 20 <= byteBufferLength s ->
  byteBufferLength (snd (decode s)) <= byteBufferLength s.
Proof.
  intros Hinv Htot. pose proof (decode_effect s Hinv Htot) as H.
  pose proof (u32_at_nonneg (byteBuffer s) 20).
  destruct (decode s) as [[r|e] s']; cbn [snd].
  - destruct H as (_ & -> & _). lia.
  - destruct H as (_ & ->). lia.
Qed.

Lemma process_frame_shrinks strict_shapes chunk s :
  buffer_inv s ->
  byteBufferLength (snd (process_frame strict_shapes chunk s))
  <= byteBufferLength (snd (append chunk s)).
Proof.
  intros Hinv. unfold process_frame. unfold bind.
  pose proof (append_inv chunk s Hinv) as H1.
  destruct (append chunk s) as [[[]|e] s1]; cbn [snd] in *; [|lia].
  destruct (sync_inv strict_shapes s1 H1) as [H2 H3].
  pose proof (sync_shrinks strict_shapes s1 H1) as H4.
  destruct (sync strict_shapes s1) as [[b|e] s2]; cbn [fst snd] in *;
    [|assumption].
  destruct b; [|assumption].
  pose proof (decode_shrinks s2 H2 (H3 eq_refl)). lia.
Qed.

Lemma append_length chunk s :
  buffer_inv s ->
  byteBufferLength (snd (append chunk s))
  = if byteBufferLength s + len chunk <? maxBufferSize
    then byteBufferLength s + len chunk else byteBufferLength s.
Proof.
  intros (Hlen & Hn & _).
  destruct (Z.ltb_spec (byteBufferLength s + len chunk) maxBufferSize).
  - rewrite append_accept by lia. reflexivity.
  - rewrite append_reject by lia. reflexivity.
Qed.

(** X3. The buffer never fills up: from a state whose logical length is
    below 32768, every call leaves a logical length that is at most the old
    one plus the bytes received, not negative, and below 32768; so at least
    one byte of the array is never used. *)
Theorem buffer_never_full (strict_shapes : bool) (chunk : list byte)
    (s : State) :
  buffer_inv s -> byteBufferLength s < maxBufferSize ->
  0 <= byteBufferLength (snd (process_frame strict_shapes chunk s))
    <= byteBufferLength s + len chunk /\
  byteBufferLength (snd (process_frame strict_shapes chunk s)) < maxBufferSize.
Proof.
  intros Hinv Hlt.
  pose proof (process_frame_shrinks strict_shapes chunk s Hinv) as H1.
  pose proof (process_frame_inv strict_shapes chunk s Hinv) as (_ & H2 & _).
  pose proof (len_nonneg chunk) as Hc.
  rewrite append_length in H1 by assumption.
  destruct (Z.ltb_spec (byteBufferLength s + len chunk) maxBufferSize); lia.
Qed.

Lemma buffer_never_full_witness :
  buffer_inv init /\
  byteBufferLength (snd (process_frame false full_chunk init)) < maxBufferSize.
Proof.
  assert (H : buffer_inv init).
  { unfold buffer_inv, init. cbn [byteBuffer byteBufferLength].
    split; [|split].
    - unfold len. rewrite length_zeros, Z2Nat.id by lia. reflexivity.
    - unfold maxBufferSize. lia.
    - change (Z.to_nat 0) with 0%nat. rewrite skipn_O.
      rewrite Z.sub_0_r. reflexivity. }
  split; [exact H|].
  assert (Hlt : byteBufferLength init < maxBufferSize) by reflexivity.
  exact (proj2 (buffer_never_full false full_chunk init H Hlt)).
Defined.

(** X4. When the search confirms no magic word in the buffer, the call
    decodes nothing and discards nothing: it returns the empty result and
    the state is the one the append left.  If the chunk did not fit either,
    the call changes nothing at all: a buffer filled with bytes that hold no
    magic word stays as it is, whatever arrives. *)
Theorem no_marker_keeps_bytes (strict_shapes : bool) (chunk : list byte)
    (s : State) :
  buffer_inv s ->
  confirm_starts strict_shapes (byteBuffer (snd (append chunk s)))
    (where_eq (byteBuffer (snd (append chunk s))) (hd x00 magicWord)) = Ok [] ->
  process_frame strict_shapes chunk s = (Ok no_data, snd (append chunk s)) /\
  (maxBufferSize <= byteBufferLength s + len chunk ->
   process_frame strict_shapes chunk s = (Ok no_data, s)).
Proof.
  intros Hinv Hc.
  assert (Hp : process_frame strict_shapes chunk s
               = (Ok no_data, snd (append chunk s))).
  { unfold process_frame. unfold bind at 1.
    pose proof (append_fst chunk s Hinv) as Hf.
    pose proof (append_inv chunk s Hinv) as Hinv1.
    destruct (append chunk s) as [[[]|e] s1]; cbn [fst snd] in *;
      [|discriminate].
    unfold bind. rewrite (sync_ok _ _ _ Hinv1 Hc).
    rewrite andb_false_r. cbn [after_sync].
    destruct (16 <? byteBufferLength s1); reflexivity. }
  split; [exact Hp|].
  intros Hfull. rewrite Hp, append_reject by assumption. reflexivity.
Qed.

Lemma no_marker_keeps_bytes_witness :
  buffer_inv init /\
  16 < byteBufferLength (snd (append (garbage ++ garbage) init)) /\
  process_frame true (garbage ++ garbage) init
  = (Ok no_data, snd (append (garbage ++ garbage) init)) /\
  buffer_inv stuffed /\
  16 < byteBufferLength stuffed /\
  maxBufferSize <= byteBufferLength stuffed + len [x02] /\
  process_frame true [x02] stuffed = (Ok no_data, stuffed).
Proof.
  assert (H : buffer_inv init).
  { unfold buffer_inv, init. cbn [byteBuffer byteBufferLength].
    split; [|split].
    - unfold len. rewrite length_zeros, Z2Nat.id by lia. reflexivity.
    - unfold maxBufferSize. lia.
    - change (Z.to_nat 0) with 0%nat. rewrite skipn_O.
      rewrite Z.sub_0_r. reflexivity. }
  assert (Hs : buffer_inv stuffed).
  { unfold buffer_inv, stuffed. cbn [byteBuffer byteBufferLength].
    split; [|split].
    - unfold len. rewrite length_app, repeat_length. reflexivity.
    - unfold maxBufferSize. lia.
    - apply skipn_app_exact. apply repeat_length. }
  assert (Hc : confirm_starts true
                 (byteBuffer (snd (append (garbage ++ garbage) init)))
                 (where_eq (byteBuffer (snd (append (garbage ++ garbage) init)))
                    (hd x00 magicWord)) = Ok [])
    by (vm_compute; reflexivity).
  assert (Hd : confirm_starts true (byteBuffer (snd (append [x02] stuffed)))
                 (where_eq (byteBuffer (snd (append [x02] stuffed)))
                    (hd x00 magicWord)) = Ok [])
    by (vm_compute; reflexivity).
  assert (Hfull : maxBufferSize <= byteBufferLength stuffed + len [x02])
    by (vm_compute; discriminate).
  split; [exact H|].
  split; [vm_compute; reflexivity|].
  split; [exact (proj1 (no_marker_keeps_bytes true (garbage ++ garbage) init
                          H Hc))|].
  split; [exact Hs|].
  split; [reflexivity|].
  split; [exact Hfull|].
  exact (proj2 (no_marker_keeps_bytes true [x02] stuffed Hs Hd) Hfull).
Defined.

Lemma process_frame_first strict_shapes c s :
  buffer_inv s -> byteBufferLength s = 0 -> len c < maxBufferSize ->
  process_frame strict_shapes c s
  = (magicOK <- sync strict_shapes ;;
     if magicOK then decode
     else ret (mkResult false false 0 None None None)) (synced s c).
Proof.
  intros Hinv H0 Hc. unfold process_frame. unfold bind at 1.
  rewrite append_empty by assumption. reflexivity.
Qed.

Lemma process_frame_rest strict_shapes c1 c2 s :
  len c1 + len c2 < maxBufferSize ->
  process_frame strict_shapes c2 (synced s c1)
  = (magicOK <- sync strict_shapes ;;
     if magicOK then decode
     else ret (mkResult false false 0 None None None)) (synced s (c1 ++ c2)).
Proof.
  intros Hfit. unfold process_frame. unfold bind at 1.
  rewrite append_synced by assumption. reflexivity.
Qed.

Lemma front_frame (strict_shapes : bool) (f : list byte) (s : State) :
  has_prefix magicWord f = true -> 16 < len f ->
  len f < maxBufferSize - (if strict_shapes then 6 else 0) ->
  (magicOK <- sync strict_shapes ;;
   if magicOK then decode
   else ret (mkResult false false 0 None None None)) (synced s f)
  = if readyForDecode (len f) (u32_at (byteBuffer (synced s f)) 20)
    then decode (synced s f)
    else (Ok no_data, synced s f).
Proof.
  intros Hp H16 Hfit.
  assert (Hfit0 : len (@nil byte) + len f
                  < maxBufferSize - (if strict_shapes then 6 else 0))
    by (change (len (@nil byte)) with 0; lia).
  pose proof (sync_after_garbage strict_shapes [] f s eq_refl Hp H16 Hfit0)
    as Hs.
  rewrite app_nil_l in Hs.
  unfold bind. rewrite Hs.
  destruct (readyForDecode _ _); reflexivity.
Qed.

Lemma short_buffer_waits strict_shapes c s :
  len c <= 16 ->
  (magicOK <- sync strict_shapes ;;
   if magicOK then decode
   else ret (mkResult false false 0 None None None)) (synced s c)
  = (Ok no_data, synced s c).
Proof.
  intros H16. unfold sync. unfold_monad.
  change (byteBufferLength (synced s c)) with (len c).
  destruct (Z.ltb_spec 16 (len c)); [lia|]. reflexivity.
Qed.

Lemma u32_at_app_l (a b : list byte) i :
  0 <= i -> i + 4 <= len a -> u32_at (a ++ b) i = u32_at a i.
Proof.
  intros H0 H4. unfold u32_at.
  pose proof (len_nonneg b).
  rewrite !slice_in by (rewrite ?len_app; lia).
  rewrite skipn_app, firstn_app, length_skipn.
  replace (Z.to_nat (i + 4 - i) - (length a - Z.to_nat i))%nat with 0%nat
    by (unfold len in H4; lia).
  rewrite firstn_O, app_nil_r. reflexivity.
Qed.

(** X5. A frame may arrive in two chunks: when the first chunk has at most
    16 bytes, or starts with the magic word, has at least 24 bytes and fewer
    than the total packet length it declares, the first call returns the
    empty result and keeps the bytes, and the second call gives the result
    and the state that one call with both chunks together gives. *)
Theorem two_chunks_as_one (strict_shapes : bool) (c1 c2 : list byte)
    (s : State) :
  buffer_inv s -> byteBufferLength s = 0 ->
  len c1 + len c2 < maxBufferSize - (if strict_shapes then 6 else 0) ->
  len c1 <= 16 \/
  (has_prefix magicWord c1 = true /\ 24 <= len c1 < u32_at c1 20) ->
  process_frame strict_shapes c1 s = (Ok no_data, synced s c1) /\
  process_frame strict_shapes c2 (snd (process_frame strict_shapes c1 s))
  = process_frame strict_shapes (c1 ++ c2) s.
Proof.
  intros Hinv H0 Hfit Hc1.
  pose proof (len_nonneg c1) as H1. pose proof (len_nonneg c2) as H2.
  assert (Hfit' : len c1 + len c2 < maxBufferSize)
    by (destruct strict_shapes; lia).
  assert (Hfirst : process_frame strict_shapes c1 s = (Ok no_data, synced s c1)).
  { rewrite process_frame_first by (assumption || lia).
    destruct Hc1 as [H16|(Hp & H24 & Htot)].
    - apply short_buffer_waits, H16.
    - rewrite front_frame by (assumption || destruct strict_shapes; lia).
      unfold synced at 1. unfold byteBuffer.
      rewrite u32_at_app_l by lia.
      replace (readyForDecode (len c1) (u32_at c1 20)) with false;
        [reflexivity|].
      symmetry. unfold readyForDecode.
      destruct (Z.leb_spec (u32_at c1 20) (len c1)); [lia | reflexivity]. }
  split; [exact Hfirst|].
  rewrite Hfirst. cbn [snd].
  rewrite process_frame_rest by assumption.
  rewrite process_frame_first by (assumption || rewrite len_app; lia).
  reflexivity.
Qed.

Lemma two_chunks_as_one_witness :
  buffer_inv init /\
  process_frame true (skipn 30 (target_frame 20 3 f_02))
    (snd (process_frame true (firstn 30 (target_frame 20 3 f_02)) init))
  = process_frame true
      (firstn 30 (target_frame 20 3 f_02) ++ skipn 30 (target_frame 20 3 f_02))
      init.
Proof.
  assert (H : buffer_inv init).
  { unfold buffer_inv, init. cbn [byteBuffer byteBufferLength].
    split; [|split].
    - unfold len. rewrite length_zeros, Z2Nat.id by lia. reflexivity.
    - unfold maxBufferSize. lia.
    - change (Z.to_nat 0) with 0%nat. rewrite skipn_O.
      rewrite Z.sub_0_r. reflexivity. }
  split; [exact H|].
  apply (two_chunks_as_one true (firstn 30 (target_frame 20 3 f_02))
           (skipn 30 (target_frame 20 3 f_02)) init H).
  - reflexivity.
  - vm_compute. reflexivity.
  - right. vm_compute. repeat split; congruence.
Defined.

Lemma slice_tail s i k :
  buffer_inv s -> byteBufferLength s <= i -> i + Z.of_nat k <= maxBufferSize ->
  slice (byteBuffer s) i (i + Z.of_nat k) = zeros k.
Proof.
  intros (Hlen & Hn & Htail) Hi Hk.
  rewrite slice_in by lia.
  replace (Z.to_nat i)
    with (Z.to_nat (i - byteBufferLength s) + Z.to_nat (byteBufferLength s))%nat
    by lia.
  rewrite <- skipn_skipn, Htail, skipn_zeros, firstn_zeros by lia.
  f_equal. lia.
Qed.

Lemma decode_no_records s :
  buffer_inv s -> byteBufferLength s <= 48 ->
  u32_at (byteBuffer s) 20 <= byteBufferLength s ->
  decode s
  = (Ok (mkResult false false (u32_at (byteBuffer s) 24) None None None),
     mkState
       (slice (byteBuffer s) (u32_at (byteBuffer s) 20) (byteBufferLength s)
        ++ zeros (Z.to_nat (maxBufferSize
                            - (byteBufferLength s - u32_at (byteBuffer s) 20))))
       (byteBufferLength s - u32_at (byteBuffer s) 20)
       (count_entered s) (count_exit s) (temp s)).
Proof.
  intros Hinv H48 Htot. pose proof Hinv as (Hlen & Hn & _).
  pose proof (u32_at_nonneg (byteBuffer s) 20) as Hpos.
  unfold decode. unfold bind at 1. rewrite read_header_ok by assumption.
  change 50 with (48 + Z.of_nat 2).
  rewrite (slice_tail s 48 2 Hinv) by (unfold maxBufferSize; lia).
  change (Z.to_nat (dot (zeros 2) word16)) with 0%nat.
  unfold tlv_loop. unfold_monad.
  cbn [idX dataOK targetDetected out targetObj pointObj].
  change (0 <? 52) with true. cbv beta iota.
  rewrite shift_out_ok by (assumption || lia).
  rewrite clamp_length_id by (cbn [byteBufferLength]; lia).
  reflexivity.
Qed.

(** X6. A call does not wait for the 52 bytes of a header.  With 17 to 48
    bytes buffered that start with the magic word, the total packet length
    is read at offset 20 with zeros for the bytes that have not arrived; if
    it does not exceed the buffered length, the call returns at once a
    result without records and drops that many bytes from the front of the
    buffer. *)
Theorem partial_header_decoded (strict_shapes : bool) (c : list byte)
    (s : State) :
  buffer_inv s -> byteBufferLength s = 0 ->
  has_prefix magicWord c = true -> 16 < len c <= 48 ->
  u32_at (byteBuffer (synced s c)) 20 <= len c ->
  process_frame strict_shapes c s
  = (Ok (mkResult false false (u32_at (byteBuffer (synced s c)) 24)
           None None None),
     mkState
       (slice (byteBuffer (synced s c)) (u32_at (byteBuffer (synced s c)) 20)
          (len c)
        ++ zeros (Z.to_nat (maxBufferSize
                            - (len c - u32_at (byteBuffer (synced s c)) 20))))
       (len c - u32_at (byteBuffer (synced s c)) 20)
       (count_entered s) (count_exit s) (temp s)).
Proof.
  intros Hinv H0 Hp Hlen Htot.
  assert (Hcap : maxBufferSize = 32768) by reflexivity.
  rewrite process_frame_first by (assumption || lia).
  rewrite front_frame by (assumption || destruct strict_shapes; lia).
  replace (readyForDecode (len c) (u32_at (byteBuffer (synced s c)) 20))
    with true by (symmetry; apply readyForDecode_true; lia).
  assert (Hinv' : buffer_inv (synced s c)) by (apply synced_inv; lia).
  assert (Hl : byteBufferLength (synced s c) = len c) by reflexivity.
  rewrite decode_no_records by (assumption || rewrite Hl; (assumption || lia)).
  rewrite Hl. reflexivity.
Qed.

Lemma partial_header_decoded_witness :
  buffer_inv init /\
  fst (process_frame true (firstn 21 (header 261 7 1)) init)
  = Ok (mkResult false false 0 None None None) /\
  byteBufferLength (snd (process_frame true (firstn 21 (header 261 7 1)) init))
  = 16.
Proof.
  assert (H : buffer_inv init).
  { unfold buffer_inv, init. cbn [byteBuffer byteBufferLength].
    split; [|split].
    - unfold len. rewrite length_zeros, Z2Nat.id by lia. reflexivity.
    - unfold maxBufferSize. lia.
    - change (Z.to_nat 0) with 0%nat. rewrite skipn_O.
      rewrite Z.sub_0_r. reflexivity. }
  split; [exact H|].
  rewrite (partial_header_decoded true (firstn 21 (header 261 7 1)) init H).
  - cbn [fst snd byteBufferLength]. split; vm_compute; reflexivity.
  - reflexivity.
  - vm_compute. reflexivity.
  - vm_compute. split; congruence.
  - vm_compute. congruence.
Defined.

(** X7. A frame that declares the total packet length 0 is never consumed.
    With such a frame at the front of the buffer a call without new bytes
    decodes it and leaves the buffer and the logical length as they were, so
    the next call finds the same frame and decodes it again. *)
Theorem zero_length_frame_stays (strict_shapes : bool) (f : list byte)
    (s : State) :
  has_prefix magicWord f = true -> 16 < len f ->
  len f < maxBufferSize - (if strict_shapes then 6 else 0) ->
  u32_at (byteBuffer (synced s f)) 20 = 0 ->
  process_frame strict_shapes [] (synced s f) = decode (synced s f) /\
  byteBuffer (snd (decode (synced s f))) = byteBuffer (synced s f) /\
  byteBufferLength (snd (decode (synced s f))) = len f /\
  snd (decode (synced s f)) = synced (snd (decode (synced s f))) f.
Proof.
  intros Hp H16 Hfit Hz.
  assert (Hfit' : len f < maxBufferSize) by (destruct strict_shapes; lia).
  assert (Hinv : buffer_inv (synced s f)) by (apply synced_inv; lia).
  split.
  - pose proof (process_frame_rest strict_shapes f [] s) as Hr.
    rewrite app_nil_r in Hr. rewrite Hr by (change (len (@nil byte)) with 0; lia).
    rewrite front_frame by assumption.
    rewrite Hz.
    replace (readyForDecode (len f) 0) with true; [reflexivity|].
    symmetry. apply readyForDecode_true. lia.
  - assert (Hb : byteBuffer (snd (decode (synced s f))) = byteBuffer (synced s f)
                 /\ byteBufferLength (snd (decode (synced s f))) = len f).
    { pose proof (decode_effect (synced s f) Hinv) as Hd.
      rewrite Hz in Hd.
      specialize (Hd ltac:(unfold synced, byteBufferLength; lia)).
      destruct (decode (synced s f)) as [[r|e] s']; cbn [snd].
      - destruct Hd as (Hb & Hl & _).
        rewrite Z.sub_0_r in Hb, Hl.
        rewrite (buffer_whole _ Hinv) in Hb. split; assumption.
      - exact Hd. }
    destruct Hb as [Hb Hl]. split; [exact Hb|]. split; [exact Hl|].
    destruct (snd (decode (synced s f))) as [b n ce cx t].
    unfold byteBuffer in Hb at 1. unfold byteBufferLength in Hl.
    subst b n. reflexivity.
Qed.

Lemma zero_length_frame_stays_witness :
  has_prefix magicWord zero_length_frame = true /\
  process_frame false [] (synced init zero_length_frame)
  = decode (synced init zero_length_frame).
Proof.
  assert (Hp : has_prefix magicWord zero_length_frame = true)
    by (vm_compute; reflexivity).
  split; [exact Hp|].
  assert (H16 : 16 < len zero_length_frame) by (vm_compute; reflexivity).
  assert (Hfit : len zero_length_frame < maxBufferSize - 0)
    by (vm_compute; reflexivity).
  assert (Hz : u32_at (byteBuffer (synced init zero_length_frame)) 20 = 0)
    by (vm_compute; reflexivity).
  exact (proj1 (zero_length_frame_stays false zero_length_frame init Hp H16
                  Hfit Hz)).
Defined.

(** ** Histories and counts *)

Lemma where_true_from_none m : forall i,
  Forall (fun b => b = false) m -> where_true_from i m = [].
Proof.
  induction m as [|b m IH]; intros i H; [reflexivity|].
  inversion H; subst. cbn [where_true_from]. apply IH. assumption.
Qed.

Lemma diff_bool_const b m :
  Forall (fun a => a = b) m -> Forall (fun a => a = false) (diff_bool m).
Proof.
  induction m as [|a [|a' m] IH]; intros H; [constructor..|].
  inversion H as [|? ? Ha H']; subst.
  inversion H' as [|? ? Ha' H'']; subst.
  change (diff_bool (b :: b :: m)) with (xorb b b :: diff_bool (b :: m)).
  constructor; [apply xorb_nilpotent | apply IH, H'].
Qed.

Lemma zero_crossing_none b h :
  Forall (fun v => sign_ge0 v = b) h -> zero_crossing_site h = [].
Proof.
  intros H. unfold zero_crossing_site, where_true.
  apply where_true_from_none, (diff_bool_const b).
  induction H; constructor; assumption.
Qed.

Lemma same_side_Forall b xs :
  same_side b xs = true ->
  Forall (fun x => in_band x = true) xs /\
  Forall (fun x => sign_ge0 x = b) xs.
Proof.
  unfold same_side. induction xs as [|x xs IH]; intros H.
  - split; constructor.
  - cbn [forallb] in H. apply andb_true_iff in H as [Hx Hxs].
    apply andb_true_iff in Hx as [Hb Hs]. apply eqb_prop in Hs.
    destruct (IH Hxs). split; constructor; assumption.
Qed.

Lemma feed_same_side b id : forall frames s h,
  temp s !! id = Some h ->
  Forall (fun v => sign_ge0 v = b) h ->
  same_side b (map snd frames) = true ->
  feed id frames s
  = (Ok tt, set_temp (<[id := h ++ map snd frames]> (temp s)) s).
Proof.
  induction frames as [|[fn x] rest IH]; intros s h Hh Hside Hxs.
  - cbn [feed map]. unfold ret. rewrite app_nil_r.
    rewrite insert_id by assumption. destruct s; reflexivity.
  - cbn [map snd] in Hxs. unfold same_side in Hxs. cbn [forallb] in Hxs.
    apply andb_true_iff in Hxs as [Hx Hrest].
    apply andb_true_iff in Hx as [Hb Hs]. apply eqb_prop in Hs.
    assert (Hall : Forall (fun v => sign_ge0 v = b) (h ++ [x])).
    { apply Forall_app. split; [assumption|]. constructor; [assumption|constructor]. }
    cbn [feed]. unfold bind.
    rewrite (track_store fn id x [] s h Hb Hh)
      by (right; apply (zero_crossing_none b); assumption).
    cbn [track]. unfold ret.
    rewrite (IH _ (h ++ [x])); [|apply lookup_insert_eq|assumption|assumption].
    cbn [map snd temp set_temp]. rewrite insert_insert_eq, <- app_assoc.
    reflexivity.
Qed.

(** X8. The history of a target that does not cross is never cleared.  When
    the samples of a target, over any number of frames with any frame
    numbers, all lie in the band and on the same side of zero as the samples
    already in its history, each of them is added to the history, and the
    counters and the other histories stay as they are: the history grows by
    one sample per frame without bound. *)
Theorem history_only_grows (b : bool) (id : Z) (frames : list (Z * Z))
    (s : State) (h : list Z) :
  temp s !! id = Some h ->
  same_side b h = true ->
  same_side b (map snd frames) = true ->
  feed id frames s
  = (Ok tt,
     mkState (byteBuffer s) (byteBufferLength s) (count_entered s)
       (count_exit s) (<[id := h ++ map snd frames]> (temp s))).
Proof.
  intros Hh Hside Hxs.
  apply same_side_Forall in Hside as [_ Hside].
  apply (feed_same_side b); assumption.
Qed.

Lemma history_only_grows_witness :
  temp init !! 3 = Some [] /\
  feed 3 [(20, f_m03); (40, f_m01); (60, f_m03)] init
  = (Ok tt,
     mkState (byteBuffer init) (byteBufferLength init) (count_entered init)
       (count_exit init) (<[3 := [] ++ [f_m03; f_m01; f_m03]]> (temp init))).
Proof.
  assert (Hh : temp init !! 3 = Some []) by (vm_compute; reflexivity).
  split; [exact Hh|].
  apply (history_only_grows false 3 [(20, f_m03); (40, f_m01); (60, f_m03)]
           init [] Hh).
  - reflexivity.
  - vm_compute. reflexivity.
Defined.

Lemma track_count frameNumber ts : forall s,
  let s' := snd (track frameNumber ts s) in
  (count_entered s' = count_entered s /\ count_exit s' = count_exit s) \/
  (count_entered s' = count_entered s + 1 /\ count_exit s' = count_exit s) \/
  (count_entered s' = count_entered s /\ count_exit s' = count_exit s + 1).
Proof.
  induction ts as [|[id x] rest IH]; intros s; cbv zeta.
  - left. split; reflexivity.
  - destruct (in_band x) eqn:Hb.
    + destruct (temp s !! id) as [h|] eqn:Hh.
      * destruct (Z.eq_dec (frameNumber mod 20) 0) as [Hf|Hf].
        -- destruct (zero_crossing_site (h ++ [x])) as [|k ks] eqn:Hz.
           ++ rewrite (track_store _ _ _ _ _ h) by auto.
              exact (IH (set_temp (<[id:=h ++ [x]]> (temp s)) s)).
           ++ destruct (zero_crossing_sample _ _ _ Hz) as [v Hv].
              rewrite (track_cross _ _ _ _ _ h k ks v) by assumption.
              cbn [snd]. destruct (is_neg v); cbn [count_entered count_exit];
                [right; left | right; right]; split; reflexivity.
        -- rewrite (track_store _ _ _ _ _ h) by auto.
           exact (IH (set_temp (<[id:=h ++ [x]]> (temp s)) s)).
      * rewrite track_missing by assumption. left. split; reflexivity.
    + rewrite track_skip by assumption. apply IH.
Qed.

(** X9. One target list changes the counters by at most one crossing: after
    its occupancy update, however it ends, either both counters are as
    before, or [count_entered] is one more and [count_exit] as before, or
    the other way round. *)
Theorem one_count_per_target_list (frameNumber : Z) (ts : list (Z * Z))
    (s : State) :
  (count_entered (snd (track frameNumber ts s)) = count_entered s /\
   count_exit (snd (track frameNumber ts s)) = count_exit s) \/
  (count_entered (snd (track frameNumber ts s)) = count_entered s + 1 /\
   count_exit (snd (track frameNumber ts s)) = count_exit s) \/
  (count_entered (snd (track frameNumber ts s)) = count_entered s /\
   count_exit (snd (track frameNumber ts s)) = count_exit s + 1).
Proof. apply (track_count frameNumber ts s). Qed.

(** X10. A counted crossing ends the loop over the target list.  When, in a
    frame whose number is a multiple of 20, the target in the band at the
    head of the list shows a crossing in its history, the targets behind it
    are not visited: the outcome is the one of the list with that target
    alone, and every other history is as before. *)
Theorem crossing_skips_the_rest (frameNumber id x : Z) (rest : list (Z * Z))
    (s : State) (h : list Z) :
  in_band x = true -> temp s !! id = Some h -> frameNumber mod 20 = 0 ->
  zero_crossing_site (h ++ [x]) <> [] ->
  track frameNumber ((id, x) :: rest) s = track frameNumber [(id, x)] s /\
  forall id', id' <> id ->
    temp (snd (track frameNumber ((id, x) :: rest) s)) !! id' = temp s !! id'.
Proof.
  intros Hb Hh Hf Hz.
  destruct (zero_crossing_site (h ++ [x])) as [|k ks] eqn:Hk; [congruence|].
  destruct (zero_crossing_sample _ _ _ Hk) as [v Hv].
  rewrite (track_cross _ _ _ rest _ h k ks v) by assumption.
  rewrite (track_cross _ _ _ [] _ h k ks v) by assumption.
  split; [reflexivity|].
  intros id' Hne. cbn [snd].
  destruct (is_neg v); cbn [temp];
    rewrite !lookup_insert_ne by congruence; reflexivity.
Qed.

Lemma crossing_skips_the_rest_witness :
  in_band f_02 = true /\
  track 20 [(3, f_02); (9, f_1); (4, f_m01)]
    (set_temp (<[3 := [f_m03]]> (temp init)) init)
  = track 20 [(3, f_02)] (set_temp (<[3 := [f_m03]]> (temp init)) init).
Proof.
  assert (Hb : in_band f_02 = true) by (vm_compute; reflexivity).
  split; [exact Hb|].
  assert (Hh : temp (set_temp (<[3 := [f_m03]]> (temp init)) init) !! 3
               = Some [f_m03]) by (vm_compute; reflexivity).
  assert (Hf : 20 mod 20 = 0) by reflexivity.
  assert (Hz : zero_crossing_site ([f_m03] ++ [f_02]) <> [])
    by (vm_compute; discriminate).
  exact (proj1 (crossing_skips_the_rest 20 3 f_02 [(9, f_1); (4, f_m01)] _
                  [f_m03] Hb Hh Hf Hz)).
Defined.

(** ** What a call passes through unchanged *)

Section Through.

Variable strict_shapes : bool.
Variable P : State -> Prop.
Hypothesis P_buffer : forall b s, P s -> P (set_byteBuffer b s).
Hypothesis P_length : forall n s, P s -> P (set_byteBufferLength n s).
Hypothesis P_track : forall frameNumber ts, preserves P (track frameNumber ts).

Lemma process_frame_through c : preserves P (process_frame strict_shapes c).
Proof.
  assert (Hshift : forall k, preserves P (shift_out k))
    by (intros k; unfold shift_out; repeat pres_step; auto).
  assert (Hclamp : preserves P clamp_length)
    by (unfold clamp_length; repeat pres_step; auto).
  assert (Hstep : forall fn l, preserves P (tlv_step fn l))
    by (intros fn l; unfold tlv_step; repeat pres_step; apply P_track).
  assert (Hloop : forall n fn l, preserves P (tlv_loop n fn l)).
  { induction n as [|n IH]; intros fn l; cbn [tlv_loop].
    - auto with pres.
    - apply preserves_bind; [apply Hstep | intros l'; apply IH]. }
  unfold process_frame. apply preserves_bind; [|intros _].
  { unfold append. repeat pres_step; auto. }
  apply preserves_bind; [|intros [|]].
  - unfold sync. repeat pres_step; auto.
  - unfold decode, read_header. repeat pres_step; auto.
  - auto with pres.
Qed.

End Through.

Lemma dom_insert_existing (t : gmap Z (list Z)) id h v :
  t !! id = Some h -> dom (<[id := v]> t) = dom t.
Proof.
  intros H. rewrite dom_insert_L. apply elem_of_dom_2 in H.
  apply set_eq. intros j. rewrite elem_of_union, elem_of_singleton.
  split; [intros [->|Hj]; assumption | intros Hj; right; exact Hj].
Qed.

Lemma track_dom frameNumber ts : forall s,
  dom (temp (snd (track frameNumber ts s))) = dom (temp s).
Proof.
  induction ts as [|[id x] rest IH]; intros s.
  - reflexivity.
  - destruct (in_band x) eqn:Hb.
    + destruct (temp s !! id) as [h|] eqn:Hh.
      * assert (Hd : dom (<[id := h ++ [x]]> (temp s)) = dom (temp s))
          by (eapply dom_insert_existing; eassumption).
        destruct (Z.eq_dec (frameNumber mod 20) 0) as [Hf|Hf].
        -- destruct (zero_crossing_site (h ++ [x])) as [|k ks] eqn:Hz.
           ++ rewrite (track_store _ _ _ _ _ h) by auto.
              rewrite IH. exact Hd.
           ++ destruct (zero_crossing_sample _ _ _ Hz) as [v Hv].
              rewrite (track_cross _ _ _ _ _ h k ks v) by assumption.
              cbn [snd]. destruct (is_neg v); cbn [temp];
                rewrite (dom_insert_existing _ id (h ++ [x]))
                  by apply lookup_insert_eq; exact Hd.
        -- rewrite (track_store _ _ _ _ _ h) by auto.
           rewrite IH. exact Hd.
      * rewrite track_missing by assumption. reflexivity.
    + rewrite track_skip by assumption. apply IH.
Qed.

Lemma process_frame_dom strict_shapes c s :
  dom (temp (snd (process_frame strict_shapes c s))) = dom (temp s).
Proof.
  apply (process_frame_through strict_shapes
           (fun s' => dom (temp s') = dom (temp s))); auto.
  intros fn ts s' H. rewrite track_dom. exact H.
Qed.

Lemma init_keys id : is_Some (temp init !! id) <-> 0 <= id < 7.
Proof.
  unfold init. cbn [temp map list_to_map foldr fst snd uncurry].
  unfold curry, uncurry. cbn [fst snd].
  rewrite !lookup_insert, lookup_empty.
  repeat case_decide; subst; split; intros Hx;
    try lia; try (eexists; reflexivity); try (destruct Hx; discriminate).
Qed.

(** X11. The history table keeps the seven ids it starts with: after every
    sequence of calls from the initial state, whatever the bytes and however
    the calls end, a target id has a history exactly when it lies between 0
    and 6; no call adds or removes a key. *)
Theorem history_keys_fixed (strict_shapes : bool) (chunks : list (list byte))
    (id : Z) :
  is_Some (temp (run strict_shapes chunks init) !! id) <-> 0 <= id < 7.
Proof.
  rewrite <- init_keys, <- !elem_of_dom.
  assert (H : forall s, dom (temp (run strict_shapes chunks s)) = dom (temp s)).
  { induction chunks as [|c cs IH]; intros s; cbn [run]; [reflexivity|].
    rewrite IH. apply process_frame_dom. }
  rewrite H. reflexivity.
Qed.

(** ** Integers on the wire *)

Lemma byte_val_of_Z z : byte_val (byte_of_Z z) = z mod 256.
Proof.
  unfold byte_of_Z, byte_val.
  pose proof (Z.mod_pos_bound z 256 ltac:(lia)) as Hm.
  destruct (Byte.of_N (Z.to_N (z mod 256))) as [b|] eqn:E.
  - apply Byte.to_of_N in E. rewrite E. lia.
  - apply Byte.of_N_None_iff in E. lia.
Qed.

Lemma dot_u32le z : 0 <= z < 2 ^ 32 -> dot (u32le z) word32 = z.
Proof.
  intros Hz. unfold u32le, word32. cbn [dot].
  rewrite !byte_val_of_Z.
  change (2 ^ 8) with 256. change (2 ^ 16) with (256 * 256).
  change (2 ^ 24) with (256 * 256 * 256).
  change (2 ^ 32) with (256 * 256 * 256 * 256) in Hz.
  rewrite <- !Z.div_div by lia.
  pose proof (Z.div_mod z 256 ltac:(lia)).
  pose proof (Z.div_mod (z / 256) 256 ltac:(lia)).
  pose proof (Z.div_mod (z / 256 / 256) 256 ltac:(lia)).
  pose proof (Z.mod_pos_bound z 256 ltac:(lia)).
  pose proof (Z.mod_pos_bound (z / 256) 256 ltac:(lia)).
  pose proof (Z.mod_pos_bound (z / 256 / 256) 256 ltac:(lia)).
  assert (0 <= z / 256 / 256 / 256 < 256).
  { split; [repeat apply Z.div_pos; lia|].
    repeat (apply Z.div_lt_upper_bound; [lia|]). lia. }
  rewrite (Z.mod_small (z / 256 / 256 / 256)) by lia.
  lia.
Qed.


(** ** A point cloud, encoded and decoded *)

Lemma header_slices total fn n (r : list byte) :
  slice (header total fn n ++ r) 20 24 = u32le total /\
  slice (header total fn n ++ r) 24 28 = u32le fn /\
  slice (header total fn n ++ r) 48 50 = u16le n.
Proof.
  assert (Hl : len (header total fn n ++ r) = 52 + len r)
    by (rewrite len_app; reflexivity).
  pose proof (len_nonneg r).
  rewrite !slice_in by lia.
  repeat split; reflexivity.
Qed.

Lemma tlv_slices total fn n ty ln (r : list byte) :
  slice (header total fn n ++ u32le ty ++ u32le ln ++ r) 52 56 = u32le ty /\
  slice (header total fn n ++ u32le ty ++ u32le ln ++ r) 56 60 = u32le ln /\
  skipn 60 (header total fn n ++ u32le ty ++ u32le ln ++ r) = r.
Proof.
  assert (Hl : len (header total fn n ++ u32le ty ++ u32le ln ++ r)
               = 60 + len r).
  { rewrite !len_app.
    change (len (header total fn n)) with 52.
    change (len (u32le ty)) with 4. change (len (u32le ln)) with 4. lia. }
  pose proof (len_nonneg r).
  rewrite !slice_in by lia.
  repeat split; reflexivity.
Qed.

Lemma read_f32_at i z rest s :
  0 <= i -> skipn (Z.to_nat i) (byteBuffer s) = u32le z ++ rest ->
  0 <= z < 2 ^ 32 ->
  read_f32 i s = (Ok z, s) /\
  skipn (Z.to_nat (i + 4)) (byteBuffer s) = rest.
Proof.
  intros H0 Hs Hz.
  assert (Hlen : i + 4 <= len (byteBuffer s)).
  { apply (f_equal (@length byte)) in Hs.
    rewrite length_skipn, length_app in Hs. cbn [u32le length] in Hs.
    unfold len. lia. }
  split.
  - rewrite read_f32_ok by lia. unfold u32_at.
    rewrite slice_in by lia.
    replace (Z.to_nat (i + 4 - i)) with 4%nat by lia.
    rewrite Hs, (firstn_app_exact (u32le z)) by reflexivity.
    rewrite dot_u32le by assumption. reflexivity.
  - replace (Z.to_nat (i + 4)) with (4 + Z.to_nat i)%nat by lia.
    rewrite <- skipn_skipn, Hs.
    apply (skipn_app_exact (u32le z)). reflexivity.
Qed.

Lemma is_u32_range z : is_u32 z = true -> 0 <= z < 2 ^ 32.
Proof.
  unfold is_u32. rewrite andb_true_iff, Z.leb_le, Z.ltb_lt. tauto.
Qed.

Lemma read_points_at pts : forall i rest s,
  0 <= i -> forallb point_ok pts = true ->
  skipn (Z.to_nat i) (byteBuffer s) = concat (map enc_point pts) ++ rest ->
  read_points (length pts) i s = (Ok (pts, i + 16 * len pts), s).
Proof.
  induction pts as [|[r a d q] pts IH]; intros i rest s H0 Hok Hs.
  - cbn [length read_points]. unfold ret, len. cbn [length].
    do 3 f_equal. lia.
  - cbn [forallb] in Hok. apply andb_true_iff in Hok as [Hp Hpts].
    unfold point_ok in Hp. cbn [p_range p_azimuth p_doppler p_snr] in Hp.
    apply andb_true_iff in Hp as [Hp Hq].
    apply andb_true_iff in Hp as [Hp Hd].
    apply andb_true_iff in Hp as [Hr Ha].
    apply is_u32_range in Hr, Ha, Hd, Hq.
    cbn [map concat enc_point p_range p_azimuth p_doppler p_snr] in Hs.
    unfold point_bytes in Hs. rewrite <- !app_assoc in Hs.
    destruct (read_f32_at i r _ s H0 Hs Hr) as [E1 S1].
    destruct (read_f32_at (i + 4) a _ s ltac:(lia) S1 Ha) as [E2 S2].
    destruct (read_f32_at (i + 4 + 4) d _ s ltac:(lia) S2 Hd) as [E3 S3].
    destruct (read_f32_at (i + 4 + 4 + 4) q _ s ltac:(lia) S3 Hq) as [E4 S4].
    replace (i + 4 + 4) with (i + 8) in * by lia.
    replace (i + 8 + 4) with (i + 12) in * by lia.
    replace (i + 12 + 4) with (i + 16) in * by lia.
    cbn [length read_points]. unfold bind.
    rewrite E1, E2, E3, E4.
    rewrite (IH (i + 16) rest s ltac:(lia) Hpts S4).
    unfold ret, len. cbn [fst snd length]. do 3 f_equal. lia.
Qed.

Lemma len_points pts : len (concat (map enc_point pts)) = 16 * len pts.
Proof.
  induction pts as [|p pts IH]; [reflexivity|].
  cbn [map concat]. rewrite len_app, IH.
  unfold len. cbn [length]. change (length (enc_point p)) with 16%nat. lia.
Qed.

Lemma len_point_cloud_frame fn pts :
  len (point_cloud_frame fn pts) = 60 + 16 * len pts.
Proof.
  unfold point_cloud_frame. rewrite !len_app, len_points.
  change (len (header (60 + 16 * len pts) fn 1)) with 52.
  change (len (u32le 6)) with 4.
  change (len (u32le (8 + 16 * len pts))) with 4. lia.
Qed.

Lemma slice_empty {A} (a : list A) i :
  0 <= i <= len a -> slice a i i = [].
Proof.
  intros H. rewrite slice_in by lia. rewrite Z.sub_diag. reflexivity.
Qed.

Lemma decode_point_cloud s total fn pts (r : list byte) :
  buffer_inv s ->
  byteBuffer s
  = header total fn 1 ++ u32le 6 ++ u32le (8 + 16 * len pts)
    ++ concat (map enc_point pts) ++ r ->
  0 <= total <= byteBufferLength s -> total < 2 ^ 32 ->
  is_u32 fn = true -> forallb point_ok pts = true ->
  decode s
  = (Ok (mkResult true false fn None None
           (Some (mkPointObj (len pts) (map p_range pts) (map p_azimuth pts)
                    (map p_doppler pts) (map p_snr pts)))),
     mkState
       (slice (byteBuffer s) total (byteBufferLength s)
        ++ zeros (Z.to_nat (maxBufferSize - (byteBufferLength s - total))))
       (byteBufferLength s - total) (count_entered s) (count_exit s) (temp s)).
Proof.
  intros Hinv Hbuf Htot Htot32 Hfn Hok.
  pose proof Hinv as (Hlen & Hn & _).
  apply is_u32_range in Hfn.
  pose proof (len_nonneg pts) as Hpts.
  assert (Hcap : maxBufferSize = 32768) by reflexivity.
  assert (Hfit : 60 + 16 * len pts <= maxBufferSize).
  { rewrite <- Hlen, Hbuf, !len_app, len_points.
    change (len (header total fn 1)) with 52.
    change (len (u32le 6)) with 4.
    change (len (u32le (8 + 16 * len pts))) with 4.
    pose proof (len_nonneg r). lia. }
  destruct (header_slices total fn 1
              (u32le 6 ++ u32le (8 + 16 * len pts)
               ++ concat (map enc_point pts) ++ r)) as (S20 & S24 & S48).
  destruct (tlv_slices total fn 1 6 (8 + 16 * len pts)
              (concat (map enc_point pts) ++ r)) as (S52 & S56 & S60).
  rewrite <- Hbuf in S20, S24, S48, S52, S56, S60.
  assert (E20 : u32_at (byteBuffer s) 20 = total)
    by (unfold u32_at; change (20 + 4) with 24; rewrite S20;
        apply dot_u32le; lia).
  assert (E24 : u32_at (byteBuffer s) 24 = fn)
    by (unfold u32_at; change (24 + 4) with 28; rewrite S24;
        apply dot_u32le; lia).
  assert (E48 : dot (slice (byteBuffer s) 48 50) word16 = 1)
    by (rewrite S48; reflexivity).
  assert (E52 : u32_at (byteBuffer s) 52 = 6)
    by (unfold u32_at; change (52 + 4) with 56; rewrite S52; reflexivity).
  assert (E56 : u32_at (byteBuffer s) 56 = 8 + 16 * len pts)
    by (unfold u32_at; change (56 + 4) with 60; rewrite S56;
        apply dot_u32le; lia).
  assert (Estep : tlv_step fn (mkLocals 52 0 false false None None None) s
                  = (Ok (mkLocals (60 + 16 * len pts) (8 + 16 * len pts) true
                           false None None
                           (Some (mkPointObj (len pts) (map p_range pts)
                                    (map p_azimuth pts) (map p_doppler pts)
                                    (map p_snr pts)))), s)).
  { unfold tlv_step. unfold bind at 1.
    rewrite read_tlv_header_in by (assumption || cbn [idX]; lia).
    cbn [idX]. change (52 + 4) with 56. change (52 + 8) with 60.
    rewrite E52, E56.
    change (6 =? MMWDEMO_UART_MSG_POINT_CLOUD_2D) with true. cbv iota.
    unfold tlvHeaderLengthInBytes, pointLengthInBytes.
    replace ((8 + 16 * len pts - 8) / 16) with (len pts)
      by (rewrite Z.add_simpl_l, Z.mul_comm, Z.div_mul; lia).
    unfold bind at 1. unfold check_size.
    destruct (Z.ltb_spec (len pts) 0) as [?|_]; [lia|]. unfold ret at 1.
    unfold bind. unfold len at 1. rewrite Nat2Z.id.
    rewrite (read_points_at pts 60 r s ltac:(lia) Hok S60).
    unfold ret. cbn [fst snd targetDetected out targetObj]. reflexivity. }
  unfold decode. unfold bind at 1. rewrite read_header_ok by assumption.
  rewrite E20, E24, E48. change (Z.to_nat 1) with 1%nat.
  cbn [tlv_loop]. unfold bind at 1. unfold bind at 1. rewrite Estep.
  unfold ret at 1. unfold_monad.
  cbn [idX dataOK targetDetected out targetObj pointObj].
  destruct (Z.ltb_spec 0 (60 + 16 * len pts)) as [_|?]; [|lia].
  rewrite shift_out_ok by (assumption || lia).
  rewrite clamp_length_id by (cbn [byteBufferLength]; lia).
  reflexivity.
Qed.

(** X13. A point cloud survives the wire.  A frame made of the 52-byte
    header, with its total packet length, any 32-bit frame number and one
    record, and of a point-cloud record with any points whose fields are
    32-bit patterns, fed in one call to the empty buffer, is returned with
    [dataOK] set, the frame number of the header, and the four sequences of
    exactly these field values in order; the buffer is empty again and the
    counters and histories are untouched. *)
Theorem point_cloud_round_trip (strict_shapes : bool) (frameNumber : Z)
    (pts : list Point) (s : State) :
  buffer_inv s -> byteBufferLength s = 0 ->
  forallb point_ok pts = true -> is_u32 frameNumber = true ->
  60 + 16 * len pts < maxBufferSize - (if strict_shapes then 6 else 0) ->
  process_frame strict_shapes (point_cloud_frame frameNumber pts) s
  = (Ok (mkResult true false frameNumber None None
           (Some (mkPointObj (len pts) (map p_range pts) (map p_azimuth pts)
                    (map p_doppler pts) (map p_snr pts)))), s).
Proof.
  intros Hinv H0 Hok Hfn Hfit.
  pose proof (len_nonneg pts) as Hpts.
  pose proof (len_point_cloud_frame frameNumber pts) as Hlf.
  assert (Hcap : maxBufferSize = 32768) by reflexivity.
  assert (Hfit' : 60 + 16 * len pts < maxBufferSize)
    by (destruct strict_shapes; lia).
  assert (Hp : has_prefix magicWord (point_cloud_frame frameNumber pts) = true).
  { unfold point_cloud_frame, header. rewrite <- !app_assoc.
    apply has_prefix_refl. }
  rewrite process_frame_first by (assumption || lia).
  rewrite front_frame by (assumption || lia).
  set (s1 := synced s (point_cloud_frame frameNumber pts)).
  assert (Hinv1 : buffer_inv s1) by (apply synced_inv; lia).
  assert (Hl1 : byteBufferLength s1 = 60 + 16 * len pts) by exact Hlf.
  assert (Hbuf : byteBuffer s1
                 = header (60 + 16 * len pts) frameNumber 1 ++ u32le 6
                   ++ u32le (8 + 16 * len pts) ++ concat (map enc_point pts)
                   ++ zeros (Z.to_nat (maxBufferSize
                                       - len (point_cloud_frame frameNumber pts)))).
  { unfold s1, synced, byteBuffer, point_cloud_frame at 1.
    rewrite <- !app_assoc. reflexivity. }
  assert (E20 : u32_at (byteBuffer s1) 20 = 60 + 16 * len pts).
  { rewrite Hbuf. unfold u32_at. change (20 + 4) with 24.
    rewrite (proj1 (header_slices _ _ _ _)). apply dot_u32le. lia. }
  rewrite E20, Hlf.
  replace (readyForDecode (60 + 16 * len pts) (60 + 16 * len pts)) with true
    by (symmetry; apply readyForDecode_true; lia).
  rewrite (decode_point_cloud s1 (60 + 16 * len pts) frameNumber pts _ Hinv1 Hbuf)
    by (assumption || lia).
  rewrite Hl1, Z.sub_diag, Z.sub_0_r.
  rewrite slice_empty, app_nil_l
    by (destruct Hinv1 as (Hlen1 & _); rewrite Hlen1; lia).
  pose proof (buffer_empty s Hinv H0) as Hb.
  destruct s as [b n ce cx t].
  unfold byteBuffer in Hb. unfold byteBufferLength in H0. subst b n.
  reflexivity.
Qed.

Lemma point_cloud_round_trip_witness :
  buffer_inv init /\
  process_frame true
    (point_cloud_frame 5 [mkPoint f_1 f_02 0 f_25; mkPoint f_25 f_m01 0 f_1])
    init
  = (Ok (mkResult true false 5 None None
           (Some (mkPointObj 2 [f_1; f_25] [f_02; f_m01] [0; 0] [f_25; f_1]))),
     init).
Proof.
  assert (H : buffer_inv init).
  { unfold buffer_inv, init. cbn [byteBuffer byteBufferLength].
    split; [|split].
    - unfold len. rewrite length_zeros, Z2Nat.id by lia. reflexivity.
    - unfold maxBufferSize. lia.
    - change (Z.to_nat 0) with 0%nat. rewrite skipn_O.
      rewrite Z.sub_0_r. reflexivity. }
  split; [exact H|].
  exact (point_cloud_round_trip true 5
           [mkPoint f_1 f_02 0 f_25; mkPoint f_25 f_m01 0 f_1] init H
           eq_refl eq_refl eq_refl eq_refl).
Defined.

(** ** A target list, encoded and decoded *)

Lemma read_u32_at i z rest s :
  0 <= i -> skipn (Z.to_nat i) (byteBuffer s) = u32le z ++ rest ->
  0 <= z < 2 ^ 32 ->
  read_u32 i s = (Ok z, s) /\
  skipn (Z.to_nat (i + 4)) (byteBuffer s) = rest.
Proof.
  intros H0 Hs Hz.
  destruct (read_f32_at i z rest s H0 Hs Hz) as [E S].
  split; [|exact S].
  assert (Hlen : i + 4 <= len (byteBuffer s)).
  { apply (f_equal (@length byte)) in Hs.
    rewrite length_skipn, length_app in Hs. cbn [u32le length] in Hs.
    unfold len. lia. }
  rewrite read_f32_ok in E by lia. rewrite read_u32_ok by lia. exact E.
Qed.

Lemma read_floats_at zs : forall i rest s,
  0 <= i -> forallb is_u32 zs = true ->
  skipn (Z.to_nat i) (byteBuffer s) = concat (map u32le zs) ++ rest ->
  read_floats (length zs) i s = (Ok zs, s) /\
  skipn (Z.to_nat (i + 4 * len zs)) (byteBuffer s) = rest.
Proof.
  induction zs as [|z zs IH]; intros i rest s H0 Hok Hs.
  - cbn [length read_floats]. unfold ret, len. cbn [length].
    rewrite Z.add_0_r. split; [reflexivity | exact Hs].
  - cbn [forallb] in Hok. apply andb_true_iff in Hok as [Hz Hzs].
    apply is_u32_range in Hz.
    cbn [map concat] in Hs. rewrite <- app_assoc in Hs.
    destruct (read_f32_at i z _ s H0 Hs Hz) as [E1 S1].
    destruct (IH (i + 4) rest s ltac:(lia) Hzs S1) as [E2 S2].
    cbn [length read_floats]. unfold bind. rewrite E1, E2. unfold ret.
    split; [reflexivity|].
    replace (i + 4 * len (z :: zs)) with (i + 4 + 4 * len zs)
      by (unfold len; cbn [length]; lia).
    exact S2.
Qed.

Lemma read_targets_at tgs : forall i rest s,
  0 <= i -> forallb target_ok tgs = true ->
  skipn (Z.to_nat i) (byteBuffer s) = concat (map enc_target tgs) ++ rest ->
  read_targets (length tgs) i s = (Ok (tgs, i + 68 * len tgs), s).
Proof.
  induction tgs as [|[id px py vx vy ax ay ec g] tgs IH];
    intros i rest s H0 Hok Hs.
  - cbn [length read_targets]. unfold ret, len. cbn [length].
    do 3 f_equal. lia.
  - cbn [forallb] in Hok. apply andb_true_iff in Hok as [Hp Htgs].
    unfold target_ok in Hp.
    cbn [t_id t_posX t_posY t_velX t_velY t_accX t_accY t_EC t_G] in Hp.
    apply andb_true_iff in Hp as [Hp Hg].
    apply andb_true_iff in Hp as [Hp Hec].
    apply andb_true_iff in Hp as [Hp Hf1].
    apply andb_true_iff in Hp as [Hp Hay].
    apply andb_true_iff in Hp as [Hp Hax].
    apply andb_true_iff in Hp as [Hp Hvy].
    apply andb_true_iff in Hp as [Hp Hvx].
    apply andb_true_iff in Hp as [Hp Hpy].
    apply andb_true_iff in Hp as [Hp Hpx].
    apply is_u32_range in Hp, Hg, Hay, Hax, Hvy, Hvx, Hpy, Hpx.
    apply Z.eqb_eq in Hf1.
    assert (Hn : length ec = 9%nat) by (unfold len in Hf1; lia).
    cbn [map concat] in Hs. unfold enc_target in Hs.
    cbn [t_id t_posX t_posY t_velX t_velY t_accX t_accY t_EC t_G] in Hs.
    rewrite <- !app_assoc in Hs.
    destruct (read_u32_at i id _ s H0 Hs Hp) as [E1 S1].
    destruct (read_f32_at (i + 4) px _ s ltac:(lia) S1 Hpx) as [E2 S2].
    destruct (read_f32_at (i + 4 + 4) py _ s ltac:(lia) S2 Hpy) as [E3 S3].
    destruct (read_f32_at (i + 4 + 4 + 4) vx _ s ltac:(lia) S3 Hvx)
      as [E4 S4].
    destruct (read_f32_at (i + 4 + 4 + 4 + 4) vy _ s ltac:(lia) S4 Hvy)
      as [E5 S5].
    destruct (read_f32_at (i + 4 + 4 + 4 + 4 + 4) ax _ s ltac:(lia) S5 Hax)
      as [E6 S6].
    destruct (read_f32_at (i + 4 + 4 + 4 + 4 + 4 + 4) ay _ s ltac:(lia) S6 Hay)
      as [E7 S7].
    destruct (read_floats_at ec (i + 4 + 4 + 4 + 4 + 4 + 4 + 4) _ s
                ltac:(lia) Hec S7) as [E8 S8].
    rewrite Hn in E8. unfold len in S8. rewrite Hn in S8.
    destruct (read_f32_at (i + 4 + 4 + 4 + 4 + 4 + 4 + 4 + 4 * Z.of_nat 9) g _ s
                ltac:(lia) S8 Hg) as [E9 S9].
    replace (i + 4 + 4) with (i + 8) in * by lia.
    replace (i + 8 + 4) with (i + 12) in * by lia.
    replace (i + 12 + 4) with (i + 16) in * by lia.
    replace (i + 16 + 4) with (i + 20) in * by lia.
    replace (i + 20 + 4) with (i + 24) in * by lia.
    replace (i + 24 + 4) with (i + 28) in * by lia.
    replace (i + 28 + 4 * Z.of_nat 9) with (i + 64) in * by lia.
    replace (i + 64 + 4) with (i + 68) in * by lia.
    cbn [length read_targets]. unfold bind.
    rewrite E1, E2, E3, E4, E5, E6, E7, E8, E9.
    rewrite (IH (i + 68) rest s ltac:(lia) Htgs S9).
    unfold ret, len. cbn [fst snd length]. do 3 f_equal. lia.
Qed.

Lemma len_floats zs : len (concat (map u32le zs)) = 4 * len zs.
Proof.
  induction zs as [|z zs IH]; [reflexivity|].
  cbn [map concat]. rewrite len_app, IH.
  unfold len. cbn [length u32le]. lia.
Qed.

Lemma len_enc_target t : target_ok t = true -> len (enc_target t) = 68.
Proof.
  intros H. unfold target_ok in H.
  apply andb_true_iff in H as [H _]. apply andb_true_iff in H as [H _].
  apply andb_true_iff in H as [_ Hf1].
  apply Z.eqb_eq in Hf1.
  unfold enc_target. rewrite !len_app, len_floats, Hf1.
  unfold len. cbn [length u32le]. lia.
Qed.

Lemma len_targets tgs :
  forallb target_ok tgs = true ->
  len (concat (map enc_target tgs)) = 68 * len tgs.
Proof.
  induction tgs as [|t tgs IH]; intros H; [reflexivity|].
  cbn [forallb] in H. apply andb_true_iff in H as [Ht Htgs].
  cbn [map concat]. rewrite len_app, IH, len_enc_target by assumption.
  unfold len. cbn [length]. lia.
Qed.

Lemma len_target_list_frame fn tgs :
  forallb target_ok tgs = true ->
  len (target_list_frame fn tgs) = 60 + 68 * len tgs.
Proof.
  intros H. unfold target_list_frame. rewrite !len_app, len_targets by assumption.
  change (len (header (60 + 68 * len tgs) fn 1)) with 52.
  change (len (u32le 7)) with 4.
  change (len (u32le (8 + 68 * len tgs))) with 4. lia.
Qed.

Lemma track_out_of_band frameNumber tgs : forall s,
  out_of_band tgs = true ->
  track frameNumber (map (fun t => (t_id t, t_posX t)) tgs) s = (Ok tt, s).
Proof.
  unfold out_of_band.
  induction tgs as [|t tgs IH]; intros s H; [reflexivity|].
  cbn [forallb] in H. apply andb_true_iff in H as [Ht Htgs].
  apply negb_true_iff in Ht.
  cbn [map]. rewrite track_skip by assumption. apply IH, Htgs.
Qed.

Lemma decode_target_list s total fn tgs (r : list byte) :
  buffer_inv s ->
  byteBuffer s
  = header total fn 1 ++ u32le 7 ++ u32le (8 + 68 * len tgs)
    ++ concat (map enc_target tgs) ++ r ->
  0 <= total <= byteBufferLength s -> total < 2 ^ 32 ->
  is_u32 fn = true -> forallb target_ok tgs = true ->
  out_of_band tgs = true ->
  decode s
  = (let obj := mkTargetObj fn (map t_id tgs) (map t_posX tgs)
                  (map t_posY tgs) (map t_velX tgs) (map t_velY tgs)
                  (len tgs) (count_entered s) (count_exit s) in
     (Ok (mkResult false true fn (Some obj) (Some obj) None),
      mkState
        (slice (byteBuffer s) total (byteBufferLength s)
         ++ zeros (Z.to_nat (maxBufferSize - (byteBufferLength s - total))))
        (byteBufferLength s - total) (count_entered s) (count_exit s)
        (temp s))).
Proof.
  intros Hinv Hbuf Htot Htot32 Hfn Hok Hout.
  pose proof Hinv as (Hlen & Hn & _).
  apply is_u32_range in Hfn.
  pose proof (len_nonneg tgs) as Htgs.
  assert (Hcap : maxBufferSize = 32768) by reflexivity.
  assert (Hfit : 60 + 68 * len tgs <= maxBufferSize).
  { rewrite <- Hlen, Hbuf, !len_app, len_targets by assumption.
    change (len (header total fn 1)) with 52.
    change (len (u32le 7)) with 4.
    change (len (u32le (8 + 68 * len tgs))) with 4.
    pose proof (len_nonneg r). lia. }
  destruct (header_slices total fn 1
              (u32le 7 ++ u32le (8 + 68 * len tgs)
               ++ concat (map enc_target tgs) ++ r)) as (S20 & S24 & S48).
  destruct (tlv_slices total fn 1 7 (8 + 68 * len tgs)
              (concat (map enc_target tgs) ++ r)) as (S52 & S56 & S60).
  rewrite <- Hbuf in S20, S24, S48, S52, S56, S60.
  assert (E20 : u32_at (byteBuffer s) 20 = total)
    by (unfold u32_at; change (20 + 4) with 24; rewrite S20;
        apply dot_u32le; lia).
  assert (E24 : u32_at (byteBuffer s) 24 = fn)
    by (unfold u32_at; change (24 + 4) with 28; rewrite S24;
        apply dot_u32le; lia).
  assert (E48 : dot (slice (byteBuffer s) 48 50) word16 = 1)
    by (rewrite S48; reflexivity).
  assert (E52 : u32_at (byteBuffer s) 52 = 7)
    by (unfold u32_at; change (52 + 4) with 56; rewrite S52; reflexivity).
  assert (E56 : u32_at (byteBuffer s) 56 = 8 + 68 * len tgs)
    by (unfold u32_at; change (56 + 4) with 60; rewrite S56;
        apply dot_u32le; lia).
  set (obj := mkTargetObj fn (map t_id tgs) (map t_posX tgs) (map t_posY tgs)
                (map t_velX tgs) (map t_velY tgs) (len tgs) (count_entered s)
                (count_exit s)).
  assert (Estep : tlv_step fn (mkLocals 52 0 false false None None None) s
                  = (Ok (mkLocals (60 + 68 * len tgs) (8 + 68 * len tgs) false
                           true (Some obj) (Some obj) None), s)).
  { unfold tlv_step. unfold bind at 1.
    rewrite read_tlv_header_in by (assumption || cbn [idX]; lia).
    cbn [idX]. change (52 + 4) with 56. change (52 + 8) with 60.
    rewrite E52, E56.
    change (7 =? MMWDEMO_UART_MSG_POINT_CLOUD_2D) with false.
    change (7 =? MMWDEMO_UART_MSG_TARGET_LIST_2D) with true. cbv iota.
    unfold tlvHeaderLengthInBytes, targetLengthInBytes.
    replace ((8 + 68 * len tgs - 8) / 68) with (len tgs)
      by (rewrite Z.add_simpl_l, Z.mul_comm, Z.div_mul; lia).
    unfold bind at 1. unfold check_size.
    destruct (Z.ltb_spec (len tgs) 0) as [?|_]; [lia|]. unfold ret at 1.
    unfold bind at 1. unfold len at 1. rewrite Nat2Z.id.
    rewrite (read_targets_at tgs 60 r s ltac:(lia) Hok S60).
    cbn [fst snd]. unfold bind at 1.
    rewrite (track_out_of_band fn tgs s Hout).
    unfold_monad. cbn [dataOK pointObj]. reflexivity. }
  cbv zeta.
  unfold decode. unfold bind at 1. rewrite read_header_ok by assumption.
  rewrite E20, E24, E48. change (Z.to_nat 1) with 1%nat.
  cbn [tlv_loop]. unfold bind at 1. unfold bind at 1. rewrite Estep.
  unfold ret at 1. unfold_monad.
  cbn [idX dataOK targetDetected out targetObj pointObj].
  destruct (Z.ltb_spec 0 (60 + 68 * len tgs)) as [_|?]; [|lia].
  rewrite shift_out_ok by (assumption || lia).
  rewrite clamp_length_id by (cbn [byteBufferLength]; lia).
  reflexivity.
Qed.

(** X14. Targets outside the band are reported and nothing else.  A frame
    made of the 52-byte header and one target-list record, with any targets
    of 68 bytes whose [posX] lies outside [-0.5, 0.5], whatever their ids,
    fed in one call to the empty buffer, is returned with [targetDetected]
    set, [out] and [targetObj] holding the frame number, the ids and the
    positions and velocities of these targets in order, their number, and
    the two counters as they were; no history is touched, no [KeyError] is
    raised for an id of 7 or more, and the buffer is empty again. *)
Theorem target_list_round_trip (strict_shapes : bool) (frameNumber : Z)
    (tgs : list Target) (s : State) :
  buffer_inv s -> byteBufferLength s = 0 ->
  forallb target_ok tgs = true -> out_of_band tgs = true ->
  is_u32 frameNumber = true ->
  60 + 68 * len tgs < maxBufferSize - (if strict_shapes then 6 else 0) ->
  process_frame strict_shapes (target_list_frame frameNumber tgs) s
  = (Ok (mkResult false true frameNumber
           (Some (mkTargetObj frameNumber (map t_id tgs) (map t_posX tgs)
                    (map t_posY tgs) (map t_velX tgs) (map t_velY tgs)
                    (len tgs) (count_entered s) (count_exit s)))
           (Some (mkTargetObj frameNumber (map t_id tgs) (map t_posX tgs)
                    (map t_posY tgs) (map t_velX tgs) (map t_velY tgs)
                    (len tgs) (count_entered s) (count_exit s)))
           None), s).
Proof.
  intros Hinv H0 Hok Hout Hfn Hfit.
  pose proof (len_nonneg tgs) as Htgs.
  pose proof (len_target_list_frame frameNumber tgs Hok) as Hlf.
  assert (Hcap : maxBufferSize = 32768) by reflexivity.
  assert (Hfit' : 60 + 68 * len tgs < maxBufferSize)
    by (destruct strict_shapes; lia).
  assert (Hp : has_prefix magicWord (target_list_frame frameNumber tgs) = true).
  { unfold target_list_frame, header. rewrite <- !app_assoc.
    apply has_prefix_refl. }
  rewrite process_frame_first by (assumption || lia).
  rewrite front_frame by (assumption || lia).
  set (s1 := synced s (target_list_frame frameNumber tgs)).
  assert (Hinv1 : buffer_inv s1) by (apply synced_inv; lia).
  assert (Hl1 : byteBufferLength s1 = 60 + 68 * len tgs) by exact Hlf.
  assert (Hbuf : byteBuffer s1
                 = header (60 + 68 * len tgs) frameNumber 1 ++ u32le 7
                   ++ u32le (8 + 68 * len tgs) ++ concat (map enc_target tgs)
                   ++ zeros (Z.to_nat (maxBufferSize
                                       - len (target_list_frame frameNumber tgs)))).
  { unfold s1, synced, byteBuffer, target_list_frame at 1.
    rewrite <- !app_assoc. reflexivity. }
  assert (E20 : u32_at (byteBuffer s1) 20 = 60 + 68 * len tgs).
  { rewrite Hbuf. unfold u32_at. change (20 + 4) with 24.
    rewrite (proj1 (header_slices _ _ _ _)). apply dot_u32le. lia. }
  rewrite E20, Hlf.
  replace (readyForDecode (60 + 68 * len tgs) (60 + 68 * len tgs)) with true
    by (symmetry; apply readyForDecode_true; lia).
  rewrite (decode_target_list s1 (60 + 68 * len tgs) frameNumber tgs _ Hinv1 Hbuf)
    by (assumption || lia).
  cbv zeta.
  rewrite Hl1, Z.sub_diag, Z.sub_0_r.
  rewrite slice_empty, app_nil_l
    by (destruct Hinv1 as (Hlen1 & _); rewrite Hlen1; lia).
  pose proof (buffer_empty s Hinv H0) as Hb.
  destruct s as [b n ce cx t].
  unfold byteBuffer in Hb. unfold byteBufferLength in H0. subst b n.
  reflexivity.
Qed.

Lemma target_list_round_trip_witness :
  buffer_inv init /\
  process_frame true
    (target_list_frame 20
       [mkTarget 9 f_1 f_25 0 0 0 0 [0; 0; 0; 0; 0; 0; 0; 0; 0] f_1;
        mkTarget 2 f_25 f_1 f_02 f_m01 0 0 [0; 0; 0; 0; f_1; 0; 0; 0; 0] 0])
    init
  = (Ok (mkResult false true 20
           (Some (mkTargetObj 20 [9; 2] [f_1; f_25] [f_25; f_1] [0; f_02]
                    [0; f_m01] 2 0 0))
           (Some (mkTargetObj 20 [9; 2] [f_1; f_25] [f_25; f_1] [0; f_02]
                    [0; f_m01] 2 0 0))
           None), init).
Proof.
  assert (H : buffer_inv init).
  { unfold buffer_inv, init. cbn [byteBuffer byteBufferLength].
    split; [|split].
    - unfold len. rewrite length_zeros, Z2Nat.id by lia. reflexivity.
    - unfold maxBufferSize. lia.
    - change (Z.to_nat 0) with 0%nat. rewrite skipn_O.
      rewrite Z.sub_0_r. reflexivity. }
  split; [exact H|].
  exact (target_list_round_trip true 20
           [mkTarget 9 f_1 f_25 0 0 0 0 [0; 0; 0; 0; 0; 0; 0; 0; 0] f_1;
            mkTarget 2 f_25 f_1 f_02 f_m01 0 0 [0; 0; 0; 0; f_1; 0; 0; 0; 0] 0]
           init H eq_refl eq_refl eq_refl eq_refl eq_refl).
Defined.

(** ** A target-index record in front of a point cloud *)

Lemma u32_at_skipn (buf : list byte) i z rest :
  0 <= i -> skipn (Z.to_nat i) buf = u32le z ++ rest -> 0 <= z < 2 ^ 32 ->
  u32_at buf i = z /\ skipn (Z.to_nat (i + 4)) buf = rest.
Proof.
  intros H0 Hs Hz.
  assert (Hlen : i + 4 <= len buf).
  { apply (f_equal (@length byte)) in Hs.
    rewrite length_skipn, length_app in Hs. cbn [u32le length] in Hs.
    unfold len. lia. }
  split.
  - unfold u32_at. rewrite slice_in by lia.
    replace (Z.to_nat (i + 4 - i)) with 4%nat by lia.
    rewrite Hs, (firstn_app_exact (u32le z)) by reflexivity.
    apply dot_u32le. assumption.
  - replace (Z.to_nat (i + 4)) with (4 + Z.to_nat i)%nat by lia.
    rewrite <- skipn_skipn, Hs.
    apply (skipn_app_exact (u32le z)). reflexivity.
Qed.

Lemma tlv_step_index_at fn l s (idx r : list byte) :
  len (byteBuffer s) = maxBufferSize -> 0 <= idX l ->
  idX l + 8 <= maxBufferSize ->
  skipn (Z.to_nat (idX l)) (byteBuffer s)
  = u32le 8 ++ u32le (8 + len idx) ++ idx ++ r ->
  8 + len idx < 2 ^ 32 ->
  tlv_step fn l s
  = (Ok (mkLocals (idX l + 8 + len idx) (8 + len idx) (dataOK l)
           (targetDetected l) (out l) (targetObj l) (pointObj l)), s) /\
  skipn (Z.to_nat (idX l + 8 + len idx)) (byteBuffer s) = r.
Proof.
  intros Hlen H0 H8 Hs H32.
  pose proof (len_nonneg idx) as Hidx.
  assert (R1 : 0 <= 8 < 2 ^ 32) by (split; [lia | reflexivity]).
  assert (R2 : 0 <= 8 + len idx < 2 ^ 32) by lia.
  assert (H4 : 0 <= idX l + 4) by lia.
  destruct (u32_at_skipn _ _ 8 _ H0 Hs R1) as [E1 S1].
  destruct (u32_at_skipn _ _ (8 + len idx) _ H4 S1 R2) as [E2 S2].
  split.
  - unfold tlv_step. unfold bind at 1.
    rewrite read_tlv_header_in by assumption.
    rewrite E1, E2.
    change (8 =? MMWDEMO_UART_MSG_POINT_CLOUD_2D) with false.
    change (8 =? MMWDEMO_UART_MSG_TARGET_LIST_2D) with false.
    change (8 =? MMWDEMO_UART_MSG_TARGET_INDEX_2D) with true. cbv iota.
    unfold tlvHeaderLengthInBytes, ret.
    replace (idX l + 8 + (8 + len idx - 8)) with (idX l + 8 + len idx) by lia.
    reflexivity.
  - replace (Z.to_nat (idX l + 8 + len idx))
      with (length idx + Z.to_nat (idX l + 4 + 4))%nat by (unfold len; lia).
    rewrite <- skipn_skipn, S2.
    apply (skipn_app_exact idx). reflexivity.
Qed.

Lemma tlv_step_points_at fn l s pts (r : list byte) :
  len (byteBuffer s) = maxBufferSize -> 0 <= idX l ->
  idX l + 8 <= maxBufferSize ->
  skipn (Z.to_nat (idX l)) (byteBuffer s)
  = u32le 6 ++ u32le (8 + 16 * len pts) ++ concat (map enc_point pts) ++ r ->
  forallb point_ok pts = true -> 8 + 16 * len pts < 2 ^ 32 ->
  tlv_step fn l s
  = (Ok (mkLocals (idX l + 8 + 16 * len pts) (8 + 16 * len pts) true
           (targetDetected l) (out l) (targetObj l)
           (Some (mkPointObj (len pts) (map p_range pts) (map p_azimuth pts)
                    (map p_doppler pts) (map p_snr pts)))), s).
Proof.
  intros Hlen H0 H8 Hs Hok H32.
  pose proof (len_nonneg pts) as Hpts.
  assert (R1 : 0 <= 6 < 2 ^ 32) by (split; [lia | reflexivity]).
  assert (R2 : 0 <= 8 + 16 * len pts < 2 ^ 32) by lia.
  assert (H4 : 0 <= idX l + 4) by lia.
  destruct (u32_at_skipn _ _ 6 _ H0 Hs R1) as [E1 S1].
  destruct (u32_at_skipn _ _ (8 + 16 * len pts) _ H4 S1 R2) as [E2 S2].
  replace (idX l + 4 + 4) with (idX l + 8) in S2 by lia.
  unfold tlv_step. unfold bind at 1.
  rewrite read_tlv_header_in by assumption.
  rewrite E1, E2.
  change (6 =? MMWDEMO_UART_MSG_POINT_CLOUD_2D) with true. cbv iota.
  unfold tlvHeaderLengthInBytes, pointLengthInBytes.
  replace ((8 + 16 * len pts - 8) / 16) with (len pts)
    by (rewrite Z.add_simpl_l, Z.mul_comm, Z.div_mul; lia).
  unfold bind at 1. unfold check_size.
  destruct (Z.ltb_spec (len pts) 0) as [?|_]; [lia|]. unfold ret at 1.
  unfold bind. unfold len at 1. rewrite Nat2Z.id.
  rewrite (read_points_at pts (idX l + 8) r s ltac:(lia) Hok S2).
  unfold ret. cbn [fst snd]. reflexivity.
Qed.

Lemma len_index_points_frame fn idx pts :
  len (index_points_frame fn idx pts) = 68 + len idx + 16 * len pts.
Proof.
  unfold index_points_frame. rewrite !len_app, len_points.
  change (len (header (68 + len idx + 16 * len pts) fn 2)) with 52.
  change (len (u32le 8)) with 4.
  change (len (u32le (8 + len idx))) with 4.
  change (len (u32le 6)) with 4.
  change (len (u32le (8 + 16 * len pts))) with 4. lia.
Qed.

Lemma decode_index_points s total fn idx pts (r : list byte) :
  buffer_inv s ->
  byteBuffer s
  = header total fn 2 ++ u32le 8 ++ u32le (8 + len idx) ++ idx
    ++ u32le 6 ++ u32le (8 + 16 * len pts) ++ concat (map enc_point pts) ++ r ->
  0 <= total <= byteBufferLength s -> total < 2 ^ 32 ->
  is_u32 fn = true -> forallb point_ok pts = true ->
  decode s
  = (Ok (mkResult true false fn None None
           (Some (mkPointObj (len pts) (map p_range pts) (map p_azimuth pts)
                    (map p_doppler pts) (map p_snr pts)))),
     mkState
       (slice (byteBuffer s) total (byteBufferLength s)
        ++ zeros (Z.to_nat (maxBufferSize - (byteBufferLength s - total))))
       (byteBufferLength s - total) (count_entered s) (count_exit s) (temp s)).
Proof.
  intros Hinv Hbuf Htot Htot32 Hfn Hok.
  pose proof Hinv as (Hlen & Hn & _).
  apply is_u32_range in Hfn.
  pose proof (len_nonneg pts) as Hpts.
  pose proof (len_nonneg idx) as Hidx.
  assert (Hcap : maxBufferSize = 32768) by reflexivity.
  assert (Hfit : 68 + len idx + 16 * len pts <= maxBufferSize).
  { rewrite <- Hlen, Hbuf, !len_app, len_points.
    change (len (header total fn 2)) with 52.
    change (len (u32le 8)) with 4.
    change (len (u32le (8 + len idx))) with 4.
    change (len (u32le 6)) with 4.
    change (len (u32le (8 + 16 * len pts))) with 4.
    pose proof (len_nonneg r). lia. }
  destruct (header_slices total fn 2
              (u32le 8 ++ u32le (8 + len idx) ++ idx
               ++ u32le 6 ++ u32le (8 + 16 * len pts)
               ++ concat (map enc_point pts) ++ r)) as (S20 & S24 & S48).
  rewrite <- Hbuf in S20, S24, S48.
  assert (E20 : u32_at (byteBuffer s) 20 = total)
    by (unfold u32_at; change (20 + 4) with 24; rewrite S20;
        apply dot_u32le; lia).
  assert (E24 : u32_at (byteBuffer s) 24 = fn)
    by (unfold u32_at; change (24 + 4) with 28; rewrite S24;
        apply dot_u32le; lia).
  assert (E48 : dot (slice (byteBuffer s) 48 50) word16 = 2)
    by (rewrite S48; reflexivity).
  set (l0 := mkLocals 52 0 false false None None None).
  assert (S52 : skipn (Z.to_nat (idX l0)) (byteBuffer s)
                = u32le 8 ++ u32le (8 + len idx) ++ idx
                  ++ u32le 6 ++ u32le (8 + 16 * len pts)
                  ++ concat (map enc_point pts) ++ r).
  { rewrite Hbuf. apply skipn_app_exact. reflexivity. }
  assert (A0 : 0 <= idX l0) by (cbn [l0 idX]; lia).
  assert (A8 : idX l0 + 8 <= maxBufferSize) by (cbn [l0 idX]; lia).
  assert (A32 : 8 + len idx < 2 ^ 32)
    by (change (2 ^ 32) with 4294967296; lia).
  destruct (tlv_step_index_at fn l0 s idx _ Hlen A0 A8 S52 A32)
    as [Estep1 S1].
  set (l1 := mkLocals (idX l0 + 8 + len idx) (8 + len idx) (dataOK l0)
               (targetDetected l0) (out l0) (targetObj l0) (pointObj l0))
    in Estep1.
  assert (B0 : 0 <= idX l1) by (cbn [l0 l1 idX]; lia).
  assert (B8 : idX l1 + 8 <= maxBufferSize) by (cbn [l0 l1 idX]; lia).
  assert (B32 : 8 + 16 * len pts < 2 ^ 32)
    by (change (2 ^ 32) with 4294967296; lia).
  assert (Estep2 := tlv_step_points_at fn l1 s pts r Hlen B0 B8 S1 Hok B32).
  unfold decode. unfold bind at 1. rewrite read_header_ok by assumption.
  rewrite E20, E24, E48. change (Z.to_nat 2) with 2%nat.
  cbn [tlv_loop]. fold l0. unfold bind at 1. unfold bind at 1.
  rewrite Estep1. cbv beta iota. unfold bind at 1. rewrite Estep2.
  unfold ret at 1. unfold_monad.
  cbn [l0 l1 idX dataOK targetDetected out targetObj pointObj].
  match goal with
  | |- context [0 <? ?e] => destruct (Z.ltb_spec 0 e) as [_|?]; [|lia]
  end.
  rewrite shift_out_ok by (assumption || lia).
  rewrite clamp_length_id by (cbn [byteBufferLength]; lia).
  reflexivity.
Qed.

(** X16. A target-index record does not disturb the records behind it.  A
    frame with two records, a target-index record carrying any bytes
    whatever and then a point cloud, fed in one call to the empty buffer,
    gives the result of the point cloud alone: [dataOK] set, the frame
    number of the header, and the four sequences of the points' fields in
    order; the index bytes are stepped over and never read as a record
    header, and the buffer is empty again. *)
Theorem index_record_skipped (strict_shapes : bool) (frameNumber : Z)
    (idx : list byte) (pts : list Point) (s : State) :
  buffer_inv s -> byteBufferLength s = 0 ->
  forallb point_ok pts = true -> is_u32 frameNumber = true ->
  68 + len idx + 16 * len pts
  < maxBufferSize - (if strict_shapes then 6 else 0) ->
  process_frame strict_shapes (index_points_frame frameNumber idx pts) s
  = (Ok (mkResult true false frameNumber None None
           (Some (mkPointObj (len pts) (map p_range pts) (map p_azimuth pts)
                    (map p_doppler pts) (map p_snr pts)))), s).
Proof.
  intros Hinv H0 Hok Hfn Hfit.
  pose proof (len_nonneg pts) as Hpts.
  pose proof (len_nonneg idx) as Hidx.
  pose proof (len_index_points_frame frameNumber idx pts) as Hlf.
  assert (Hcap : maxBufferSize = 32768) by reflexivity.
  assert (Hfit' : 68 + len idx + 16 * len pts < maxBufferSize)
    by (destruct strict_shapes; lia).
  assert (Hp : has_prefix magicWord (index_points_frame frameNumber idx pts)
               = true).
  { unfold index_points_frame, header. rewrite <- !app_assoc.
    apply has_prefix_refl. }
  rewrite process_frame_first by (assumption || lia).
  rewrite front_frame by (assumption || lia).
  set (s1 := synced s (index_points_frame frameNumber idx pts)).
  assert (Hinv1 : buffer_inv s1) by (apply synced_inv; lia).
  assert (Hl1 : byteBufferLength s1 = 68 + len idx + 16 * len pts)
    by exact Hlf.
  assert (Hbuf : byteBuffer s1
                 = header (68 + len idx + 16 * len pts) frameNumber 2
                   ++ u32le 8 ++ u32le (8 + len idx) ++ idx
                   ++ u32le 6 ++ u32le (8 + 16 * len pts)
                   ++ concat (map enc_point pts)
                   ++ zeros (Z.to_nat
                               (maxBufferSize
                                - len (index_points_frame frameNumber idx pts)))).
  { unfold s1, synced, byteBuffer, index_points_frame at 1.
    rewrite <- !app_assoc. reflexivity. }
  assert (E20 : u32_at (byteBuffer s1) 20 = 68 + len idx + 16 * len pts).
  { rewrite Hbuf. unfold u32_at. change (20 + 4) with 24.
    rewrite (proj1 (header_slices _ _ _ _)). apply dot_u32le. lia. }
  rewrite E20, Hlf.
  replace (readyForDecode (68 + len idx + 16 * len pts)
             (68 + len idx + 16 * len pts)) with true
    by (symmetry; apply readyForDecode_true; lia).
  rewrite (decode_index_points s1 (68 + len idx + 16 * len pts) frameNumber
             idx pts _ Hinv1 Hbuf) by (assumption || lia).
  rewrite Hl1, Z.sub_diag, Z.sub_0_r.
  rewrite slice_empty, app_nil_l
    by (destruct Hinv1 as (Hlen1 & _); rewrite Hlen1; lia).
  pose proof (buffer_empty s Hinv H0) as Hb.
  destruct s as [b n ce cx t].
  unfold byteBuffer in Hb. unfold byteBufferLength in H0. subst b n.
  reflexivity.
Qed.

Lemma index_record_skipped_witness :
  buffer_inv init /\
  process_frame true
    (index_points_frame 5 [x06; x00; x00; x00; x18]
       [mkPoint f_1 f_02 0 f_25])
    init
  = (Ok (mkResult true false 5 None None
           (Some (mkPointObj 1 [f_1] [f_02] [0] [f_25]))), init).
Proof.
  assert (H : buffer_inv init).
  { unfold buffer_inv, init. cbn [byteBuffer byteBufferLength].
    split; [|split].
    - unfold len. rewrite length_zeros, Z2Nat.id by lia. reflexivity.
    - unfold maxBufferSize. lia.
    - change (Z.to_nat 0) with 0%nat. rewrite skipn_O.
      rewrite Z.sub_0_r. reflexivity. }
  split; [exact H|].
  exact (index_record_skipped true 5 [x06; x00; x00; x00; x18]
           [mkPoint f_1 f_02 0 f_25] init H eq_refl eq_refl eq_refl eq_refl).
Defined.

(** * Recovery from garbage *)

(** ** The records of a well-formed frame, read by the loop *)











(** ** A well-formed frame at the front of the buffer *)



(** ** Garbage in front of a well-formed frame *)




(** The six bytes that the search needs behind the frame under the raising
    comparison are no accident of the proof: with 32762 bytes buffered and
    the first byte of the magic word in the last of them, the slice of line
    127 has 7 elements and the comparison of line 128 is between 7 and 8
    elements; it raises where shapes must agree and is false where they
    need not. *)
Lemma late_candidate_raises :
  byteBufferLength (snd (append [x02] (synced init (repeat x01 (Z.to_nat 32761)))))
  = maxBufferSize - 6 /\
  fst (process_frame true [x02] (synced init (repeat x01 (Z.to_nat 32761))))
  = Raise ValueError /\
  fst (process_frame false [x02] (synced init (repeat x01 (Z.to_nat 32761))))
  = Ok no_data.
Proof. vm_compute. repeat split; reflexivity. Qed.

(** ** The power of two of [parse_config_file] *)

Lemma round_loop_spec : forall (m : nat) (n j : Z),
  0 <= j -> n - 2 ^ j <= Z.of_nat m -> (j = 0 \/ 2 ^ (j - 1) < n) ->
  exists k, j <= k /\
    (forall fuel, (m < fuel)%nat -> round_loop fuel n (2 ^ j) = Some (2 ^ k)) /\
    n <= 2 ^ k /\ (k = 0 \/ 2 ^ (k - 1) < n).
Proof.
  induction m as [|m IH]; intros n j Hj Hm Hmin.
  - exists j. split; [lia|]. split; [|split; [lia | exact Hmin]].
    intros [|fuel] Hf; [lia|]. cbn [round_loop].
    destruct (Z.gtb_spec n (2 ^ j)); [lia | reflexivity].
  - destruct (Z_le_gt_dec n (2 ^ j)) as [Hle|Hgt].
    + exists j. split; [lia|]. split; [|split; [lia | exact Hmin]].
      intros [|fuel] Hf; [lia|]. cbn [round_loop].
      destruct (Z.gtb_spec n (2 ^ j)); [lia | reflexivity].
    + assert (Hpos : 0 < 2 ^ j) by (apply Z.pow_pos_nonneg; lia).
      assert (Hs : 2 ^ (j + 1) = 2 ^ j * 2)
        by (rewrite Z.pow_add_r by lia; reflexivity).
      destruct (IH n (j + 1) ltac:(lia) ltac:(lia)) as (k & Hk & Hrun & Hge & Hk').
      { right. replace (j + 1 - 1) with j by lia. lia. }
      exists k. split; [lia|]. split; [|split; assumption].
      intros [|fuel] Hf; [lia|]. cbn [round_loop].
      destruct (Z.gtb_spec n (2 ^ j)); [|lia].
      rewrite <- Hs. apply Hrun. lia.
Qed.

(** X15. [numRangeBins] is the least power of two not below the number of
    ADC samples.  For every integer [num_adc_samples] the rounding loop of
    [parse_config_file] ends: there is an exponent [k >= 0] such that the
    loop, given room for more than [num_adc_samples] tests of its condition,
    leaves [2 ^ k] in [num_adc_samples_round_to2], with
    [num_adc_samples <= 2 ^ k], and either [k = 0] (the result is 1, as for
    every number of samples of 1 or less, zero and negative ones included)
    or [2 ^ (k - 1) < num_adc_samples]. *)
Theorem round_to2_least_power (num_adc_samples : Z) :
  exists k, 0 <= k /\
    (forall fuel, (Z.to_nat num_adc_samples < fuel)%nat ->
       round_to2 fuel num_adc_samples = Some (2 ^ k)) /\
    num_adc_samples <= 2 ^ k /\
    (k = 0 \/ 2 ^ (k - 1) < num_adc_samples).
Proof.
  destruct (round_loop_spec (Z.to_nat num_adc_samples) num_adc_samples 0)
    as (k & Hk & Hrun & Hge & Hmin).
  - lia.
  - change (2 ^ 0) with 1. lia.
  - left. reflexivity.
  - exists k. split; [exact Hk|]. split; [|split; assumption].
    intros fuel Hf. unfold round_to2. change 1 with (2 ^ 0) at 1.
    apply Hrun, Hf.
Qed.
